(** * USB HID keyboard to PS/2 converter (STM32F411): capture queue,
      scan-code translator and PS/2 framer

    A shallow embedding of [src/usb/keyboard_handler.c],
    [src/ps2/ps2_protocol.c], [src/ps2/scancode_translator.c],
    [src/ps2/ps2_init.c], the connection and error handling of
    [src/usb/usb_host_init.c] and the main loop of [src/main.c].

    Conventions.
    - A [uint8_t] is a [Z] in [0, 256); arithmetic that can wrap is written
      with [u8].
    - A C array is a [list]; [a[i]] is read with [byte_at] / [!!] and
      written with stdpp's [<[i:=v]>] / [alter].  An index past the end of
      the list is where the C program leaves its array: C does not define
      what is read or what happens after a store there, so the properties
      below are stated for calls whose reads and stores stay inside the
      arrays ([snapshot_in_range], [writes_in_bounds] and the length bound of
      a scan code), unless they are about the overrun itself.
    - File-scope variables of a module are the fields of a state record
      that every function takes and returns.
    - A pointer argument that the C code tests against [NULL] is an
      [option]; the pointee after the call is returned next to the status.
    - [__disable_irq] / [__enable_irq] bracket the queue updates in the
      source; the embedding is sequential, so they leave no trace here. *)

From Stdlib Require Import ZArith Lia Bool.
From stdpp Require Import base option list list_numbers.

Local Open Scope Z_scope.

(** ** Machine integers and arrays *)

Definition u8 (z : Z) : Z := z mod 256.
Definition u32 (z : Z) : Z := z mod 4294967296.

(** [a[i]] for a byte array.  The result for an index past the end (0) is
    a placeholder: the C program reads whatever follows the array there. *)
Definition byte_at (a : list Z) (i : Z) : Z := default 0 (a !! Z.to_nat i).

(** ** ps2_protocol.h / ps2_protocol.c *)

Inductive PS2_ProtocolStatus_t := PS2_PROTOCOL_OK | PS2_PROTOCOL_ERROR.

Definition PS2_MAX_SCANCODE_LENGTH : Z := 4.
Definition PS2_BREAK_CODE_PREFIX : Z := 0xF0.
Definition PS2_EXTENDED_CODE_PREFIX : Z := 0xE0.

(** [struct { uint8_t data[4]; uint8_t length; }].  The field is called
    [length] in the source. *)
Record PS2_ScanCode_t := mkScanCode { data : list Z; sc_length : Z }.

#[global] Instance PS2_ScanCode_inhabited : Inhabited PS2_ScanCode_t :=
  populate (mkScanCode (replicate 4 0) 0).

(** The bytes a scan code stands for: [data[0 .. length-1]]. *)
Definition scancode_bytes (sc : PS2_ScanCode_t) : list Z :=
  take (Z.to_nat (sc_length sc)) (data sc).

(** The shared shape of the constructors: refuse [NULL], otherwise update
    the pointee in place. *)
Definition through_ptr {A} (p : option A) (f : A -> A)
  : PS2_ProtocolStatus_t * option A :=
  match p with
  | None => (PS2_PROTOCOL_ERROR, None)
  | Some a => (PS2_PROTOCOL_OK, Some (f a))
  end.

Definition make_code_at (key_code : Z) (sc : PS2_ScanCode_t) : PS2_ScanCode_t :=
  mkScanCode (<[0%nat := key_code]> (data sc)) 1.

Definition break_code_at (key_code : Z) (sc : PS2_ScanCode_t) : PS2_ScanCode_t :=
  mkScanCode (<[1%nat := key_code]> (<[0%nat := PS2_BREAK_CODE_PREFIX]> (data sc))) 2.

Definition extended_make_code_at (key_code : Z) (sc : PS2_ScanCode_t) : PS2_ScanCode_t :=
  mkScanCode (<[1%nat := key_code]> (<[0%nat := PS2_EXTENDED_CODE_PREFIX]> (data sc))) 2.

Definition extended_break_code_at (key_code : Z) (sc : PS2_ScanCode_t) : PS2_ScanCode_t :=
  mkScanCode
    (<[2%nat := key_code]>
       (<[1%nat := PS2_BREAK_CODE_PREFIX]>
          (<[0%nat := PS2_EXTENDED_CODE_PREFIX]> (data sc)))) 3.

Definition ps2_create_make_code (scancode : option PS2_ScanCode_t) (key_code : Z) :=
  through_ptr scancode (make_code_at key_code).

Definition ps2_create_break_code (scancode : option PS2_ScanCode_t) (key_code : Z) :=
  through_ptr scancode (break_code_at key_code).

Definition ps2_create_extended_make_code (scancode : option PS2_ScanCode_t) (key_code : Z) :=
  through_ptr scancode (extended_make_code_at key_code).

Definition ps2_create_extended_break_code (scancode : option PS2_ScanCode_t) (key_code : Z) :=
  through_ptr scancode (extended_break_code_at key_code).

Definition ps2_validate_scancode (scancode : option PS2_ScanCode_t) : PS2_ProtocolStatus_t :=
  match scancode with
  | None => PS2_PROTOCOL_ERROR
  | Some sc =>
      if (sc_length sc =? 0) || (sc_length sc >? PS2_MAX_SCANCODE_LENGTH)
      then PS2_PROTOCOL_ERROR else PS2_PROTOCOL_OK
  end.

(** [for (i = 0; i < src->length; i++) dest->data[i] = src->data[i];] *)
Definition copy_data (src_data dest_data : list Z) (len : Z) : list Z :=
  fold_left (fun d i => <[Z.to_nat i := byte_at src_data i]> d) (seqZ 0 len) dest_data.

Definition ps2_copy_scancode (dest src : option PS2_ScanCode_t)
  : PS2_ProtocolStatus_t * option PS2_ScanCode_t :=
  match dest, src with
  | Some d, Some s =>
      match ps2_validate_scancode src with
      | PS2_PROTOCOL_OK =>
          (PS2_PROTOCOL_OK,
           Some (mkScanCode (copy_data (data s) (data d) (sc_length s)) (sc_length s)))
      | PS2_PROTOCOL_ERROR => (PS2_PROTOCOL_ERROR, dest)
      end
  | _, _ => (PS2_PROTOCOL_ERROR, dest)
  end.

(** ** ps2_init.h / ps2_init.c : the framer *)

Inductive PS2_Status_t := PS2_OK | PS2_ERROR | PS2_INIT | PS2_READY | PS2_TRANSMITTING.

#[global] Instance PS2_Status_eq_dec : EqDecision PS2_Status_t.
Proof. solve_decision. Defined.

Inductive GPIO_PinState := GPIO_PIN_RESET | GPIO_PIN_SET.
Inductive PS2_Pin := PS2_CLK_Pin | PS2_DATA_Pin.

(** What the framer does to the outside world: pin writes and busy waits
    (the argument of [BusyWait] is the number of loop iterations). *)
Inductive bus_event :=
| HAL_GPIO_WritePin (pin : PS2_Pin) (state : GPIO_PinState)
| BusyWait (cycles : Z).

Definition PS2_BIT_PERIOD_US : Z := 83.

Definition ps2_delay_us (microseconds : Z) : list bus_event :=
  [BusyWait (u32 (microseconds * 21))].

Definition ps2_send_bit (bit_value : Z) : list bus_event :=
  [HAL_GPIO_WritePin PS2_DATA_Pin
     (if bit_value =? 0 then GPIO_PIN_RESET else GPIO_PIN_SET);
   HAL_GPIO_WritePin PS2_CLK_Pin GPIO_PIN_RESET]
  ++ ps2_delay_us (PS2_BIT_PERIOD_US / 2)
  ++ [HAL_GPIO_WritePin PS2_CLK_Pin GPIO_PIN_SET]
  ++ ps2_delay_us (PS2_BIT_PERIOD_US / 2).

(** One turn of the parity loop: [if (data & (1 << bit_count)) parity ^= 1;] *)
Definition parity_step (data parity bit_count : Z) : Z :=
  if Z.land data (Z.shiftl 1 bit_count) =? 0 then parity else Z.lxor parity 1.

Definition ps2_parity (data : Z) : Z :=
  fold_left (parity_step data) (seqZ 0 8) 1.

Definition ps2_send_byte (data : Z) : PS2_Status_t * list bus_event :=
  let parity := ps2_parity data in
  (PS2_OK,
   ps2_send_bit 0
   ++ concat (map (fun bit_count => ps2_send_bit (Z.land (Z.shiftr data bit_count) 1))
                  (seqZ 0 8))
   ++ ps2_send_bit parity
   ++ ps2_send_bit 1).

(** The byte loop of [ps2_send_scancode]; [false] is the early return. *)
Fixpoint send_scancode_bytes (sc : PS2_ScanCode_t) (idx : list Z) : bool * list bus_event :=
  match idx with
  | [] => (true, [])
  | i :: rest =>
      let '(s, tr) := ps2_send_byte (byte_at (data sc) i) in
      if decide (s = PS2_OK)
      then let '(ok, tr') := send_scancode_bytes sc rest in (ok, tr ++ tr')
      else (false, tr)
  end.

(** The result of a framer call: returned status, [ps2_status] after the
    call, bus activity of the call. *)
Record ps2_result := mkPs2Result {
  ps2_ret : PS2_Status_t;
  ps2_status_after : PS2_Status_t;
  ps2_trace : list bus_event
}.

Definition ps2_status_at_reset : PS2_Status_t := PS2_INIT.

Definition PS2_Reset_Lines : list bus_event :=
  [HAL_GPIO_WritePin PS2_CLK_Pin GPIO_PIN_SET;
   HAL_GPIO_WritePin PS2_DATA_Pin GPIO_PIN_SET].

(** Pin and timer configuration and the 10 ms settle delay do not touch the
    two line levels and are left out of the trace. *)
Definition ps2_init (ps2_status : PS2_Status_t) : ps2_result :=
  mkPs2Result PS2_OK PS2_READY PS2_Reset_Lines.

Definition ps2_send_scancode (ps2_status : PS2_Status_t)
    (scancode : option PS2_ScanCode_t) : ps2_result :=
  match scancode with
  | None => mkPs2Result PS2_ERROR ps2_status []
  | Some sc =>
      if decide (ps2_status = PS2_READY) then
        let '(ok, tr) := send_scancode_bytes sc (seqZ 0 (sc_length sc)) in
        if ok then mkPs2Result PS2_OK PS2_READY tr
        else mkPs2Result PS2_ERROR PS2_ERROR tr
      else mkPs2Result PS2_ERROR ps2_status []
  end.

(** The receiving side of the bus: the data line is sampled at every
    falling edge of the clock line. *)
Record ps2_lines := mkLines { clk_level : GPIO_PinState; data_level : GPIO_PinState }.

Definition lines_idle : ps2_lines := mkLines GPIO_PIN_SET GPIO_PIN_SET.

Definition level_bit (s : GPIO_PinState) : Z :=
  match s with GPIO_PIN_RESET => 0 | GPIO_PIN_SET => 1 end.

Fixpoint sample_falling_edges (l : ps2_lines) (tr : list bus_event) : list Z :=
  match tr with
  | [] => []
  | HAL_GPIO_WritePin PS2_DATA_Pin s :: tr' =>
      sample_falling_edges (mkLines (clk_level l) s) tr'
  | HAL_GPIO_WritePin PS2_CLK_Pin GPIO_PIN_RESET :: tr' =>
      match clk_level l with
      | GPIO_PIN_SET =>
          level_bit (data_level l)
            :: sample_falling_edges (mkLines GPIO_PIN_RESET (data_level l)) tr'
      | GPIO_PIN_RESET => sample_falling_edges l tr'
      end
  | HAL_GPIO_WritePin PS2_CLK_Pin GPIO_PIN_SET :: tr' =>
      sample_falling_edges (mkLines GPIO_PIN_SET (data_level l)) tr'
  | BusyWait _ :: tr' => sample_falling_edges l tr'
  end.

(** The eight data bits of a byte, least significant first. *)
Definition data_bits_lsb_first (b : Z) : list Z :=
  map (fun i => Z.b2z (Z.testbit b i)) (seqZ 0 8).

Definition sumZ (l : list Z) : Z := fold_right Z.add 0 l.

(** ** keyboard_handler.h / keyboard_handler.c : capture and queue *)

Inductive KeyboardHandlerStatus_t :=
| KEYBOARD_HANDLER_OK | KEYBOARD_HANDLER_ERROR | KEYBOARD_HANDLER_INIT
| KEYBOARD_HANDLER_READY | KEYBOARD_HANDLER_BUFFER_FULL.

Inductive KeyboardDataStatus_t := KEYBOARD_NO_DATA | KEYBOARD_DATA_AVAILABLE.

Definition USB_HID_MAX_KEYS : Z := 6.

(** [struct { uint8_t modifier; uint8_t reserved; uint8_t keys[6];
    uint8_t key_count; }]: nine bytes, no padding. *)
Record USB_HID_KeyboardData_t := mkKeyboardData {
  modifier : Z;
  reserved : Z;
  keys : list Z;
  key_count : Z
}.

#[global] Instance USB_HID_KeyboardData_eq_dec : EqDecision USB_HID_KeyboardData_t.
Proof. solve_decision. Defined.

(** [memset(&d, 0, sizeof d)] *)
Definition keyboard_data_zero : USB_HID_KeyboardData_t :=
  mkKeyboardData 0 0 (replicate 6 0) 0.

#[global] Instance USB_HID_KeyboardData_inhabited : Inhabited USB_HID_KeyboardData_t :=
  populate keyboard_data_zero.

Definition USB_HID_MODIFIER_LEFT_CTRL : Z := 0x01.
Definition USB_HID_MODIFIER_LEFT_SHIFT : Z := 0x02.
Definition USB_HID_MODIFIER_LEFT_ALT : Z := 0x04.
Definition USB_HID_MODIFIER_LEFT_GUI : Z := 0x08.
Definition USB_HID_MODIFIER_RIGHT_CTRL : Z := 0x10.
Definition USB_HID_MODIFIER_RIGHT_SHIFT : Z := 0x20.
Definition USB_HID_MODIFIER_RIGHT_ALT : Z := 0x40.
Definition USB_HID_MODIFIER_RIGHT_GUI : Z := 0x80.

Definition KEYBOARD_REPORT_SIZE : Z := 8.
Definition KEYBOARD_MODIFIER_OFFSET : Z := 0.
Definition KEYBOARD_KEY_OFFSET : Z := 2.
Definition KEYBOARD_MAX_KEYS : Z := 6.
Definition KEYBOARD_BUFFER_SIZE : Z := 16.

(** The file-scope variables of keyboard_handler.c. *)
Record handler_state := mkHandler {
  keyboard_buffer : list USB_HID_KeyboardData_t;
  buffer_head : Z;
  buffer_tail : Z;
  buffer_count : Z;
  last_keyboard_state : USB_HID_KeyboardData_t;
  handler_status : KeyboardHandlerStatus_t
}.

(** Static storage as the C runtime hands it over: zeroed, except for the
    initialiser of [handler_status]. *)
Definition handler_at_reset : handler_state :=
  mkHandler (replicate 16 keyboard_data_zero) 0 0 0 keyboard_data_zero KEYBOARD_HANDLER_INIT.

Definition keyboard_handler_init (st : handler_state) : KeyboardHandlerStatus_t * handler_state :=
  (KEYBOARD_HANDLER_OK,
   mkHandler (keyboard_buffer st) 0 0 0 keyboard_data_zero KEYBOARD_HANDLER_READY).

(** One turn of the key loop of [keyboard_parse_hid_report]. *)
Definition parse_key (report : list Z) (kd : USB_HID_KeyboardData_t) (i : Z)
  : USB_HID_KeyboardData_t :=
  let key_code := byte_at report (KEYBOARD_KEY_OFFSET + i) in
  if negb (key_code =? 0) && negb (key_code =? 0x01)
  then mkKeyboardData (modifier kd) (reserved kd)
         (<[Z.to_nat (key_count kd) := key_code]> (keys kd))
         (u8 (key_count kd + 1))
  else kd.

Definition keyboard_parse_hid_report (report : list Z) : USB_HID_KeyboardData_t :=
  let kd := mkKeyboardData (byte_at report KEYBOARD_MODIFIER_OFFSET) 0 (replicate 6 0) 0 in
  fold_left (parse_key report) (seqZ 0 KEYBOARD_MAX_KEYS) kd.

(** The nine bytes [memcmp] and [memcpy] see. *)
Definition keyboard_data_bytes (d : USB_HID_KeyboardData_t) : list Z :=
  [modifier d; reserved d] ++ map (byte_at (keys d)) (seqZ 0 USB_HID_MAX_KEYS) ++ [key_count d].

(** [memcmp]: the difference of the first pair of bytes that differ, 0 when
    there is none. *)
Fixpoint memcmp (a b : list Z) : Z :=
  match a, b with
  | x :: a', y :: b' => if x =? y then memcmp a' b' else x - y
  | _, _ => 0
  end.

Definition keyboard_buffer_is_full (st : handler_state) : bool :=
  buffer_count st >=? KEYBOARD_BUFFER_SIZE.

Definition keyboard_buffer_is_empty (st : handler_state) : bool :=
  buffer_count st =? 0.

Definition keyboard_buffer_put (st : handler_state) (d : USB_HID_KeyboardData_t)
  : handler_state :=
  if negb (keyboard_buffer_is_full st) then
    mkHandler (<[Z.to_nat (buffer_head st) := d]> (keyboard_buffer st))
              ((buffer_head st + 1) mod KEYBOARD_BUFFER_SIZE)
              (buffer_tail st)
              (u8 (buffer_count st + 1))
              (last_keyboard_state st) (handler_status st)
  else st.

(** [data] is the caller's struct before the call; the first component is
    that struct after the call. *)
Definition keyboard_buffer_get (st : handler_state) (d : USB_HID_KeyboardData_t)
  : USB_HID_KeyboardData_t * handler_state :=
  if negb (keyboard_buffer_is_empty st) then
    (keyboard_buffer st !!! Z.to_nat (buffer_tail st),
     mkHandler (keyboard_buffer st)
               (buffer_head st)
               ((buffer_tail st + 1) mod KEYBOARD_BUFFER_SIZE)
               (u8 (buffer_count st - 1))
               (last_keyboard_state st) (handler_status st))
  else (d, st).

Definition keyboard_handler_process_report (st : handler_state)
    (report : option (list Z)) (report_size : Z)
  : KeyboardHandlerStatus_t * handler_state :=
  match report with
  | None => (KEYBOARD_HANDLER_ERROR, st)
  | Some r =>
      if negb (report_size =? KEYBOARD_REPORT_SIZE) then (KEYBOARD_HANDLER_ERROR, st)
      else
        let keyboard_data := keyboard_parse_hid_report r in
        if negb (memcmp (keyboard_data_bytes keyboard_data)
                        (keyboard_data_bytes (last_keyboard_state st)) =? 0)
        then
          if negb (keyboard_buffer_is_full st) then
            let st1 := keyboard_buffer_put st keyboard_data in
            (KEYBOARD_HANDLER_OK,
             mkHandler (keyboard_buffer st1) (buffer_head st1) (buffer_tail st1)
                       (buffer_count st1) keyboard_data (handler_status st1))
          else (KEYBOARD_HANDLER_BUFFER_FULL, st)
        else (KEYBOARD_HANDLER_OK, st)
  end.

Definition keyboard_handler_get_data (st : handler_state)
    (keyboard_data : option USB_HID_KeyboardData_t)
  : KeyboardDataStatus_t * option USB_HID_KeyboardData_t * handler_state :=
  match keyboard_data with
  | None => (KEYBOARD_NO_DATA, None, st)
  | Some d =>
      if keyboard_buffer_is_empty st then (KEYBOARD_NO_DATA, Some d, st)
      else let '(d', st') := keyboard_buffer_get st d in
           (KEYBOARD_DATA_AVAILABLE, Some d', st')
  end.

Definition keyboard_handler_clear_buffer (st : handler_state) : handler_state :=
  mkHandler (keyboard_buffer st) 0 0 0 (last_keyboard_state st) (handler_status st).

(** Driving the handler: a run of reports, a run of dequeues, and
    arbitrary interleavings of the operations that touch the queue. *)
Fixpoint process_reports (st : handler_state) (rs : list (list Z))
  : list KeyboardHandlerStatus_t * handler_state :=
  match rs with
  | [] => ([], st)
  | r :: rs' =>
      let '(s, st1) := keyboard_handler_process_report st (Some r) KEYBOARD_REPORT_SIZE in
      let '(ss, st2) := process_reports st1 rs' in
      (s :: ss, st2)
  end.

Fixpoint dequeue_n (n : nat) (st : handler_state)
  : list (KeyboardDataStatus_t * option USB_HID_KeyboardData_t) * handler_state :=
  match n with
  | O => ([], st)
  | S n' =>
      let '(s, d, st1) := keyboard_handler_get_data st (Some keyboard_data_zero) in
      let '(ds, st2) := dequeue_n n' st1 in
      ((s, d) :: ds, st2)
  end.

Inductive queue_op :=
| OpInit
| OpProcessReport (report : option (list Z)) (report_size : Z)
| OpGetData (keyboard_data : option USB_HID_KeyboardData_t)
| OpClearBuffer
| OpPut (d : USB_HID_KeyboardData_t)
| OpGet (d : USB_HID_KeyboardData_t).

Definition run_op (st : handler_state) (op : queue_op) : handler_state :=
  match op with
  | OpInit => snd (keyboard_handler_init st)
  | OpProcessReport r n => snd (keyboard_handler_process_report st r n)
  | OpGetData d => snd (keyboard_handler_get_data st d)
  | OpClearBuffer => keyboard_handler_clear_buffer st
  | OpPut d => keyboard_buffer_put st d
  | OpGet d => snd (keyboard_buffer_get st d)
  end.

Definition run_ops (st : handler_state) (ops : list queue_op) : handler_state :=
  fold_left run_op ops st.

Definition count_in_range (st : handler_state) : Prop :=
  0 <= buffer_count st <= KEYBOARD_BUFFER_SIZE.

(** The snapshots the queue holds, oldest first: [buffer_count] slots
    starting at [buffer_tail], wrapping at the end of the array. *)
Definition queue_contents (st : handler_state) : list USB_HID_KeyboardData_t :=
  map (fun k => keyboard_buffer st !!! Z.to_nat ((buffer_tail st + k) mod KEYBOARD_BUFFER_SIZE))
      (seqZ 0 (buffer_count st)).

(** ** scancode_translator.h / scancode_translator.c *)

Inductive TranslatorStatus_t :=
| TRANSLATOR_OK | TRANSLATOR_ERROR | TRANSLATOR_INIT | TRANSLATOR_READY.

#[global] Instance TranslatorStatus_eq_dec : EqDecision TranslatorStatus_t.
Proof. solve_decision. Defined.

Definition MAX_TRANSLATION_BUFFER : Z := 8.

Record KeyMapping_t := mkKeyMapping { usb_key : Z; ps2_key : Z; is_extended : Z }.

Definition key_mapping_table : list KeyMapping_t :=
  [ (* Letters: USB_HID_KEY_A .. USB_HID_KEY_Z *)
    mkKeyMapping 0x04 0x1C 0; mkKeyMapping 0x05 0x32 0; mkKeyMapping 0x06 0x21 0;
    mkKeyMapping 0x07 0x23 0; mkKeyMapping 0x08 0x24 0; mkKeyMapping 0x09 0x2B 0;
    mkKeyMapping 0x0A 0x34 0; mkKeyMapping 0x0B 0x33 0; mkKeyMapping 0x0C 0x43 0;
    mkKeyMapping 0x0D 0x3B 0; mkKeyMapping 0x0E 0x42 0; mkKeyMapping 0x0F 0x4B 0;
    mkKeyMapping 0x10 0x3A 0; mkKeyMapping 0x11 0x31 0; mkKeyMapping 0x12 0x44 0;
    mkKeyMapping 0x13 0x4D 0; mkKeyMapping 0x14 0x15 0; mkKeyMapping 0x15 0x2D 0;
    mkKeyMapping 0x16 0x1B 0; mkKeyMapping 0x17 0x2C 0; mkKeyMapping 0x18 0x3C 0;
    mkKeyMapping 0x19 0x2A 0; mkKeyMapping 0x1A 0x1D 0; mkKeyMapping 0x1B 0x22 0;
    mkKeyMapping 0x1C 0x35 0; mkKeyMapping 0x1D 0x1A 0;
    (* Numbers: USB_HID_KEY_1 .. USB_HID_KEY_9, USB_HID_KEY_0 *)
    mkKeyMapping 0x1E 0x16 0; mkKeyMapping 0x1F 0x1E 0; mkKeyMapping 0x20 0x26 0;
    mkKeyMapping 0x21 0x25 0; mkKeyMapping 0x22 0x2E 0; mkKeyMapping 0x23 0x36 0;
    mkKeyMapping 0x24 0x3D 0; mkKeyMapping 0x25 0x3E 0; mkKeyMapping 0x26 0x46 0;
    mkKeyMapping 0x27 0x45 0;
    (* Special keys: ENTER, ESCAPE, BACKSPACE, TAB, SPACE *)
    mkKeyMapping 0x28 0x5A 0; mkKeyMapping 0x29 0x76 0;
    mkKeyMapping 0x2A 0x66 0; mkKeyMapping 0x2B 0x0D 0;
    mkKeyMapping 0x2C 0x29 0;
    (* Function keys: F1 .. F12 *)
    mkKeyMapping 0x3A 0x05 0; mkKeyMapping 0x3B 0x06 0; mkKeyMapping 0x3C 0x04 0;
    mkKeyMapping 0x3D 0x0C 0; mkKeyMapping 0x3E 0x03 0; mkKeyMapping 0x3F 0x0B 0;
    mkKeyMapping 0x40 0x83 0; mkKeyMapping 0x41 0x0A 0; mkKeyMapping 0x42 0x01 0;
    mkKeyMapping 0x43 0x09 0; mkKeyMapping 0x44 0x78 0; mkKeyMapping 0x45 0x07 0;
    (* Extended keys: INSERT, HOME, PAGE_UP, DELETE, END, PAGE_DOWN,
       RIGHT_ARROW, LEFT_ARROW, DOWN_ARROW, UP_ARROW *)
    mkKeyMapping 0x49 0x70 1; mkKeyMapping 0x4A 0x6C 1;
    mkKeyMapping 0x4B 0x7D 1; mkKeyMapping 0x4C 0x71 1;
    mkKeyMapping 0x4D 0x69 1; mkKeyMapping 0x4E 0x7A 1;
    mkKeyMapping 0x4F 0x74 1; mkKeyMapping 0x50 0x6B 1;
    mkKeyMapping 0x51 0x72 1; mkKeyMapping 0x52 0x75 1;
    (* End of table marker *)
    mkKeyMapping 0x00 0x00 0 ].

(** The search loop of [find_ps2_scancode] over the rest of the table; it
    stops at the entry whose [usb_key] is 0. *)
Fixpoint find_in_table (table : list KeyMapping_t) (key : Z) : option (Z * Z) :=
  match table with
  | [] => None
  | e :: rest =>
      if usb_key e =? 0 then None
      else if usb_key e =? key then Some (ps2_key e, is_extended e)
      else find_in_table rest key
  end.

(** [Some (ps2_key, is_extended)] is the return value 1 with the two
    out-parameters, [None] is the return value 0. *)
Definition find_ps2_scancode (key : Z) : option (Z * Z) :=
  find_in_table key_mapping_table key.

Definition is_key_in_array (key : Z) (array : list Z) (array_size : Z) : bool :=
  existsb (fun i => byte_at array i =? key) (seqZ 0 array_size).

(** The local array [temp_scancodes] of one translation call, with the
    indices of [temp_scancodes] the call has stored to, in order.  A store
    at an index of 8 or more is past the end of the array: it is recorded
    in [writes] and leaves the eight slots as they are.  C does not say what
    the program does after such a store; the embedding goes on with the
    count arithmetic of the source, which does not read the slots.  What it
    computes after such a store is not a statement about the program: the
    properties of a call's result assume [writes_in_bounds]. *)
Record translation_buffer := mkBuffer {
  temp_scancodes : list PS2_ScanCode_t;
  writes : list Z
}.

(** [create(&temp_scancodes[index], ...)] *)
Definition store_scancode
    (create : option PS2_ScanCode_t -> PS2_ProtocolStatus_t * option PS2_ScanCode_t)
    (index : Z) (b : translation_buffer) : translation_buffer :=
  mkBuffer
    (match temp_scancodes b !! Z.to_nat index with
     | Some sc =>
         match snd (create (Some sc)) with
         | Some sc' => <[Z.to_nat index := sc']> (temp_scancodes b)
         | None => temp_scancodes b
         end
     | None => temp_scancodes b
     end)
    (writes b ++ [index]).

(** One of the six [if (modifier_changes & MASK) { ... }] blocks: store a
    make or break code at [scancodes[count]], then increment the count.  [base] is the offset of the [scancodes] argument inside
    [temp_scancodes]. *)
Definition modifier_step (mask code : Z) (extended : bool)
    (base old_modifier new_modifier : Z) (bc : translation_buffer * Z)
  : translation_buffer * Z :=
  let modifier_changes := Z.lxor old_modifier new_modifier in
  if Z.land modifier_changes mask =? 0 then bc
  else
    let create p :=
      if Z.land new_modifier mask =? 0
      then (if extended then ps2_create_extended_break_code p code
            else ps2_create_break_code p code)
      else (if extended then ps2_create_extended_make_code p code
            else ps2_create_make_code p code) in
    (store_scancode create (base + snd bc) (fst bc), u8 (snd bc + 1)).

Definition translate_modifier_keys (old_modifier new_modifier : Z)
    (base : Z) (b : translation_buffer) (count : Z)
  : TranslatorStatus_t * translation_buffer * Z :=
  let initial_count := count in
  let step mask code extended := modifier_step mask code extended base old_modifier new_modifier in
  let bc := step USB_HID_MODIFIER_LEFT_CTRL 0x14 false (b, count) in
  let bc := step USB_HID_MODIFIER_LEFT_SHIFT 0x12 false bc in
  let bc := step USB_HID_MODIFIER_LEFT_ALT 0x11 false bc in
  let bc := step USB_HID_MODIFIER_RIGHT_SHIFT 0x59 false bc in
  let bc := step USB_HID_MODIFIER_RIGHT_CTRL 0x14 true bc in
  let bc := step USB_HID_MODIFIER_RIGHT_ALT 0x11 true bc in
  if snd bc >? MAX_TRANSLATION_BUFFER
  then (TRANSLATOR_ERROR, fst bc, initial_count)
  else (TRANSLATOR_OK, fst bc, snd bc).

(** One of the two loops of [translate_regular_keys], over the indices
    [idx] still to visit: the keys of [from] that are not in [other] and are
    in the key map get a scan code built by [create] (or [create_ext] for an
    extended key).  The release loop runs it with [from] the old state and
    the break-code constructors, the press loop with [from] the new state
    and the make-code constructors. *)
Fixpoint scan_keys
    (create create_ext : option PS2_ScanCode_t -> Z -> PS2_ProtocolStatus_t * option PS2_ScanCode_t)
    (from other : USB_HID_KeyboardData_t) (base initial_count : Z)
    (idx : list Z) (b : translation_buffer) (count : Z)
  : TranslatorStatus_t * translation_buffer * Z :=
  match idx with
  | [] => (TRANSLATOR_OK, b, count)
  | i :: rest =>
      if negb (is_key_in_array (byte_at (keys from) i) (keys other) (key_count other)) then
        match find_ps2_scancode (byte_at (keys from) i) with
        | Some (ps2_key, is_extended) =>
            let b' :=
              store_scancode
                (fun p => if is_extended =? 0 then create p ps2_key else create_ext p ps2_key)
                (base + count) b in
            let count' := u8 (count + 1) in
            if count' >=? MAX_TRANSLATION_BUFFER
            then (TRANSLATOR_ERROR, b', initial_count)
            else scan_keys create create_ext from other base initial_count rest b' count'
        | None => scan_keys create create_ext from other base initial_count rest b count
        end
      else scan_keys create create_ext from other base initial_count rest b count
  end.

Definition translate_regular_keys (old_state new_state : USB_HID_KeyboardData_t)
    (base : Z) (b : translation_buffer) (count : Z)
  : TranslatorStatus_t * translation_buffer * Z :=
  let initial_count := count in
  match scan_keys ps2_create_break_code ps2_create_extended_break_code
                  old_state new_state base initial_count
                  (seqZ 0 (key_count old_state)) b count with
  | (TRANSLATOR_OK, b1, count1) =>
      scan_keys ps2_create_make_code ps2_create_extended_make_code
                new_state old_state base initial_count
                (seqZ 0 (key_count new_state)) b1 count1
  | failed => failed
  end.

(** The file-scope variables of scancode_translator.c. *)
Record translator_state := mkTranslator {
  translator_status : TranslatorStatus_t;
  last_usb_state : USB_HID_KeyboardData_t
}.

Definition translator_at_reset : translator_state :=
  mkTranslator TRANSLATOR_INIT keyboard_data_zero.

Definition scancode_translator_init (st : translator_state)
  : TranslatorStatus_t * translator_state :=
  (TRANSLATOR_OK, mkTranslator TRANSLATOR_READY keyboard_data_zero).

Definition scancode_translator_reset (st : translator_state) : translator_state :=
  mkTranslator TRANSLATOR_READY keyboard_data_zero.

(** A translation call: the returned status, the caller's [*ps2_scancode]
    after the call, the translator's variables after the call, and the
    indices of [temp_scancodes] the call stored to. *)
Record translate_result := mkResult {
  tr_ret : TranslatorStatus_t;
  tr_scancode : option PS2_ScanCode_t;
  tr_state : translator_state;
  tr_writes : list Z
}.

(** [stack] is what the eight slots of the local [temp_scancodes] hold on
    entry (the array has no initialiser). *)
Definition scancode_translator_usb_to_ps2 (stack : list PS2_ScanCode_t)
    (st : translator_state)
    (usb_data : option USB_HID_KeyboardData_t) (ps2_scancode : option PS2_ScanCode_t)
  : translate_result :=
  match usb_data, ps2_scancode with
  | Some new_state, Some out =>
      if decide (translator_status st = TRANSLATOR_READY) then
        let scancode_count := 0 in
        match translate_modifier_keys (modifier (last_usb_state st)) (modifier new_state)
                0 (mkBuffer stack []) scancode_count with
        | (TRANSLATOR_OK, b1, scancode_count) =>
            (* the array argument is [&temp_scancodes[scancode_count]], the
               count argument is [&scancode_count] *)
            match translate_regular_keys (last_usb_state st) new_state
                    scancode_count b1 scancode_count with
            | (TRANSLATOR_OK, b2, scancode_count) =>
                let out' :=
                  if scancode_count >? 0
                  then snd (ps2_copy_scancode (Some out) (Some (temp_scancodes b2 !!! 0%nat)))
                  else Some (mkScanCode (data out) 0) in
                mkResult TRANSLATOR_OK out'
                         (mkTranslator (translator_status st) new_state) (writes b2)
            | (_, b2, _) => mkResult TRANSLATOR_ERROR ps2_scancode st (writes b2)
            end
        | (_, b1, _) => mkResult TRANSLATOR_ERROR ps2_scancode st (writes b1)
        end
      else mkResult TRANSLATOR_ERROR ps2_scancode st []
  | _, _ => mkResult TRANSLATOR_ERROR ps2_scancode st []
  end.

(** Every store of a call stays inside the eight-slot array. *)
Definition writes_in_bounds (r : translate_result) : Prop :=
  Forall (fun i => 0 <= i < MAX_TRANSLATION_BUFFER) (tr_writes r).

(** The number of discrete events the difference between two snapshots
    stands for: one per changed modifier bit that has a scan code, one per
    released key and one per pressed key that is in the key map. *)
Definition handled_modifiers : list Z :=
  [USB_HID_MODIFIER_LEFT_CTRL; USB_HID_MODIFIER_LEFT_SHIFT; USB_HID_MODIFIER_LEFT_ALT;
   USB_HID_MODIFIER_RIGHT_SHIFT; USB_HID_MODIFIER_RIGHT_CTRL; USB_HID_MODIFIER_RIGHT_ALT].

Definition modifier_events (old_modifier new_modifier : Z) : Z :=
  sumZ (map (fun mask => if Z.land (Z.lxor old_modifier new_modifier) mask =? 0 then 0 else 1)
            handled_modifiers).

Definition key_is_event (from other : USB_HID_KeyboardData_t) (i : Z) : bool :=
  negb (is_key_in_array (byte_at (keys from) i) (keys other) (key_count other))
  && match find_ps2_scancode (byte_at (keys from) i) with Some _ => true | None => false end.

Definition count_key_events (from other : USB_HID_KeyboardData_t) (idx : list Z) : Z :=
  sumZ (map (fun i => if key_is_event from other i then 1 else 0) idx).

Definition key_events (from other : USB_HID_KeyboardData_t) : Z :=
  count_key_events from other (seqZ 0 (key_count from)).

Definition diff_events (last current : USB_HID_KeyboardData_t) : Z :=
  modifier_events (modifier last) (modifier current)
  + key_events last current + key_events current last.

(** Snapshots used in the scenarios. *)
Definition snapshot_of_keys (m : Z) (ks : list Z) : USB_HID_KeyboardData_t :=
  keyboard_parse_hid_report ([m; 0] ++ ks ++ replicate (6 - length ks) 0).

Definition zero_stack : list PS2_ScanCode_t := replicate 8 (mkScanCode (replicate 4 0) 0).

(** The value a run of bits stands for, least significant bit first. *)
Definition value_lsb_first (bits : list Z) : Z :=
  fold_right (fun bit acc => bit + 2 * acc) 0 bits.

(** Well-formedness of the queue variables: the array has its sixteen
    slots, the cursors are array indices, and the head is [buffer_count]
    slots after the tail. *)
Definition queue_wf (st : handler_state) : Prop :=
  length (keyboard_buffer st) = 16%nat /\
  0 <= buffer_tail st < KEYBOARD_BUFFER_SIZE /\
  0 <= buffer_count st <= KEYBOARD_BUFFER_SIZE /\
  buffer_head st = (buffer_tail st + buffer_count st) mod KEYBOARD_BUFFER_SIZE.

(** A snapshot whose [keys] array has its six slots. *)
Definition snapshot_wf (d : USB_HID_KeyboardData_t) : Prop :=
  length (keys d) = 6%nat.

(** Each report of the run parses to a snapshot different from the one
    captured just before it ([last] for the first report). *)
Fixpoint each_differs (last : USB_HID_KeyboardData_t) (rs : list (list Z)) : Prop :=
  match rs with
  | [] => True
  | r :: rs' =>
      keyboard_parse_hid_report r <> last /\ each_differs (keyboard_parse_hid_report r) rs'
  end.


(** A scan code whose [data] array has its four slots, and a stack area
    that holds eight of them. *)
Definition scancode_wf (sc : PS2_ScanCode_t) : Prop := length (data sc) = 4%nat.

Definition stack_wf (stack : list PS2_ScanCode_t) : Prop :=
  length stack = 8%nat /\ Forall scancode_wf stack.

Definition USB_HID_KEY_A : Z := 0x04.

(** The translator once [scancode_translator_init] has run: ready, with
    the all-released snapshot as the last one translated. *)
Definition translator_ready : translator_state :=
  snd (scancode_translator_init translator_at_reset).


(** ** Further functions of the same files *)

(** *** ps2_protocol.c *)

(** [data] is the caller's byte array ([None] for [NULL]); the copy loop is
    the one of [ps2_copy_scancode]. *)
Definition ps2_create_scancode (scancode : option PS2_ScanCode_t)
    (bytes : option (list Z)) (len : Z)
  : PS2_ProtocolStatus_t * option PS2_ScanCode_t :=
  match scancode, bytes with
  | Some sc, Some d =>
      if (len =? 0) || (len >? PS2_MAX_SCANCODE_LENGTH)
      then (PS2_PROTOCOL_ERROR, scancode)
      else (PS2_PROTOCOL_OK, Some (mkScanCode (copy_data d (data sc) len) len))
  | _, _ => (PS2_PROTOCOL_ERROR, scancode)
  end.

Inductive PS2_CommonKey_t :=
| PS2_KEY_A | PS2_KEY_B | PS2_KEY_C | PS2_KEY_D | PS2_KEY_E
| PS2_KEY_F | PS2_KEY_G | PS2_KEY_H | PS2_KEY_I | PS2_KEY_J
| PS2_KEY_K | PS2_KEY_L | PS2_KEY_M | PS2_KEY_N | PS2_KEY_O
| PS2_KEY_P | PS2_KEY_Q | PS2_KEY_R | PS2_KEY_S | PS2_KEY_T
| PS2_KEY_U | PS2_KEY_V | PS2_KEY_W | PS2_KEY_X | PS2_KEY_Y | PS2_KEY_Z
| PS2_KEY_0 | PS2_KEY_1 | PS2_KEY_2 | PS2_KEY_3 | PS2_KEY_4
| PS2_KEY_5 | PS2_KEY_6 | PS2_KEY_7 | PS2_KEY_8 | PS2_KEY_9
| PS2_KEY_SPACE | PS2_KEY_ENTER | PS2_KEY_BACKSPACE | PS2_KEY_TAB | PS2_KEY_ESC
| PS2_KEY_LSHIFT | PS2_KEY_RSHIFT | PS2_KEY_LCTRL | PS2_KEY_RCTRL
| PS2_KEY_LALT | PS2_KEY_RALT
| PS2_KEY_F1 | PS2_KEY_F2 | PS2_KEY_F3 | PS2_KEY_F4 | PS2_KEY_F5 | PS2_KEY_F6
| PS2_KEY_F7 | PS2_KEY_F8 | PS2_KEY_F9 | PS2_KEY_F10 | PS2_KEY_F11 | PS2_KEY_F12
| PS2_KEY_INSERT | PS2_KEY_DELETE | PS2_KEY_HOME | PS2_KEY_END
| PS2_KEY_PAGE_UP | PS2_KEY_PAGE_DOWN
| PS2_KEY_UP_ARROW | PS2_KEY_DOWN_ARROW | PS2_KEY_LEFT_ARROW | PS2_KEY_RIGHT_ARROW.

#[global] Instance PS2_CommonKey_eq_dec : EqDecision PS2_CommonKey_t.
Proof. solve_decision. Defined.

Definition all_common_keys : list PS2_CommonKey_t :=
  [PS2_KEY_A; PS2_KEY_B; PS2_KEY_C; PS2_KEY_D; PS2_KEY_E;
   PS2_KEY_F; PS2_KEY_G; PS2_KEY_H; PS2_KEY_I; PS2_KEY_J;
   PS2_KEY_K; PS2_KEY_L; PS2_KEY_M; PS2_KEY_N; PS2_KEY_O;
   PS2_KEY_P; PS2_KEY_Q; PS2_KEY_R; PS2_KEY_S; PS2_KEY_T;
   PS2_KEY_U; PS2_KEY_V; PS2_KEY_W; PS2_KEY_X; PS2_KEY_Y; PS2_KEY_Z;
   PS2_KEY_0; PS2_KEY_1; PS2_KEY_2; PS2_KEY_3; PS2_KEY_4;
   PS2_KEY_5; PS2_KEY_6; PS2_KEY_7; PS2_KEY_8; PS2_KEY_9;
   PS2_KEY_SPACE; PS2_KEY_ENTER; PS2_KEY_BACKSPACE; PS2_KEY_TAB; PS2_KEY_ESC;
   PS2_KEY_LSHIFT; PS2_KEY_RSHIFT; PS2_KEY_LCTRL; PS2_KEY_RCTRL;
   PS2_KEY_LALT; PS2_KEY_RALT;
   PS2_KEY_F1; PS2_KEY_F2; PS2_KEY_F3; PS2_KEY_F4; PS2_KEY_F5; PS2_KEY_F6;
   PS2_KEY_F7; PS2_KEY_F8; PS2_KEY_F9; PS2_KEY_F10; PS2_KEY_F11; PS2_KEY_F12;
   PS2_KEY_INSERT; PS2_KEY_DELETE; PS2_KEY_HOME; PS2_KEY_END;
   PS2_KEY_PAGE_UP; PS2_KEY_PAGE_DOWN;
   PS2_KEY_UP_ARROW; PS2_KEY_DOWN_ARROW; PS2_KEY_LEFT_ARROW; PS2_KEY_RIGHT_ARROW].

Definition ps2_get_common_key_scancode (key : PS2_CommonKey_t) : Z :=
  match key with
  | PS2_KEY_A => 0x1C | PS2_KEY_B => 0x32 | PS2_KEY_C => 0x21 | PS2_KEY_D => 0x23
  | PS2_KEY_E => 0x24 | PS2_KEY_F => 0x2B | PS2_KEY_G => 0x34 | PS2_KEY_H => 0x33
  | PS2_KEY_I => 0x43 | PS2_KEY_J => 0x3B | PS2_KEY_K => 0x42 | PS2_KEY_L => 0x4B
  | PS2_KEY_M => 0x3A | PS2_KEY_N => 0x31 | PS2_KEY_O => 0x44 | PS2_KEY_P => 0x4D
  | PS2_KEY_Q => 0x15 | PS2_KEY_R => 0x2D | PS2_KEY_S => 0x1B | PS2_KEY_T => 0x2C
  | PS2_KEY_U => 0x3C | PS2_KEY_V => 0x2A | PS2_KEY_W => 0x1D | PS2_KEY_X => 0x22
  | PS2_KEY_Y => 0x35 | PS2_KEY_Z => 0x1A
  | PS2_KEY_0 => 0x45 | PS2_KEY_1 => 0x16 | PS2_KEY_2 => 0x1E | PS2_KEY_3 => 0x26
  | PS2_KEY_4 => 0x25 | PS2_KEY_5 => 0x2E | PS2_KEY_6 => 0x36 | PS2_KEY_7 => 0x3D
  | PS2_KEY_8 => 0x3E | PS2_KEY_9 => 0x46
  | PS2_KEY_SPACE => 0x29 | PS2_KEY_ENTER => 0x5A | PS2_KEY_BACKSPACE => 0x66
  | PS2_KEY_TAB => 0x0D | PS2_KEY_ESC => 0x76
  | PS2_KEY_LSHIFT => 0x12 | PS2_KEY_RSHIFT => 0x59
  | PS2_KEY_LCTRL => 0x14 | PS2_KEY_LALT => 0x11
  | PS2_KEY_F1 => 0x05 | PS2_KEY_F2 => 0x06 | PS2_KEY_F3 => 0x04 | PS2_KEY_F4 => 0x0C
  | PS2_KEY_F5 => 0x03 | PS2_KEY_F6 => 0x0B | PS2_KEY_F7 => 0x83 | PS2_KEY_F8 => 0x0A
  | PS2_KEY_F9 => 0x01 | PS2_KEY_F10 => 0x09 | PS2_KEY_F11 => 0x78 | PS2_KEY_F12 => 0x07
  | _ => 0x00
  end.

Definition ps2_is_extended_key (key : PS2_CommonKey_t) : Z :=
  match key with
  | PS2_KEY_RCTRL | PS2_KEY_RALT
  | PS2_KEY_INSERT | PS2_KEY_DELETE | PS2_KEY_HOME | PS2_KEY_END
  | PS2_KEY_PAGE_UP | PS2_KEY_PAGE_DOWN
  | PS2_KEY_UP_ARROW | PS2_KEY_DOWN_ARROW | PS2_KEY_LEFT_ARROW | PS2_KEY_RIGHT_ARROW => 1
  | _ => 0
  end.

(** *** ps2_init.c, seen from the bus *)

Definition ps2_get_status (ps2_status : PS2_Status_t) : PS2_Status_t := ps2_status.

(** The eleven bits of the frame of one byte. *)
Definition frame_bits (b : Z) : list Z :=
  [0] ++ data_bits_lsb_first b ++ [ps2_parity b; 1].

(** A receiver: cut the sampled bits into frames of eleven and give back
    the bytes, provided every frame has start bit 0, stop bit 1 and an odd
    number of ones among data and parity bits. *)
Fixpoint decode_frames (bits : list Z) : option (list Z) :=
  match bits with
  | [] => Some []
  | s :: d0 :: d1 :: d2 :: d3 :: d4 :: d5 :: d6 :: d7 :: p :: t :: rest =>
      if (s =? 0) && (t =? 1) && Z.odd (d0 + d1 + d2 + d3 + d4 + d5 + d6 + d7 + p)
      then match decode_frames rest with
           | Some bs => Some (value_lsb_first [d0; d1; d2; d3; d4; d5; d6; d7] :: bs)
           | None => None
           end
      else None
  | _ => None
  end.

Definition pin_state_eqb (a b : GPIO_PinState) : bool :=
  match a, b with
  | GPIO_PIN_RESET, GPIO_PIN_RESET | GPIO_PIN_SET, GPIO_PIN_SET => true
  | _, _ => false
  end.

(** The line levels a trace leaves behind. *)
Definition line_step (l : ps2_lines) (e : bus_event) : ps2_lines :=
  match e with
  | HAL_GPIO_WritePin PS2_CLK_Pin s => mkLines s (data_level l)
  | HAL_GPIO_WritePin PS2_DATA_Pin s => mkLines (clk_level l) s
  | BusyWait _ => l
  end.

Definition lines_after (l : ps2_lines) (tr : list bus_event) : ps2_lines :=
  fold_left line_step tr l.

(** The data line is never moved while the clock line is low. *)
Fixpoint data_steady_while_clock_low (l : ps2_lines) (tr : list bus_event) : bool :=
  match tr with
  | [] => true
  | e :: tr' =>
      match e with
      | HAL_GPIO_WritePin PS2_DATA_Pin s =>
          pin_state_eqb (clk_level l) GPIO_PIN_SET || pin_state_eqb s (data_level l)
      | _ => true
      end && data_steady_while_clock_low (line_step l e) tr'
  end.

(** Busy-wait iterations spent in a trace. *)
Definition busy_cycles (tr : list bus_event) : Z :=
  sumZ (map (fun e => match e with BusyWait c => c | _ => 0 end) tr).

(** The bytes [ps2_send_scancode] hands to [ps2_send_byte], in order. *)
Definition sent_bytes (sc : PS2_ScanCode_t) : list Z :=
  map (byte_at (data sc)) (seqZ 0 (sc_length sc)).

(** The bus activity of a run of bits. *)
Definition send_bits (vs : list Z) : list bus_event := concat (map ps2_send_bit vs).

Definition byte_bit_values (b : Z) : list Z :=
  [0] ++ map (fun bit_count => Z.land (Z.shiftr b bit_count) 1) (seqZ 0 8)
      ++ [ps2_parity b; 1].

(** *** keyboard_handler.c *)

Definition keyboard_handler_get_status (st : handler_state) : KeyboardHandlerStatus_t :=
  handler_status st.

Definition keyboard_is_key_pressed (keyboard_data : option USB_HID_KeyboardData_t)
    (key_code : Z) : Z :=
  match keyboard_data with
  | None => 0
  | Some d =>
      if existsb (fun i => byte_at (keys d) i =? key_code) (seqZ 0 (key_count d))
      then 1 else 0
  end.

Definition keyboard_is_modifier_pressed (keyboard_data : option USB_HID_KeyboardData_t)
    (modifier_mask : Z) : Z :=
  match keyboard_data with
  | None => 0
  | Some d => if Z.land (modifier d) modifier_mask =? 0 then 0 else 1
  end.

(** [keyboard_compare_states]: the third argument is overwritten. *)
Definition keyboard_compare_states (old_state new_state : USB_HID_KeyboardData_t)
  : USB_HID_KeyboardData_t :=
  mkKeyboardData (Z.lxor (modifier old_state) (modifier new_state)) 0
    (fold_left (fun ks i => <[Z.to_nat i := byte_at (keys new_state) i]> ks)
               (seqZ 0 (key_count new_state)) (replicate 6 0))
    (key_count new_state).

(** The key bytes of a report that stand for a pressed key. *)
Definition report_keys (report : list Z) : list Z :=
  filter (fun k => k <> 0 /\ k <> 1)
         (map (fun i => byte_at report (KEYBOARD_KEY_OFFSET + i)) (seqZ 0 KEYBOARD_MAX_KEYS)).

(** *** scancode_translator.c: the events of a difference *)

Definition scancode_translator_get_status (st : translator_state) : TranslatorStatus_t :=
  translator_status st.

(** The bytes of a make and of a break code, plain or extended. *)
Definition make_bytes (extended : bool) (code : Z) : list Z :=
  if extended then [PS2_EXTENDED_CODE_PREFIX; code] else [code].

Definition break_bytes (extended : bool) (code : Z) : list Z :=
  if extended then [PS2_EXTENDED_CODE_PREFIX; PS2_BREAK_CODE_PREFIX; code]
  else [PS2_BREAK_CODE_PREFIX; code].

(** The modifier bits with a scan code, in the order the translator visits
    them: mask, scan code, extended. *)
Definition modifier_codes : list (Z * Z * bool) :=
  [(USB_HID_MODIFIER_LEFT_CTRL, 0x14, false); (USB_HID_MODIFIER_LEFT_SHIFT, 0x12, false);
   (USB_HID_MODIFIER_LEFT_ALT, 0x11, false); (USB_HID_MODIFIER_RIGHT_SHIFT, 0x59, false);
   (USB_HID_MODIFIER_RIGHT_CTRL, 0x14, true); (USB_HID_MODIFIER_RIGHT_ALT, 0x11, true)].

Definition modifier_event (old_modifier new_modifier : Z) (m : Z * Z * bool)
  : list (list Z) :=
  let '(mask, code, extended) := m in
  if Z.land (Z.lxor old_modifier new_modifier) mask =? 0 then []
  else [if Z.land new_modifier mask =? 0 then break_bytes extended code
        else make_bytes extended code].

Definition modifier_event_list (old_modifier new_modifier : Z) : list (list Z) :=
  concat (map (modifier_event old_modifier new_modifier) modifier_codes).

Definition key_event (bytes_of : bool -> Z -> list Z)
    (from other : USB_HID_KeyboardData_t) (i : Z) : list (list Z) :=
  if is_key_in_array (byte_at (keys from) i) (keys other) (key_count other) then []
  else match find_ps2_scancode (byte_at (keys from) i) with
       | Some (code, ext) => [bytes_of (negb (ext =? 0)) code]
       | None => []
       end.

Definition key_event_list (bytes_of : bool -> Z -> list Z)
    (from other : USB_HID_KeyboardData_t) (idx : list Z) : list (list Z) :=
  concat (map (key_event bytes_of from other) idx).

(** All events of a difference, in order: modifiers, then releases, then
    presses. *)
Definition expected_events (last current : USB_HID_KeyboardData_t) : list (list Z) :=
  modifier_event_list (modifier last) (modifier current)
  ++ key_event_list break_bytes last current (seqZ 0 (key_count last))
  ++ key_event_list make_bytes current last (seqZ 0 (key_count current)).

(** Slot 0 of the local array is a four-byte scan code and, once events
    have been generated, holds the first of them. *)
Definition slot0_holds (b : translation_buffer) (evs : list (list Z)) : Prop :=
  exists sc, temp_scancodes b !! 0%nat = Some sc /\ scancode_wf sc /\
    match evs with
    | [] => True
    | e :: _ => scancode_bytes sc = e /\ sc_length sc = Z.of_nat (length e) /\
                (1 <= length e <= 3)%nat
    end.

(** A constructor call that turns any four-byte scan code into the bytes
    [e]. *)
Definition builds
    (create : option PS2_ScanCode_t -> PS2_ProtocolStatus_t * option PS2_ScanCode_t)
    (e : list Z) : Prop :=
  (1 <= length e <= 3)%nat /\
  forall sc, scancode_wf sc ->
    exists sc', snd (create (Some sc)) = Some sc' /\ scancode_wf sc' /\
      scancode_bytes sc' = e /\ sc_length sc' = Z.of_nat (length e).

(** The number of key events of a difference: releases and presses. *)
Definition regular_key_events (last current : USB_HID_KeyboardData_t) : Z :=
  key_events last current + key_events current last.

(** A snapshot as the handler produces them: six key slots, of which
    [key_count], at most six, are in use.  The loops over the keys of such a
    snapshot read inside its [keys] array. *)
Definition snapshot_in_range (d : USB_HID_KeyboardData_t) : Prop :=
  snapshot_wf d /\ 0 <= key_count d <= USB_HID_MAX_KEYS.

#[global] Instance snapshot_in_range_dec d : Decision (snapshot_in_range d).
Proof. unfold snapshot_in_range, snapshot_wf. apply _. Defined.

#[global] Instance writes_in_bounds_dec r : Decision (writes_in_bounds r).
Proof. unfold writes_in_bounds. apply _. Defined.

(** *** main.c: the data path of the main loop *)

(** The variables the data path of [main_application_loop] works on: those
    of the three modules, and the two locals of the loop, which keep their
    contents from one turn to the next. *)
Record converter_state := mkConverter {
  cv_handler : handler_state;
  cv_translator : translator_state;
  cv_ps2_status : PS2_Status_t;
  loop_usb_keyboard_data : USB_HID_KeyboardData_t;
  loop_ps2_scancode : PS2_ScanCode_t
}.

(** One turn of the loop, from [keyboard_handler_get_data] to
    [ps2_send_scancode].  The status LED, the status check, the USB host
    polling and the delay of the loop do not touch these variables and are
    left out.  [stack] is what the translator's local array holds on entry. *)
Definition main_loop_data_path (stack : list PS2_ScanCode_t) (s : converter_state)
  : converter_state * list bus_event :=
  let '(avail, d, h) :=
    keyboard_handler_get_data (cv_handler s) (Some (loop_usb_keyboard_data s)) in
  let usb_keyboard_data := default (loop_usb_keyboard_data s) d in
  match avail with
  | KEYBOARD_DATA_AVAILABLE =>
      let r := scancode_translator_usb_to_ps2 stack (cv_translator s)
                 (Some usb_keyboard_data) (Some (loop_ps2_scancode s)) in
      let ps2_scancode := default (loop_ps2_scancode s) (tr_scancode r) in
      match tr_ret r with
      | TRANSLATOR_OK =>
          let p := ps2_send_scancode (cv_ps2_status s) (Some ps2_scancode) in
          (mkConverter h (tr_state r) (ps2_status_after p) usb_keyboard_data ps2_scancode,
           ps2_trace p)
      | _ =>
          (mkConverter h (tr_state r) (cv_ps2_status s) usb_keyboard_data ps2_scancode, [])
      end
  | KEYBOARD_NO_DATA =>
      (mkConverter h (cv_translator s) (cv_ps2_status s) usb_keyboard_data
                   (loop_ps2_scancode s), [])
  end.

(** The state [main] reaches before it enters the loop: it runs [ps2_init]
    and [scancode_translator_init]; the keyboard handler is used as the C
    runtime leaves it. *)
Definition converter_at_start (d : USB_HID_KeyboardData_t) (sc : PS2_ScanCode_t)
  : converter_state :=
  mkConverter handler_at_reset
              (snd (scancode_translator_init translator_at_reset))
              (ps2_status_after (ps2_init ps2_status_at_reset))
              d sc.

(** A run of turns of the loop, with the stack area of each turn; the
    result lists the bus activity turn by turn. *)
Fixpoint main_loop_turns (stacks : list (list PS2_ScanCode_t)) (s : converter_state)
  : converter_state * list (list bus_event) :=
  match stacks with
  | [] => (s, [])
  | stack :: rest =>
      let '(s1, tr) := main_loop_data_path stack s in
      let '(s2, trs) := main_loop_turns rest s1 in
      (s2, tr :: trs)
  end.

(** The bytes each turn should put on the bus while the snapshots [ds] are
    taken from the queue one per turn, starting with [last] as the last
    translated snapshot: the first event of the difference, or nothing when
    there is no event or the difference has eight events or more (and then
    the next snapshot is compared with the same [last] again). *)
Fixpoint expected_turns (last : USB_HID_KeyboardData_t) (ds : list USB_HID_KeyboardData_t)
  : list (list Z) :=
  match ds with
  | [] => []
  | d :: ds' =>
      if diff_events last d <? MAX_TRANSLATION_BUFFER
      then List.hd [] (expected_events last d) :: expected_turns d ds'
      else [] :: expected_turns last ds'
  end.

(** In every turn of a run that finds a snapshot queued, the stores of the
    translation call stay inside [temp_scancodes]. *)
Fixpoint turns_in_bounds (stacks : list (list PS2_ScanCode_t)) (s : converter_state) : Prop :=
  match stacks with
  | [] => True
  | stack :: rest =>
      match queue_contents (cv_handler s) with
      | [] => True
      | oldest :: _ =>
          writes_in_bounds
            (scancode_translator_usb_to_ps2 stack (cv_translator s)
               (Some oldest) (Some (loop_ps2_scancode s)))
      end /\
      turns_in_bounds rest (fst (main_loop_data_path stack s))
  end.

#[global] Instance turns_in_bounds_dec stacks : forall s, Decision (turns_in_bounds stacks s).
Proof.
  induction stacks as [|stack rest IH]; intros s; cbn [turns_in_bounds]; [apply _|].
  destruct (queue_contents (cv_handler s)); apply _.
Defined.

(** The state of the data path between two turns: the queue is well
    formed and holds snapshots in range, translator and framer are ready, and
    the loop's scan code has its four bytes. *)
Definition converter_ready (s : converter_state) : Prop :=
  queue_wf (cv_handler s) /\
  Forall snapshot_in_range (queue_contents (cv_handler s)) /\
  translator_status (cv_translator s) = TRANSLATOR_READY /\
  snapshot_in_range (last_usb_state (cv_translator s)) /\
  cv_ps2_status s = PS2_READY /\
  scancode_wf (loop_ps2_scancode s).

(** *** usb_host_init.c: connection state and transfer errors *)

Inductive USB_HostStatus_t :=
| USB_HOST_INIT | USB_HOST_READY | USB_HOST_DEVICE_CONNECTED
| USB_HOST_DEVICE_ENUMERATED | USB_HOST_ERROR.

#[global] Instance USB_HostStatus_eq_dec : EqDecision USB_HostStatus_t.
Proof. solve_decision. Defined.

Inductive HCD_URBStateTypeDef :=
| URB_IDLE | URB_DONE | URB_NOTREADY | URB_NYET | URB_ERROR | URB_STALL.

#[global] Instance HCD_URBState_eq_dec : EqDecision HCD_URBStateTypeDef.
Proof. solve_decision. Defined.


Definition USB_HOST_MAX_RETRY_COUNT : Z := 3.

(** The file-scope variables [usb_host_status], [device_connected] and
    [retry_count], and the function-scope static [last_check_time] of
    [usb_host_process]. *)
Record usb_host_state := mkUsbHost {
  usb_host_status : USB_HostStatus_t;
  device_connected : Z;
  retry_count : Z;
  last_check_time : Z
}.

Definition usb_host_at_reset : usb_host_state := mkUsbHost USB_HOST_INIT 0 0 0.

Definition usb_host_get_status (st : usb_host_state) : USB_HostStatus_t := usb_host_status st.
Definition usb_host_device_connected (st : usb_host_state) : Z := device_connected st.


Definition usb_host_urb_change_callback (st : usb_host_state)
    (urb_state : HCD_URBStateTypeDef) : usb_host_state :=
  match urb_state with
  | URB_DONE => st
  | URB_ERROR =>
      if retry_count st <? USB_HOST_MAX_RETRY_COUNT
      then mkUsbHost (usb_host_status st) (device_connected st)
                     (u32 (retry_count st + 1)) (last_check_time st)
      else mkUsbHost USB_HOST_ERROR (device_connected st) 0 (last_check_time st)
  | URB_STALL =>
      mkUsbHost USB_HOST_ERROR (device_connected st) (retry_count st) (last_check_time st)
  | _ => st
  end.

Definition HAL_HCD_Connect_Callback (st : usb_host_state) : usb_host_state :=
  mkUsbHost USB_HOST_DEVICE_CONNECTED 1 0 (last_check_time st).






(** The number of [URB_ERROR] notifications in a run of URB states. *)
Definition urb_errors (urbs : list HCD_URBStateTypeDef) : Z :=
  Z.of_nat (length (filter (fun u => u = URB_ERROR) urbs)).

(** *** main.c: the application state *)

Inductive AppState_t :=
| APP_STATE_INIT | APP_STATE_USB_INIT | APP_STATE_PS2_INIT
| APP_STATE_READY | APP_STATE_RUNNING | APP_STATE_ERROR.

#[global] Instance AppState_eq_dec : EqDecision AppState_t.
Proof. solve_decision. Defined.

(** [system_status_check], with the module variables it consults. *)
Definition system_status_check (app_state : AppState_t)
    (usb : usb_host_state) (ps2_status : PS2_Status_t) : AppState_t :=
  if decide (usb_host_get_status usb = USB_HOST_ERROR) then APP_STATE_ERROR
  else if decide (ps2_get_status ps2_status = PS2_ERROR) then APP_STATE_ERROR
  else if bool_decide (app_state = APP_STATE_READY)
          && negb (usb_host_device_connected usb =? 0)
  then APP_STATE_RUNNING
  else if bool_decide (app_state = APP_STATE_RUNNING)
          && (usb_host_device_connected usb =? 0)
  then APP_STATE_READY
  else app_state.

(** * Properties *)

(** Closed instances of decidable side conditions are settled by
    evaluation. *)
Ltac evaluate := apply (bool_decide_unpack _); vm_compute; exact I.

(** ** The framer *)

Section Framer.

Lemma shiftr_land_1 (b i : Z) :
  0 <= i -> Z.land (Z.shiftr b i) 1 = Z.b2z (Z.testbit b i).
Proof.
  intros Hi.
  change 1 with (Z.ones 1).
  rewrite Z.land_ones by lia.
  rewrite Z.shiftr_div_pow2 by lia.
  rewrite Z.testbit_spec' by lia.
  reflexivity.
Qed.

Lemma land_shiftl_1_eqb (b i : Z) :
  0 <= i -> (Z.land b (Z.shiftl 1 i) =? 0) = negb (Z.testbit b i).
Proof.
  intros Hi.
  rewrite Z.shiftl_1_l.
  destruct (Z.testbit b i) eqn:Hb; simpl.
  - apply Z.eqb_neq. intros H0.
    assert (Z.testbit (Z.land b (2 ^ i)) i = true) as Ht.
    { rewrite Z.land_spec, Hb, Z.pow2_bits_true by lia. reflexivity. }
    rewrite H0, Z.bits_0 in Ht. discriminate.
  - apply Z.eqb_eq. apply Z.bits_inj'. intros n Hn.
    rewrite Z.land_spec, Z.bits_0, Z.pow2_bits_eqb by lia.
    destruct (Z.eqb_spec i n) as [->|]; [rewrite Hb; reflexivity | apply andb_false_r].
Qed.

Lemma ps2_parity_bits (b : Z) :
  ps2_parity b =
  Z.b2z (negb (fold_right xorb false (map (Z.testbit b) (seqZ 0 8)))).
Proof.
  unfold ps2_parity, parity_step.
  change (seqZ 0 8) with [0; 1; 2; 3; 4; 5; 6; 7].
  cbn [fold_left map fold_right].
  rewrite !land_shiftl_1_eqb by lia.
  destruct (Z.testbit b 0), (Z.testbit b 1), (Z.testbit b 2), (Z.testbit b 3),
    (Z.testbit b 4), (Z.testbit b 5), (Z.testbit b 6), (Z.testbit b 7); reflexivity.
Qed.

Lemma sample_send_bit (l : ps2_lines) (v : Z) (tr : list bus_event) :
  clk_level l = GPIO_PIN_SET ->
  sample_falling_edges l (ps2_send_bit v ++ tr) =
  (if v =? 0 then 0 else 1)
    :: sample_falling_edges
         (mkLines GPIO_PIN_SET (if v =? 0 then GPIO_PIN_RESET else GPIO_PIN_SET)) tr.
Proof.
  intros Hclk. destruct l as [c d]. simpl in Hclk. subst c.
  cbn. destruct (v =? 0); reflexivity.
Qed.

Lemma sample_send_b2z (l : ps2_lines) (x : bool) (tr : list bus_event) :
  clk_level l = GPIO_PIN_SET ->
  exists l', clk_level l' = GPIO_PIN_SET /\
    sample_falling_edges l (ps2_send_bit (Z.b2z x) ++ tr) =
    Z.b2z x :: sample_falling_edges l' tr.
Proof.
  intros Hclk. rewrite sample_send_bit by assumption.
  destruct x; cbn [Z.b2z Z.eqb]; eexists; (split; [|reflexivity]); reflexivity.
Qed.

Lemma sample_data_bits (b : Z) (idx : list Z) (l : ps2_lines) (tr : list bus_event) :
  Forall (fun i => 0 <= i) idx ->
  clk_level l = GPIO_PIN_SET ->
  exists l', clk_level l' = GPIO_PIN_SET /\
    sample_falling_edges l
      (concat (map (fun bit_count => ps2_send_bit (Z.land (Z.shiftr b bit_count) 1)) idx) ++ tr)
    = map (fun i => Z.b2z (Z.testbit b i)) idx ++ sample_falling_edges l' tr.
Proof.
  intros Hidx. revert l.
  induction Hidx as [|i idx Hi _ IH]; intros l Hclk.
  - exists l. split; [assumption | reflexivity].
  - cbn [map concat]. rewrite <- app_assoc, shiftr_land_1 by assumption.
    destruct (sample_send_b2z l (Z.testbit b i)
                (concat (map (fun bit_count => ps2_send_bit (Z.land (Z.shiftr b bit_count) 1)) idx)
                 ++ tr) Hclk) as (l1 & Hl1 & ->).
    destruct (IH l1 Hl1) as (l2 & Hl2 & ->).
    exists l2. split; [assumption | reflexivity].
Qed.

Lemma byte_bits_value (b : Z) :
  0 <= b < 256 -> value_lsb_first (data_bits_lsb_first b) = b.
Proof.
  intros Hb. unfold data_bits_lsb_first, value_lsb_first.
  change (seqZ 0 8) with [0; 1; 2; 3; 4; 5; 6; 7].
  cbn [map fold_right].
  rewrite !Z.testbit_spec' by lia.
  change (2 ^ 0) with 1; change (2 ^ 1) with 2; change (2 ^ 2) with 4;
    change (2 ^ 3) with 8; change (2 ^ 4) with 16; change (2 ^ 5) with 32;
    change (2 ^ 6) with 64; change (2 ^ 7) with 128.
  Z.div_mod_to_equations. lia.
Qed.

Lemma odd_parity_total (x0 x1 x2 x3 x4 x5 x6 x7 : bool) :
  Z.odd (sumZ (map Z.b2z [x0; x1; x2; x3; x4; x5; x6; x7])
         + Z.b2z (negb (fold_right xorb false [x0; x1; x2; x3; x4; x5; x6; x7]))) = true.
Proof. destruct x0, x1, x2, x3, x4, x5, x6, x7; reflexivity. Qed.

(** C1. For every byte [b], the bits a receiver samples from the bus
    activity of [ps2_send_byte b] are exactly: the start bit 0, the eight
    data bits of [b] least significant first, a parity bit, the stop bit 1;
    the parity bit is 0 or 1 and makes the number of 1-bits among the data
    bits and the parity bit odd.  The call returns [PS2_OK]. *)
Theorem ps2_send_byte_frame (b : Z) :
  0 <= b < 256 ->
  fst (ps2_send_byte b) = PS2_OK /\
  sample_falling_edges lines_idle (snd (ps2_send_byte b)) =
    [0] ++ data_bits_lsb_first b ++ [ps2_parity b; 1] /\
  value_lsb_first (data_bits_lsb_first b) = b /\
  (ps2_parity b = 0 \/ ps2_parity b = 1) /\
  Z.odd (sumZ (data_bits_lsb_first b) + ps2_parity b) = true.
Proof.
  intros Hb. split; [reflexivity|]. split; [|split; [|split]].
  - unfold ps2_send_byte. cbn [snd].
    rewrite sample_send_bit by reflexivity. cbn [Z.eqb app]. f_equal.
    edestruct (sample_data_bits b (seqZ 0 8)) as (l1 & Hl1 & ->); [| reflexivity |].
    { apply Forall_forall. intros i Hi. apply elem_of_seqZ in Hi. lia. }
    unfold data_bits_lsb_first. f_equal.
    rewrite ps2_parity_bits.
    edestruct (sample_send_b2z l1) as (l2 & Hl2 & ->); [assumption|]. f_equal.
    rewrite <- (app_nil_r (ps2_send_bit 1)).
    rewrite sample_send_bit by assumption. reflexivity.
  - apply byte_bits_value, Hb.
  - rewrite ps2_parity_bits. destruct (negb _); auto.
  - rewrite ps2_parity_bits. unfold data_bits_lsb_first.
    change (seqZ 0 8) with [0; 1; 2; 3; 4; 5; 6; 7]. cbn [map].
    apply (odd_parity_total (Z.testbit b 0) (Z.testbit b 1) (Z.testbit b 2) (Z.testbit b 3)
             (Z.testbit b 4) (Z.testbit b 5) (Z.testbit b 6) (Z.testbit b 7)).
Qed.

End Framer.

Section FramerGuards.

Lemma send_scancode_bytes_nil (sc : PS2_ScanCode_t) :
  send_scancode_bytes sc [] = (true, []).
Proof. reflexivity. Qed.

(** C4 (amended). A call of [ps2_send_scancode] made while the framer is
    not ready (in particular before [ps2_init] has run), or with a null
    sequence, or with a zero-length sequence, performs no bus activity.  In
    the first two cases it returns [PS2_ERROR] and leaves [ps2_status] as it
    was; a zero-length sequence handed to a ready framer is accepted: the
    call returns [PS2_OK] and the framer stays ready. *)
Theorem ps2_send_scancode_guards
    (ps2_status : PS2_Status_t) (scancode : option PS2_ScanCode_t) :
  (scancode = None \/ ps2_status <> PS2_READY \/
   exists sc, scancode = Some sc /\ sc_length sc = 0) ->
  let r := ps2_send_scancode ps2_status scancode in
  ps2_trace r = [] /\
  (scancode = None \/ ps2_status <> PS2_READY ->
   ps2_ret r = PS2_ERROR /\ ps2_status_after r = ps2_status) /\
  (ps2_status = PS2_READY -> scancode <> None ->
   ps2_ret r = PS2_OK /\ ps2_status_after r = PS2_READY).
Proof.
  intros Hcase. unfold ps2_send_scancode.
  destruct scancode as [sc|].
  - destruct (decide (ps2_status = PS2_READY)) as [Hready|Hnot].
    + destruct Hcase as [Hnull | [Hnot | (sc' & Hsc & Hlen)]];
        [discriminate | contradiction |].
      injection Hsc as <-. rewrite Hlen.
      change (seqZ 0 0) with (@nil Z). rewrite send_scancode_bytes_nil. cbn.
      split; [reflexivity|]. split; [|auto].
      intros [Hnull | Hnot]; [discriminate | contradiction].
    + cbn. split; [reflexivity|]. split; [auto|]. intros Hready. contradiction.
  - cbn. split; [reflexivity|]. split; [auto|]. intros _ Hnn. contradiction.
Qed.

Lemma ps2_send_scancode_guards_witness :
  ps2_trace (ps2_send_scancode ps2_status_at_reset (Some (mkScanCode [0x1C; 0; 0; 0] 1))) = [] /\
  ps2_trace (ps2_send_scancode PS2_READY None) = [] /\
  ps2_trace (ps2_send_scancode PS2_READY (Some (mkScanCode [0; 0; 0; 0] 0))) = [].
Proof.
  split; [|split].
  - apply (ps2_send_scancode_guards ps2_status_at_reset (Some (mkScanCode [0x1C; 0; 0; 0] 1))).
    right. left. discriminate.
  - apply (ps2_send_scancode_guards PS2_READY None). left. reflexivity.
  - apply (ps2_send_scancode_guards PS2_READY (Some (mkScanCode [0; 0; 0; 0] 0))).
    right. right. eexists. split; reflexivity.
Defined.

(** C4, as stated, fails for a zero-length sequence: on a ready framer the
    call succeeds. *)
Lemma ps2_send_scancode_zero_length_succeeds :
  let r := ps2_send_scancode PS2_READY (Some (mkScanCode [0; 0; 0; 0] 0)) in
  ps2_ret r = PS2_OK /\ ps2_ret r <> PS2_ERROR /\ ps2_trace r = [].
Proof. cbn. split; [reflexivity|]. split; [discriminate | reflexivity]. Qed.

Lemma ps2_send_byte_frame_witness :
  0 <= 0x1C < 256 /\
  sample_falling_edges lines_idle (snd (ps2_send_byte 0x1C)) =
    [0] ++ data_bits_lsb_first 0x1C ++ [ps2_parity 0x1C; 1].
Proof.
  split; [lia|]. apply (ps2_send_byte_frame 0x1C). lia.
Defined.

End FramerGuards.

(** ** Capture and queue *)

Section Capture.

Implicit Types (st : handler_state) (d : USB_HID_KeyboardData_t) (r : list Z).

Lemma memcmp_same (a : list Z) : memcmp a a = 0.
Proof. induction a as [|x a IH]; cbn; [|rewrite Z.eqb_refl]; auto. Qed.

Lemma memcmp_zero_eq (a b : list Z) :
  length a = length b -> memcmp a b = 0 -> a = b.
Proof.
  revert b. induction a as [|x a IH]; intros [|y b] Hlen Hcmp;
    try discriminate; [reflexivity|].
  cbn in Hcmp. destruct (Z.eqb_spec x y) as [->|Hne].
  - f_equal. apply IH; [cbn in Hlen; lia | assumption].
  - lia.
Qed.

Lemma keyboard_data_bytes_length d : length (keyboard_data_bytes d) = 9%nat.
Proof. reflexivity. Qed.

Lemma keyboard_data_bytes_inj d1 d2 :
  snapshot_wf d1 -> snapshot_wf d2 ->
  keyboard_data_bytes d1 = keyboard_data_bytes d2 -> d1 = d2.
Proof.
  destruct d1 as [m1 r1 k1 c1], d2 as [m2 r2 k2 c2].
  unfold snapshot_wf. cbn [keys]. intros H1 H2.
  destruct k1 as [|a0 [|a1 [|a2 [|a3 [|a4 [|a5 [|]]]]]]]; try discriminate.
  destruct k2 as [|b0 [|b1 [|b2 [|b3 [|b4 [|b5 [|]]]]]]]; try discriminate.
  intros Heq. vm_compute in Heq.
  injection Heq as -> -> -> -> -> -> -> -> ->. reflexivity.
Qed.

(** [memcmp] on two snapshots is 0 exactly when they are equal. *)
Lemma memcmp_snapshots d1 d2 :
  snapshot_wf d1 -> snapshot_wf d2 ->
  (memcmp (keyboard_data_bytes d1) (keyboard_data_bytes d2) =? 0) = bool_decide (d1 = d2).
Proof.
  intros H1 H2. case_bool_decide as Heq.
  - subst. rewrite memcmp_same. reflexivity.
  - apply Z.eqb_neq. intros Hcmp. apply Heq.
    apply keyboard_data_bytes_inj; [assumption..|].
    apply memcmp_zero_eq; [reflexivity | assumption].
Qed.

Lemma parse_key_wf r d i : snapshot_wf d -> snapshot_wf (parse_key r d i).
Proof.
  unfold snapshot_wf, parse_key. intros Hd.
  destruct (_ && _); cbn; [rewrite length_insert|]; assumption.
Qed.

Lemma keyboard_parse_hid_report_wf r : snapshot_wf (keyboard_parse_hid_report r).
Proof.
  unfold keyboard_parse_hid_report.
  generalize (seqZ 0 KEYBOARD_MAX_KEYS).
  assert (snapshot_wf (mkKeyboardData (byte_at r KEYBOARD_MODIFIER_OFFSET) 0 (replicate 6 0) 0))
    as Hinit by reflexivity.
  revert Hinit.
  generalize (mkKeyboardData (byte_at r KEYBOARD_MODIFIER_OFFSET) 0 (replicate 6 0) 0).
  intros d Hd idx. revert d Hd.
  induction idx as [|i idx IH]; intros d Hd; cbn; [assumption|].
  apply IH, parse_key_wf, Hd.
Qed.

(** *** The ring buffer as a FIFO *)

Lemma u8_small (z : Z) : 0 <= z < 256 -> u8 z = z.
Proof. intros Hz. unfold u8. apply Z.mod_small. lia. Qed.

Lemma keyboard_buffer_put_full st d :
  keyboard_buffer_is_full st = true -> keyboard_buffer_put st d = st.
Proof. intros Hfull. unfold keyboard_buffer_put. rewrite Hfull. reflexivity. Qed.

Lemma is_full_false st :
  buffer_count st < KEYBOARD_BUFFER_SIZE -> keyboard_buffer_is_full st = false.
Proof. unfold keyboard_buffer_is_full, KEYBOARD_BUFFER_SIZE. lia. Qed.

Lemma is_full_true st :
  KEYBOARD_BUFFER_SIZE <= buffer_count st -> keyboard_buffer_is_full st = true.
Proof. unfold keyboard_buffer_is_full, KEYBOARD_BUFFER_SIZE. lia. Qed.

Lemma keyboard_buffer_put_wf st d :
  queue_wf st -> queue_wf (keyboard_buffer_put st d).
Proof.
  intros (Hlen & Htail & Hcount & Hhead). unfold keyboard_buffer_put.
  destruct (keyboard_buffer_is_full st) eqn:Hfull; cbn [negb].
  - unfold queue_wf; auto.
  - unfold keyboard_buffer_is_full, KEYBOARD_BUFFER_SIZE in *.
    unfold queue_wf, KEYBOARD_BUFFER_SIZE. cbn.
    rewrite length_insert, u8_small by lia.
    repeat split; try lia. rewrite Hhead. Z.div_mod_to_equations. lia.
Qed.

Lemma keyboard_buffer_put_contents st d :
  queue_wf st -> buffer_count st < KEYBOARD_BUFFER_SIZE ->
  queue_contents (keyboard_buffer_put st d) = queue_contents st ++ [d].
Proof.
  intros (Hlen & Htail & Hcount & Hhead) Hroom.
  unfold keyboard_buffer_put. rewrite is_full_false by assumption. cbn [negb].
  unfold queue_contents, KEYBOARD_BUFFER_SIZE in *. cbn.
  rewrite u8_small by lia.
  rewrite seqZ_app by lia. rewrite map_app. f_equal.
  - apply map_ext_in. intros k Hk.
    apply list_elem_of_In, elem_of_seqZ in Hk.
    apply list_lookup_total_insert_ne.
    rewrite Hhead. intros Heq. apply Z2Nat.inj in Heq;
      [| apply Z.mod_pos_bound; lia | apply Z.mod_pos_bound; lia].
    revert Heq. Z.div_mod_to_equations. lia.
  - change (seqZ (0 + buffer_count st) 1) with [0 + buffer_count st]. cbn [map].
    f_equal. rewrite Z.add_0_l, <- Hhead.
    apply list_lookup_total_insert_eq.
    rewrite Hlen, Hhead.
    assert (0 <= (buffer_tail st + buffer_count st) mod 16 < 16) by (apply Z.mod_pos_bound; lia).
    lia.
Qed.

Lemma keyboard_buffer_get_wf st d :
  queue_wf st -> queue_wf (snd (keyboard_buffer_get st d)).
Proof.
  intros (Hlen & Htail & Hcount & Hhead). unfold keyboard_buffer_get.
  destruct (keyboard_buffer_is_empty st) eqn:Hempty; cbn [negb snd].
  - unfold queue_wf; auto.
  - unfold keyboard_buffer_is_empty, KEYBOARD_BUFFER_SIZE in *.
    unfold queue_wf, KEYBOARD_BUFFER_SIZE. cbn.
    rewrite u8_small by lia.
    repeat split; try lia; try (apply Z.mod_pos_bound; lia).
    rewrite Hhead. Z.div_mod_to_equations. lia.
Qed.

Lemma keyboard_buffer_get_contents st d d0 q :
  queue_wf st -> queue_contents st = d0 :: q ->
  fst (keyboard_buffer_get st d) = d0 /\
  queue_contents (snd (keyboard_buffer_get st d)) = q /\
  buffer_count (snd (keyboard_buffer_get st d)) = buffer_count st - 1.
Proof.
  intros (Hlen & Htail & Hcount & Hhead) Hq.
  unfold queue_contents, KEYBOARD_BUFFER_SIZE in *.
  assert (0 < buffer_count st) as Hpos.
  { destruct (Z.eq_dec (buffer_count st) 0) as [H0|]; [|lia].
    rewrite H0 in Hq. discriminate. }
  unfold keyboard_buffer_get, keyboard_buffer_is_empty.
  destruct (Z.eqb_spec (buffer_count st) 0) as [|_]; [lia|]. cbn [negb fst snd].
  cbn [keyboard_buffer buffer_tail buffer_count].
  rewrite u8_small by lia.
  replace (buffer_count st) with (1 + (buffer_count st - 1)) in Hq by lia.
  rewrite seqZ_app in Hq by lia.
  change (seqZ 0 1) with [0] in Hq. cbn [app map] in Hq.
  injection Hq as Hd0 Hrest.
  rewrite Z.add_0_r, Z.mod_small in Hd0 by lia.
  split; [assumption|]. split; [|reflexivity].
  rewrite <- Hrest. unfold KEYBOARD_BUFFER_SIZE.
  change (0 + 1) with (1 + 0). rewrite <- (fmap_add_seqZ 1 0).
  change (@fmap list _ Z Z) with (@map Z Z). rewrite map_map.
  apply map_ext. intros k. do 2 f_equal.
  Z.div_mod_to_equations. lia.
Qed.

(** *** [keyboard_handler_process_report] *)

(** C7. A report that parses to the snapshot captured last is accepted
    ([KEYBOARD_HANDLER_OK]) and changes nothing: the handler's variables,
    and with them the contents of the queue, are what they were. *)
Theorem process_report_same_snapshot st r :
  keyboard_parse_hid_report r = last_keyboard_state st ->
  keyboard_handler_process_report st (Some r) KEYBOARD_REPORT_SIZE = (KEYBOARD_HANDLER_OK, st) /\
  queue_contents (snd (keyboard_handler_process_report st (Some r) KEYBOARD_REPORT_SIZE))
    = queue_contents st.
Proof.
  intros Hsame.
  assert (keyboard_handler_process_report st (Some r) KEYBOARD_REPORT_SIZE
          = (KEYBOARD_HANDLER_OK, st)) as Heq.
  { unfold keyboard_handler_process_report.
    rewrite Z.eqb_refl. cbn [negb]. rewrite Hsame, memcmp_same. reflexivity. }
  rewrite Heq. split; reflexivity.
Qed.

Lemma process_report_same_snapshot_witness :
  keyboard_handler_process_report handler_at_reset (Some [0; 0; 0; 0; 0; 0; 0; 0])
    KEYBOARD_REPORT_SIZE = (KEYBOARD_HANDLER_OK, handler_at_reset).
Proof.
  apply (process_report_same_snapshot handler_at_reset [0; 0; 0; 0; 0; 0; 0; 0]).
  reflexivity.
Defined.

Lemma process_report_new st r :
  queue_wf st -> snapshot_wf (last_keyboard_state st) ->
  keyboard_parse_hid_report r <> last_keyboard_state st ->
  buffer_count st < KEYBOARD_BUFFER_SIZE ->
  exists st',
    keyboard_handler_process_report st (Some r) KEYBOARD_REPORT_SIZE = (KEYBOARD_HANDLER_OK, st') /\
    queue_contents st' = queue_contents st ++ [keyboard_parse_hid_report r] /\
    last_keyboard_state st' = keyboard_parse_hid_report r /\
    queue_wf st' /\
    buffer_count st' = buffer_count st + 1.
Proof.
  intros Hwf Hlast Hnew Hroom.
  unfold keyboard_handler_process_report.
  rewrite Z.eqb_refl. cbn [negb].
  rewrite memcmp_snapshots by (apply keyboard_parse_hid_report_wf || assumption).
  rewrite bool_decide_eq_false_2 by assumption. cbn [negb].
  rewrite is_full_false by assumption. cbn [negb].
  eexists. split; [reflexivity|].
  pose proof (keyboard_buffer_put_contents st (keyboard_parse_hid_report r) Hwf Hroom) as Hq.
  pose proof (keyboard_buffer_put_wf st (keyboard_parse_hid_report r) Hwf) as Hwf'.
  split; [exact Hq|]. split; [reflexivity|]. split; [exact Hwf'|].
  cbn [buffer_count]. unfold keyboard_buffer_put.
  rewrite is_full_false by assumption. cbn.
  destruct Hwf as (_ & _ & Hcount & _). unfold KEYBOARD_BUFFER_SIZE in *.
  apply u8_small. lia.
Qed.

Lemma process_report_full st r :
  snapshot_wf (last_keyboard_state st) ->
  keyboard_parse_hid_report r <> last_keyboard_state st ->
  KEYBOARD_BUFFER_SIZE <= buffer_count st ->
  keyboard_handler_process_report st (Some r) KEYBOARD_REPORT_SIZE
    = (KEYBOARD_HANDLER_BUFFER_FULL, st).
Proof.
  intros Hlast Hnew Hfull.
  unfold keyboard_handler_process_report.
  rewrite Z.eqb_refl. cbn [negb].
  rewrite memcmp_snapshots by (apply keyboard_parse_hid_report_wf || assumption).
  rewrite bool_decide_eq_false_2 by assumption. cbn [negb].
  rewrite is_full_true by assumption. reflexivity.
Qed.

Lemma last_cons_default {A} (a d : A) (l : list A) :
  List.last (a :: l) d = List.last l a.
Proof.
  revert a d. induction l as [|x l IH]; intros a d; [reflexivity|].
  change (List.last (a :: x :: l) d) with (List.last (x :: l) d).
  rewrite (IH x d), (IH x a). reflexivity.
Qed.

Lemma process_reports_each_differs rs : forall st,
  queue_wf st -> snapshot_wf (last_keyboard_state st) ->
  each_differs (last_keyboard_state st) rs ->
  buffer_count st + Z.of_nat (length rs) <= KEYBOARD_BUFFER_SIZE ->
  let st' := snd (process_reports st rs) in
  fst (process_reports st rs) = replicate (length rs) KEYBOARD_HANDLER_OK /\
  queue_contents st' = queue_contents st ++ map keyboard_parse_hid_report rs /\
  queue_wf st' /\
  buffer_count st' = buffer_count st + Z.of_nat (length rs) /\
  last_keyboard_state st'
    = List.last (map keyboard_parse_hid_report rs) (last_keyboard_state st) /\
  (forall r, each_differs (last_keyboard_state st) (rs ++ [r]) ->
             keyboard_parse_hid_report r <> last_keyboard_state st') /\
  snapshot_wf (last_keyboard_state st').
Proof.
  induction rs as [|r rs IH]; intros st Hwf Hlast Hdiff Hroom.
  - cbn. rewrite app_nil_r.
    split; [reflexivity|]. split; [reflexivity|]. split; [exact Hwf|].
    split; [lia|]. split; [reflexivity|]. split; [|exact Hlast].
    intros r [Hr _]. exact Hr.
  - cbn [length] in Hroom. destruct Hdiff as [Hr Hdiff].
    destruct (process_report_new st r Hwf Hlast Hr ltac:(lia))
      as (st1 & Hstep & Hq1 & Hlast1 & Hwf1 & Hcount1).
    cbn [process_reports]. rewrite Hstep.
    rewrite <- Hlast1 in Hdiff.
    assert (snapshot_wf (last_keyboard_state st1)) as Hlastwf1
      by (rewrite Hlast1; apply keyboard_parse_hid_report_wf).
    specialize (IH st1 Hwf1 Hlastwf1 Hdiff ltac:(lia)).
    destruct (process_reports st1 rs) as [ss st2]. cbn [fst snd] in *.
    destruct IH as (Hss & Hq2 & Hwf2 & Hcount2 & Hl2 & Hnext & Hlast2).
    split; [cbn; f_equal; exact Hss|].
    split; [rewrite Hq2, Hq1, <- app_assoc; reflexivity|].
    split; [exact Hwf2|]. split; [cbn [length]; lia|].
    split; [cbn [map]; rewrite last_cons_default, Hl2, Hlast1; reflexivity|].
    split; [|exact Hlast2].
    intros r' [_ Hr']. apply Hnext. rewrite Hlast1. exact Hr'.
Qed.

Lemma dequeue_n_contents n : forall st,
  queue_wf st -> (n <= length (queue_contents st))%nat ->
  fst (dequeue_n n st)
  = map (fun d => (KEYBOARD_DATA_AVAILABLE, Some d)) (take n (queue_contents st)).
Proof.
  induction n as [|n IH]; intros st Hwf Hn; [reflexivity|].
  destruct (queue_contents st) as [|d0 q] eqn:Hq; [cbn in Hn; lia|].
  destruct (keyboard_buffer_get_contents st keyboard_data_zero d0 q Hwf Hq)
    as (Hget & Hq' & Hcount').
  pose proof (keyboard_buffer_get_wf st keyboard_data_zero Hwf) as Hwf'.
  cbn [dequeue_n]. unfold keyboard_handler_get_data.
  assert (keyboard_buffer_is_empty st = false) as Hne.
  { unfold keyboard_buffer_is_empty. apply Z.eqb_neq. intros H0.
    unfold queue_contents in Hq. rewrite H0 in Hq. discriminate. }
  rewrite Hne.
  destruct (keyboard_buffer_get st keyboard_data_zero) as [d' st1]. cbn [fst snd] in *.
  specialize (IH st1 Hwf'). rewrite Hq' in IH. cbn [length] in Hn.
  specialize (IH ltac:(lia)).
  destruct (dequeue_n n st1) as [ds st2]. cbn [fst] in *.
  subst d'. rewrite IH. reflexivity.
Qed.

Lemma queue_contents_empty st : buffer_count st = 0 -> queue_contents st = [].
Proof. intros H0. unfold queue_contents. rewrite H0. reflexivity. Qed.

(** C5. Start from an empty queue and feed sixteen reports, each parsing to
    a snapshot different from the one captured before it: all sixteen are
    accepted.  A seventeenth report that differs again is answered with
    [KEYBOARD_HANDLER_BUFFER_FULL] and changes none of the handler's
    variables (nothing is dropped, the snapshot captured last stays the
    sixteenth).  The sixteen dequeues that follow each find data and return
    the first sixteen snapshots in the order they arrived. *)
Theorem queue_full_rejects_seventeenth st (rs : list (list Z)) (r17 : list Z) :
  queue_wf st -> snapshot_wf (last_keyboard_state st) ->
  buffer_count st = 0 ->
  length rs = 16%nat ->
  each_differs (last_keyboard_state st) (rs ++ [r17]) ->
  let st16 := snd (process_reports st rs) in
  let '(ret17, st17) := keyboard_handler_process_report st16 (Some r17) KEYBOARD_REPORT_SIZE in
  fst (process_reports st rs) = replicate 16 KEYBOARD_HANDLER_OK /\
  ret17 = KEYBOARD_HANDLER_BUFFER_FULL /\
  st17 = st16 /\
  last_keyboard_state st17
    = List.last (map keyboard_parse_hid_report rs) (last_keyboard_state st) /\
  queue_contents st17 = map keyboard_parse_hid_report rs /\
  fst (dequeue_n 16 st17)
  = map (fun r => (KEYBOARD_DATA_AVAILABLE, Some (keyboard_parse_hid_report r))) rs.
Proof.
  intros Hwf Hlast Hempty Hlen Hdiff.
  assert (each_differs (last_keyboard_state st) rs) as Hdiff16.
  { clear -Hdiff. revert Hdiff. generalize (last_keyboard_state st).
    induction rs as [|r rs IH]; intros l; [intros _; exact I|].
    cbn. intros [Hr Hrest]. split; [exact Hr | apply IH, Hrest]. }
  destruct (process_reports_each_differs rs st Hwf Hlast Hdiff16)
    as (Hss & Hq & Hwf16 & Hcount16 & Hl16 & Hnext & Hlast16).
  { rewrite Hempty, Hlen. unfold KEYBOARD_BUFFER_SIZE. lia. }
  cbn zeta.
  rewrite process_report_full;
    [| exact Hlast16 | apply Hnext, Hdiff
     | rewrite Hcount16, Hempty, Hlen; unfold KEYBOARD_BUFFER_SIZE; lia].
  rewrite (queue_contents_empty st Hempty) in Hq. cbn [app] in Hq.
  split; [rewrite Hss, Hlen; reflexivity|].
  split; [reflexivity|]. split; [reflexivity|].
  split; [exact Hl16|].
  split; [exact Hq|].
  rewrite dequeue_n_contents; [| exact Hwf16 | rewrite Hq, length_map; lia].
  rewrite Hq, firstn_all2 by (rewrite length_map; lia).
  rewrite map_map. reflexivity.
Qed.

Lemma queue_full_rejects_seventeenth_witness :
  let st := snd (keyboard_handler_init handler_at_reset) in
  let rs := map (fun k => [0; 0; k; 0; 0; 0; 0; 0]) (seqZ 4 16) in
  let r17 := [0; 0; 20; 0; 0; 0; 0; 0] in
  let st16 := snd (process_reports st rs) in
  let '(ret17, st17) := keyboard_handler_process_report st16 (Some r17) KEYBOARD_REPORT_SIZE in
  fst (process_reports st rs) = replicate 16 KEYBOARD_HANDLER_OK /\
  ret17 = KEYBOARD_HANDLER_BUFFER_FULL /\
  st17 = st16 /\
  last_keyboard_state st17
    = List.last (map keyboard_parse_hid_report rs) (last_keyboard_state st) /\
  queue_contents st17 = map keyboard_parse_hid_report rs /\
  fst (dequeue_n 16 st17)
  = map (fun r => (KEYBOARD_DATA_AVAILABLE, Some (keyboard_parse_hid_report r))) rs.
Proof.
  intros st rs r17.
  apply (queue_full_rejects_seventeenth st rs r17).
  - unfold queue_wf. vm_compute. repeat split; congruence.
  - reflexivity.
  - reflexivity.
  - reflexivity.
  - vm_compute. repeat split; try exact I; intros H; discriminate H.
Defined.

(** *** The bound on [buffer_count] *)

Lemma keyboard_buffer_put_count_in_range st d :
  count_in_range st -> count_in_range (keyboard_buffer_put st d).
Proof.
  unfold count_in_range, keyboard_buffer_put, keyboard_buffer_is_full, KEYBOARD_BUFFER_SIZE.
  intros Hc. destruct (Z.geb_spec (buffer_count st) 16) as [Hfull|Hroom]; cbn.
  - exact Hc.
  - rewrite u8_small by lia. lia.
Qed.

Lemma keyboard_buffer_get_count_in_range st d :
  count_in_range st -> count_in_range (snd (keyboard_buffer_get st d)).
Proof.
  unfold count_in_range, keyboard_buffer_get, keyboard_buffer_is_empty, KEYBOARD_BUFFER_SIZE.
  intros Hc. destruct (Z.eqb_spec (buffer_count st) 0) as [Hempty|Hsome]; cbn.
  - exact Hc.
  - rewrite u8_small by lia. lia.
Qed.

Lemma run_op_count_in_range st (op : queue_op) :
  count_in_range st -> count_in_range (run_op st op).
Proof.
  intros Hc. destruct op as [|r n|d| |d|d]; cbn [run_op].
  - unfold count_in_range, KEYBOARD_BUFFER_SIZE. cbn. lia.
  - unfold keyboard_handler_process_report.
    destruct r as [r|]; [|exact Hc].
    destruct (negb (n =? KEYBOARD_REPORT_SIZE)); [exact Hc|].
    destruct (negb (memcmp _ _ =? 0)); [|exact Hc].
    destruct (keyboard_buffer_is_full st) eqn:Hfull; cbn [negb snd]; [exact Hc|].
    apply (keyboard_buffer_put_count_in_range st (keyboard_parse_hid_report r)) in Hc.
    exact Hc.
  - unfold keyboard_handler_get_data.
    destruct d as [d|]; [|exact Hc].
    destruct (keyboard_buffer_is_empty st); [exact Hc|].
    pose proof (keyboard_buffer_get_count_in_range st d Hc) as Hc'.
    destruct (keyboard_buffer_get st d) as [d' st']. exact Hc'.
  - unfold count_in_range, KEYBOARD_BUFFER_SIZE. cbn. lia.
  - apply keyboard_buffer_put_count_in_range, Hc.
  - apply keyboard_buffer_get_count_in_range, Hc.
Qed.

Lemma run_ops_count_in_range (ops : list queue_op) : forall st,
  count_in_range st -> count_in_range (run_ops st ops).
Proof.
  unfold run_ops. induction ops as [|op ops IH]; intros st Hc; [exact Hc|].
  cbn [fold_left]. apply IH, run_op_count_in_range, Hc.
Qed.

Lemma process_report_on_full st (report : option (list Z)) (report_size : Z) :
  keyboard_buffer_is_full st = true ->
  snd (keyboard_handler_process_report st report report_size) = st.
Proof.
  intros Hfull. unfold keyboard_handler_process_report.
  destruct report as [r|]; [|reflexivity].
  destruct (negb (report_size =? KEYBOARD_REPORT_SIZE)); [reflexivity|].
  destruct (negb (memcmp _ _ =? 0)); [|reflexivity].
  rewrite Hfull. reflexivity.
Qed.

(** C10. Whatever operations run on the handler (initialisation, report
    processing, data retrieval, clearing, the raw enqueue and dequeue), in
    whatever order and with whatever arguments, [buffer_count] stays in
    [0, 16] once it is there, as it is when the program starts.  An enqueue on
    a full queue changes nothing: array, head, tail and count are what they
    were, whether it comes as a raw [keyboard_buffer_put] or through
    [keyboard_handler_process_report]. *)
Theorem capture_queue_count_bounded st (ops : list queue_op) :
  count_in_range st ->
  let st' := run_ops st ops in
  count_in_range st' /\
  (forall op, count_in_range (run_op st' op)) /\
  (keyboard_buffer_is_full st' = true ->
   forall d report report_size,
     keyboard_buffer_put st' d = st' /\
     snd (keyboard_handler_process_report st' report report_size) = st').
Proof.
  intros Hc st'.
  assert (count_in_range st') as Hc' by (apply run_ops_count_in_range, Hc).
  split; [exact Hc'|]. split.
  - intros op. apply run_op_count_in_range, Hc'.
  - intros Hfull d report report_size. split.
    + apply keyboard_buffer_put_full, Hfull.
    + apply process_report_on_full, Hfull.
Qed.

Lemma capture_queue_count_bounded_witness :
  count_in_range handler_at_reset /\
  count_in_range
    (run_ops handler_at_reset
       [OpInit; OpProcessReport (Some [0; 0; 4; 0; 0; 0; 0; 0]) 8; OpGetData (Some keyboard_data_zero);
        OpClearBuffer]).
Proof.
  assert (count_in_range handler_at_reset) as H0
    by (unfold count_in_range, KEYBOARD_BUFFER_SIZE; cbn; lia).
  split; [exact H0|].
  apply (capture_queue_count_bounded handler_at_reset
           [OpInit; OpProcessReport (Some [0; 0; 4; 0; 0; 0; 0; 0]) 8;
            OpGetData (Some keyboard_data_zero); OpClearBuffer] H0).
Defined.

End Capture.

(** ** The translator *)

Section Translator.

Implicit Types (stack : list PS2_ScanCode_t) (out : PS2_ScanCode_t)
  (st : translator_state) (current : USB_HID_KeyboardData_t).

(** Name the first slot of a stack area and the four bytes of a scan code. *)
Ltac first_slot stack H :=
  let Hlen := fresh in let Hall := fresh in let Hs := fresh in
  destruct H as [Hlen Hall];
  destruct stack as [|[[|? [|? [|? [|? [|]]]]] ?] stack]; try discriminate Hlen;
  apply Forall_cons in Hall as [Hs _]; try discriminate Hs;
  clear Hlen Hs.

Ltac four_bytes out H :=
  destruct out as [[|? [|? [|? [|? [|]]]]] ?]; try discriminate H; clear H.

(** C8. From the translator as initialised, translating the snapshot with
    only key A pressed yields the one-byte make code 0x1C, and translating
    the all-released snapshot next yields the break code 0xF0 0x1C. *)
Theorem press_then_release_key_A stack1 stack2 out :
  stack_wf stack1 -> stack_wf stack2 -> scancode_wf out ->
  let r1 := scancode_translator_usb_to_ps2 stack1 translator_ready
              (Some (snapshot_of_keys 0 [USB_HID_KEY_A])) (Some out) in
  let r2 := scancode_translator_usb_to_ps2 stack2 (tr_state r1)
              (Some (snapshot_of_keys 0 [])) (tr_scancode r1) in
  tr_ret r1 = TRANSLATOR_OK /\
  sc_length <$> tr_scancode r1 = Some 1 /\
  scancode_bytes <$> tr_scancode r1 = Some [0x1C] /\
  tr_ret r2 = TRANSLATOR_OK /\
  sc_length <$> tr_scancode r2 = Some 2 /\
  scancode_bytes <$> tr_scancode r2 = Some [0xF0; 0x1C].
Proof.
  intros H1 H2 Hout.
  first_slot stack1 H1. first_slot stack2 H2. four_bytes out Hout.
  vm_compute. repeat split; reflexivity.
Qed.

Lemma zero_stack_wf : stack_wf zero_stack.
Proof. split; [reflexivity|]. repeat constructor. Qed.

Lemma press_then_release_key_A_witness :
  let r1 := scancode_translator_usb_to_ps2 zero_stack translator_ready
              (Some (snapshot_of_keys 0 [USB_HID_KEY_A])) (Some (mkScanCode [0; 0; 0; 0] 0)) in
  let r2 := scancode_translator_usb_to_ps2 zero_stack (tr_state r1)
              (Some (snapshot_of_keys 0 [])) (tr_scancode r1) in
  tr_ret r1 = TRANSLATOR_OK /\
  sc_length <$> tr_scancode r1 = Some 1 /\
  scancode_bytes <$> tr_scancode r1 = Some [0x1C] /\
  tr_ret r2 = TRANSLATOR_OK /\
  sc_length <$> tr_scancode r2 = Some 2 /\
  scancode_bytes <$> tr_scancode r2 = Some [0xF0; 0x1C].
Proof.
  apply (press_then_release_key_A zero_stack zero_stack (mkScanCode [0; 0; 0; 0] 0)).
  - exact zero_stack_wf.
  - exact zero_stack_wf.
  - reflexivity.
Defined.

(** C9. From the translator as initialised, a snapshot with only the
    Right-Alt modifier bit set yields the extended make sequence 0xE0 0x11,
    and the all-released snapshot after it yields the extended break
    sequence 0xE0 0xF0 0x11. *)
Theorem press_then_release_right_alt stack1 stack2 out :
  stack_wf stack1 -> stack_wf stack2 -> scancode_wf out ->
  let r1 := scancode_translator_usb_to_ps2 stack1 translator_ready
              (Some (snapshot_of_keys USB_HID_MODIFIER_RIGHT_ALT [])) (Some out) in
  let r2 := scancode_translator_usb_to_ps2 stack2 (tr_state r1)
              (Some (snapshot_of_keys 0 [])) (tr_scancode r1) in
  tr_ret r1 = TRANSLATOR_OK /\
  sc_length <$> tr_scancode r1 = Some 2 /\
  scancode_bytes <$> tr_scancode r1 = Some [0xE0; 0x11] /\
  tr_ret r2 = TRANSLATOR_OK /\
  sc_length <$> tr_scancode r2 = Some 3 /\
  scancode_bytes <$> tr_scancode r2 = Some [0xE0; 0xF0; 0x11].
Proof.
  intros H1 H2 Hout.
  first_slot stack1 H1. first_slot stack2 H2. four_bytes out Hout.
  vm_compute. repeat split; reflexivity.
Qed.

Lemma press_then_release_right_alt_witness :
  let r1 := scancode_translator_usb_to_ps2 zero_stack translator_ready
              (Some (snapshot_of_keys USB_HID_MODIFIER_RIGHT_ALT []))
              (Some (mkScanCode [0; 0; 0; 0] 0)) in
  let r2 := scancode_translator_usb_to_ps2 zero_stack (tr_state r1)
              (Some (snapshot_of_keys 0 [])) (tr_scancode r1) in
  tr_ret r1 = TRANSLATOR_OK /\
  sc_length <$> tr_scancode r1 = Some 2 /\
  scancode_bytes <$> tr_scancode r1 = Some [0xE0; 0x11] /\
  tr_ret r2 = TRANSLATOR_OK /\
  sc_length <$> tr_scancode r2 = Some 3 /\
  scancode_bytes <$> tr_scancode r2 = Some [0xE0; 0xF0; 0x11].
Proof.
  apply (press_then_release_right_alt zero_stack zero_stack (mkScanCode [0; 0; 0; 0] 0)).
  - exact zero_stack_wf.
  - exact zero_stack_wf.
  - reflexivity.
Defined.

(** *** Translating the same snapshot again *)

Lemma modifier_step_same mask code extended base m (bc : translation_buffer * Z) :
  modifier_step mask code extended base m m bc = bc.
Proof. unfold modifier_step. rewrite Z.lxor_nilpotent, Z.land_0_l. reflexivity. Qed.

Lemma translate_modifier_keys_same m base (b : translation_buffer) :
  translate_modifier_keys m m base b 0 = (TRANSLATOR_OK, b, 0).
Proof.
  unfold translate_modifier_keys. rewrite !modifier_step_same. reflexivity.
Qed.

Lemma is_key_in_own_array current (i : Z) :
  0 <= i < key_count current ->
  is_key_in_array (byte_at (keys current) i) (keys current) (key_count current) = true.
Proof.
  intros Hi. unfold is_key_in_array. apply existsb_exists.
  exists i. split; [|apply Z.eqb_refl].
  apply list_elem_of_In, elem_of_seqZ. lia.
Qed.

Lemma scan_keys_same create create_ext current base initial_count
    (idx : list Z) (b : translation_buffer) (count : Z) :
  Forall (fun i => 0 <= i < key_count current) idx ->
  scan_keys create create_ext current current base initial_count idx b count
  = (TRANSLATOR_OK, b, count).
Proof.
  induction 1 as [|i idx Hi _ IH]; [reflexivity|].
  cbn [scan_keys]. rewrite is_key_in_own_array by exact Hi. exact IH.
Qed.

Lemma translate_regular_keys_same current base (b : translation_buffer) (count : Z) :
  translate_regular_keys current current base b count = (TRANSLATOR_OK, b, count).
Proof.
  assert (Forall (fun i => 0 <= i < key_count current) (seqZ 0 (key_count current))) as Hidx.
  { apply Forall_forall. intros i Hi. apply elem_of_seqZ in Hi. lia. }
  unfold translate_regular_keys. rewrite !scan_keys_same by exact Hidx. reflexivity.
Qed.

Lemma translate_unchanged_snapshot stack current out :
  scancode_translator_usb_to_ps2 stack (mkTranslator TRANSLATOR_READY current)
    (Some current) (Some out)
  = mkResult TRANSLATOR_OK (Some (mkScanCode (data out) 0))
      (mkTranslator TRANSLATOR_READY current) [].
Proof.
  unfold scancode_translator_usb_to_ps2. cbn [translator_status last_usb_state].
  rewrite decide_True by reflexivity.
  rewrite translate_modifier_keys_same, translate_regular_keys_same. reflexivity.
Qed.

Lemma copy_keeps_pointer out (src : option PS2_ScanCode_t) :
  exists out', snd (ps2_copy_scancode (Some out) src) = Some out'.
Proof.
  unfold ps2_copy_scancode. destruct src as [s|]; [|eauto].
  destruct (ps2_validate_scancode (Some s)); cbn; eauto.
Qed.

(** What a successful call leaves behind. *)
Lemma translate_ok_inv stack st current out :
  tr_ret (scancode_translator_usb_to_ps2 stack st (Some current) (Some out)) = TRANSLATOR_OK ->
  tr_state (scancode_translator_usb_to_ps2 stack st (Some current) (Some out))
    = mkTranslator TRANSLATOR_READY current /\
  exists out',
    tr_scancode (scancode_translator_usb_to_ps2 stack st (Some current) (Some out)) = Some out'.
Proof.
  unfold scancode_translator_usb_to_ps2.
  destruct (decide (translator_status st = TRANSLATOR_READY)) as [Hready|]; [|discriminate].
  destruct (translate_modifier_keys _ _ _ _ _) as [[s1 b1] c1].
  destruct s1; try discriminate.
  destruct (translate_regular_keys _ _ _ _ _) as [[s2 b2] c2].
  destruct s2; try discriminate.
  cbn [tr_ret tr_state tr_scancode]. intros _. rewrite Hready.
  split; [reflexivity|].
  destruct (c2 >? 0); [apply copy_keeps_pointer | eauto].
Qed.

(** What a failed call leaves behind: the translator's variables and the
    caller's scan code are untouched. *)
Lemma translate_error_inv stack st (usb_data : option USB_HID_KeyboardData_t)
    (ps2_scancode : option PS2_ScanCode_t) :
  tr_ret (scancode_translator_usb_to_ps2 stack st usb_data ps2_scancode) <> TRANSLATOR_OK ->
  tr_state (scancode_translator_usb_to_ps2 stack st usb_data ps2_scancode) = st /\
  tr_scancode (scancode_translator_usb_to_ps2 stack st usb_data ps2_scancode) = ps2_scancode.
Proof.
  unfold scancode_translator_usb_to_ps2.
  destruct usb_data as [current|], ps2_scancode as [out|]; try (split; reflexivity).
  destruct (decide (translator_status st = TRANSLATOR_READY)); [|split; reflexivity].
  destruct (translate_modifier_keys _ _ _ _ _) as [[s1 b1] c1].
  destruct s1; try (split; reflexivity).
  destruct (translate_regular_keys _ _ _ _ _) as [[s2 b2] c2].
  destruct s2; try (split; reflexivity).
  cbn [tr_ret]. intros Hne. contradiction.
Qed.

(** *** When a call fails *)

Lemma translate_modifier_keys_count old_modifier new_modifier (b : translation_buffer) :
  0 <= modifier_events old_modifier new_modifier <= 6 /\
  exists b',
    translate_modifier_keys old_modifier new_modifier 0 b 0
    = (TRANSLATOR_OK, b', modifier_events old_modifier new_modifier).
Proof.
  unfold translate_modifier_keys, modifier_events, modifier_step, handled_modifiers.
  cbn [map sumZ fold_right fst snd].
  destruct (Z.land (Z.lxor old_modifier new_modifier) USB_HID_MODIFIER_LEFT_CTRL =? 0),
    (Z.land (Z.lxor old_modifier new_modifier) USB_HID_MODIFIER_LEFT_SHIFT =? 0),
    (Z.land (Z.lxor old_modifier new_modifier) USB_HID_MODIFIER_LEFT_ALT =? 0),
    (Z.land (Z.lxor old_modifier new_modifier) USB_HID_MODIFIER_RIGHT_SHIFT =? 0),
    (Z.land (Z.lxor old_modifier new_modifier) USB_HID_MODIFIER_RIGHT_CTRL =? 0),
    (Z.land (Z.lxor old_modifier new_modifier) USB_HID_MODIFIER_RIGHT_ALT =? 0);
    cbn [fst snd]; (split; [cbn; lia | eexists; reflexivity]).
Qed.

Lemma count_key_events_nonneg from other (idx : list Z) :
  0 <= count_key_events from other idx.
Proof.
  unfold count_key_events. induction idx as [|i idx IH]; cbn [map sumZ fold_right]; [lia|].
  fold (sumZ (map (fun i => if key_is_event from other i then 1 else 0) idx)).
  destruct (key_is_event from other i); lia.
Qed.

Lemma scan_keys_count create create_ext from other base initial_count (idx : list Z) :
  forall (b : translation_buffer) (count : Z),
  0 <= count < MAX_TRANSLATION_BUFFER ->
  exists b',
    scan_keys create create_ext from other base initial_count idx b count
    = if count + count_key_events from other idx <? MAX_TRANSLATION_BUFFER
      then (TRANSLATOR_OK, b', count + count_key_events from other idx)
      else (TRANSLATOR_ERROR, b', initial_count).
Proof.
  unfold MAX_TRANSLATION_BUFFER.
  induction idx as [|i idx IH]; intros b count Hcount.
  - exists b. unfold count_key_events. cbn. rewrite Z.add_0_r.
    destruct (Z.ltb_spec count 8); [reflexivity | lia].
  - pose proof (count_key_events_nonneg from other idx) as Hnn.
    cbn [scan_keys].
    replace (count_key_events from other (i :: idx))
      with ((if key_is_event from other i then 1 else 0) + count_key_events from other idx)
      by reflexivity.
    unfold key_is_event.
    destruct (is_key_in_array _ _ _); cbn [negb andb].
    { rewrite Z.add_0_l. apply IH, Hcount. }
    destruct (find_ps2_scancode _) as [[code ext]|].
    + unfold MAX_TRANSLATION_BUFFER. rewrite u8_small by lia.
      destruct (Z.geb_spec (count + 1) 8) as [Hfull|Hroom].
      * eexists. destruct (Z.ltb_spec (count + (1 + count_key_events from other idx)) 8);
          [lia | reflexivity].
      * rewrite Z.add_assoc. apply IH. lia.
    + rewrite Z.add_0_l. apply IH, Hcount.
Qed.

Lemma translate_regular_keys_count last current base (b : translation_buffer) (count : Z) :
  0 <= count < MAX_TRANSLATION_BUFFER ->
  exists b',
    translate_regular_keys last current base b count
    = if count + key_events last current + key_events current last <? MAX_TRANSLATION_BUFFER
      then (TRANSLATOR_OK, b', count + key_events last current + key_events current last)
      else (TRANSLATOR_ERROR, b', count).
Proof.
  intros Hcount. unfold translate_regular_keys, key_events.
  pose proof (count_key_events_nonneg last current (seqZ 0 (key_count last))) as Hrel.
  pose proof (count_key_events_nonneg current last (seqZ 0 (key_count current))) as Hpress.
  destruct (scan_keys_count ps2_create_break_code ps2_create_extended_break_code
              last current base count (seqZ 0 (key_count last)) b count Hcount) as [b1 ->].
  unfold MAX_TRANSLATION_BUFFER in *.
  destruct (Z.ltb_spec (count + count_key_events last current (seqZ 0 (key_count last))) 8)
    as [Hroom|Hfull].
  - destruct (scan_keys_count ps2_create_make_code ps2_create_extended_make_code
                current last base count (seqZ 0 (key_count current)) b1
                (count + count_key_events last current (seqZ 0 (key_count last))))
      as [b2 ->]; [unfold MAX_TRANSLATION_BUFFER; lia|].
    exists b2. reflexivity.
  - exists b1.
    destruct (Z.ltb_spec (count + count_key_events last current (seqZ 0 (key_count last))
                          + count_key_events current last (seqZ 0 (key_count current))) 8);
      [lia | reflexivity].
Qed.

(** A call on a ready translator fails exactly when the difference between
    the last snapshot and the current one stands for eight events or
    more. *)
Lemma translate_fails_from_eight_events stack st current out :
  translator_status st = TRANSLATOR_READY ->
  let r := scancode_translator_usb_to_ps2 stack st (Some current) (Some out) in
  (MAX_TRANSLATION_BUFFER <= diff_events (last_usb_state st) current ->
   tr_ret r = TRANSLATOR_ERROR /\ tr_state r = st /\ tr_scancode r = Some out) /\
  (diff_events (last_usb_state st) current < MAX_TRANSLATION_BUFFER ->
   tr_ret r = TRANSLATOR_OK /\ last_usb_state (tr_state r) = current).
Proof.
  intros Hready. unfold scancode_translator_usb_to_ps2, diff_events.
  rewrite decide_True by exact Hready.
  destruct (translate_modifier_keys_count (modifier (last_usb_state st)) (modifier current)
              (mkBuffer stack [])) as [Hm [b1 ->]].
  destruct (translate_regular_keys_count (last_usb_state st) current
              (modifier_events (modifier (last_usb_state st)) (modifier current)) b1
              (modifier_events (modifier (last_usb_state st)) (modifier current)))
    as [b2 ->]; [unfold MAX_TRANSLATION_BUFFER; lia|].
  destruct (Z.ltb_spec
              (modifier_events (modifier (last_usb_state st)) (modifier current)
               + key_events (last_usb_state st) current + key_events current (last_usb_state st))
              MAX_TRANSLATION_BUFFER) as [Hroom|Hfull]; cbn zeta.
  - split; [lia|]. intros _. split; reflexivity.
  - split; [|lia]. intros _. repeat split; reflexivity.
Qed.

Lemma translate_failure_repeats stack1 stack2 st current out :
  translator_status st = TRANSLATOR_READY ->
  let r1 := scancode_translator_usb_to_ps2 stack1 st (Some current) (Some out) in
  let r2 := scancode_translator_usb_to_ps2 stack2 (tr_state r1) (Some current) (tr_scancode r1) in
  tr_ret r1 = TRANSLATOR_ERROR ->
  tr_state r1 = st /\ tr_ret r2 = TRANSLATOR_ERROR /\ tr_state r2 = st.
Proof.
  intros Hready r1 r2 Hfail. subst r2.
  destruct (translate_fails_from_eight_events stack1 st current out Hready) as [Hge Hlt].
  fold r1 in Hge, Hlt.
  destruct (Z.lt_ge_cases (diff_events (last_usb_state st) current) MAX_TRANSLATION_BUFFER)
    as [Hsmall|Hbig].
  - destruct (Hlt Hsmall) as [Hok _]. rewrite Hok in Hfail. discriminate.
  - destruct (Hge Hbig) as (_ & Hst & Hout). rewrite Hst, Hout.
    destruct (translate_fails_from_eight_events stack2 st current out Hready) as [Hge2 _].
    destruct (Hge2 Hbig) as (Hret2 & Hst2 & _). auto.
Qed.

(** C2. The call does not accept every difference of at most eight events:
    with A and B held in the last translated snapshot and C, D, E, F, G, H
    held in the current one (two releases and six presses, no modifier
    change), the difference stands for exactly eight events, each of the
    eight stores lands inside [temp_scancodes] (indices 0 to 7), and the
    call returns [TRANSLATOR_ERROR], leaving the last snapshot as it was. *)
Theorem eight_events_are_rejected :
  let out := mkScanCode [0; 0; 0; 0] 0 in
  let r0 := scancode_translator_usb_to_ps2 zero_stack translator_ready
              (Some (snapshot_of_keys 0 [0x04; 0x05])) (Some out) in
  let current := snapshot_of_keys 0 [0x06; 0x07; 0x08; 0x09; 0x0A; 0x0B] in
  let r1 := scancode_translator_usb_to_ps2 zero_stack (tr_state r0)
              (Some current) (tr_scancode r0) in
  tr_ret r0 = TRANSLATOR_OK /\
  diff_events (last_usb_state (tr_state r0)) current = 8 /\
  tr_writes r1 = [0; 1; 2; 3; 4; 5; 6; 7] /\
  tr_ret r1 = TRANSLATOR_ERROR /\
  tr_state r1 = tr_state r0.
Proof. vm_compute. repeat split; reflexivity. Qed.

(** C3. A store of a regular-key scan code can land past the end of
    [temp_scancodes]: from the translator as initialised, the snapshot with
    Left-Ctrl, Left-Shift, Left-Alt, Right-Ctrl and key A fills slots 0 to 3
    with the modifier codes and then stores the make code of A at index 8 of
    the eight-slot array; the call still returns [TRANSLATOR_OK]. *)
Theorem regular_key_stored_past_the_array :
  let r := scancode_translator_usb_to_ps2 zero_stack translator_ready
             (Some (snapshot_of_keys 0x17 [USB_HID_KEY_A]))
             (Some (mkScanCode [0; 0; 0; 0] 0)) in
  tr_ret r = TRANSLATOR_OK /\
  tr_writes r = [0; 1; 2; 3; 8] /\
  ~ writes_in_bounds r.
Proof.
  cbn zeta. split; [reflexivity|]. split; [reflexivity|].
  unfold writes_in_bounds.
  change (tr_writes _) with [0; 1; 2; 3; 8].
  intros Hall. rewrite Forall_forall in Hall.
  specialize (Hall 8 ltac:(repeat constructor)).
  unfold MAX_TRANSLATION_BUFFER in Hall. lia.
Qed.

(** C6, as stated, fails when the first call overflows: with A to F held
    in the last translated snapshot and G to L held in the current one
    (twelve events), the first call and the repeated call both return
    [TRANSLATOR_ERROR], and the caller's scan code keeps the length it had:
    no empty sequence is produced.  Every store of the three calls is inside
    [temp_scancodes]. *)
Lemma repeated_overflow_yields_no_empty_sequence :
  let out := mkScanCode [0; 0; 0; 0] 0 in
  let r0 := scancode_translator_usb_to_ps2 zero_stack translator_ready
              (Some (snapshot_of_keys 0 [0x04; 0x05; 0x06; 0x07; 0x08; 0x09])) (Some out) in
  let current := snapshot_of_keys 0 [0x0A; 0x0B; 0x0C; 0x0D; 0x0E; 0x0F] in
  let r1 := scancode_translator_usb_to_ps2 zero_stack (tr_state r0)
              (Some current) (tr_scancode r0) in
  let r2 := scancode_translator_usb_to_ps2 zero_stack (tr_state r1)
              (Some current) (tr_scancode r1) in
  tr_ret r0 = TRANSLATOR_OK /\
  diff_events (last_usb_state (tr_state r0)) current = 12 /\
  tr_ret r1 = TRANSLATOR_ERROR /\
  tr_ret r2 = TRANSLATOR_ERROR /\
  sc_length <$> tr_scancode r2 = Some 1 /\
  ~ (tr_ret r2 = TRANSLATOR_OK /\ sc_length <$> tr_scancode r2 = Some 0) /\
  tr_writes r0 = [0; 1; 2; 3; 4; 5] /\
  tr_writes r1 = [0; 1; 2; 3; 4; 5; 6; 7] /\
  tr_writes r2 = [0; 1; 2; 3; 4; 5; 6; 7].
Proof.
  vm_compute. repeat split; try reflexivity. intros [H _]. discriminate H.
Qed.

End Translator.

(** * Further properties *)

(** ** The framer on whole scan codes *)

Section FramerScancodes.

Implicit Types (l : ps2_lines) (tr : list bus_event) (sc : PS2_ScanCode_t).

Lemma ps2_send_byte_bits (b : Z) : snd (ps2_send_byte b) = send_bits (byte_bit_values b).
Proof.
  unfold ps2_send_byte, send_bits, byte_bit_values. cbn [snd].
  rewrite !map_app, !concat_app, map_map. cbn [map concat].
  rewrite !app_nil_r. reflexivity.
Qed.

Lemma sample_send_byte_app l (b : Z) tr :
  clk_level l = GPIO_PIN_SET ->
  exists l', clk_level l' = GPIO_PIN_SET /\
    sample_falling_edges l (snd (ps2_send_byte b) ++ tr)
    = frame_bits b ++ sample_falling_edges l' tr.
Proof.
  intros Hclk. unfold ps2_send_byte, frame_bits. cbn [snd].
  rewrite <- !app_assoc.
  rewrite sample_send_bit by exact Hclk. cbn [Z.eqb app].
  edestruct (sample_data_bits b (seqZ 0 8)) as (l1 & Hl1 & ->); [| reflexivity |].
  { apply Forall_forall. intros i Hi. apply elem_of_seqZ in Hi. lia. }
  rewrite ps2_parity_bits.
  edestruct (sample_send_b2z l1) as (l2 & Hl2 & ->); [exact Hl1|].
  rewrite sample_send_bit by exact Hl2. cbn [Z.eqb].
  eexists. split; [|unfold data_bits_lsb_first; rewrite <- app_assoc; reflexivity].
  reflexivity.
Qed.

Lemma send_scancode_bytes_trace sc (idx : list Z) :
  send_scancode_bytes sc idx
  = (true, concat (map (fun i => snd (ps2_send_byte (byte_at (data sc) i))) idx)).
Proof.
  induction idx as [|i idx IH]; [reflexivity|].
  cbn [send_scancode_bytes map concat].
  change (ps2_send_byte (byte_at (data sc) i))
    with (PS2_OK, snd (ps2_send_byte (byte_at (data sc) i))).
  cbv iota beta. rewrite decide_True by reflexivity. rewrite IH. reflexivity.
Qed.

Lemma ps2_send_scancode_ready sc :
  ps2_send_scancode PS2_READY (Some sc)
  = mkPs2Result PS2_OK PS2_READY
      (concat (map (fun b => snd (ps2_send_byte b)) (sent_bytes sc))).
Proof.
  unfold ps2_send_scancode, sent_bytes. rewrite decide_True by reflexivity.
  rewrite send_scancode_bytes_trace, map_map. reflexivity.
Qed.

Lemma sample_bytes (bs : list Z) : forall l,
  clk_level l = GPIO_PIN_SET ->
  sample_falling_edges l (concat (map (fun b => snd (ps2_send_byte b)) bs))
  = concat (map frame_bits bs).
Proof.
  induction bs as [|b bs IH]; intros l Hclk; [reflexivity|].
  cbn [map concat].
  destruct (sample_send_byte_app l b
              (concat (map (fun b => snd (ps2_send_byte b)) bs)) Hclk) as (l' & Hl' & ->).
  rewrite (IH l' Hl'). reflexivity.
Qed.

Lemma take_as_lookups (a : list Z) (n : Z) :
  0 <= n <= Z.of_nat (length a) ->
  map (byte_at a) (seqZ 0 n) = take (Z.to_nat n) a.
Proof.
  intros Hn. apply list_eq. intros i.
  rewrite list_lookup_fmap.
  destruct (decide (i < Z.to_nat n)%nat) as [Hi|Hi].
  - rewrite lookup_seqZ_lt by lia. rewrite lookup_take_lt by exact Hi.
    cbn. unfold byte_at. rewrite Z.add_0_l, Nat2Z.id.
    assert (i < length a)%nat as Hia by lia.
    destruct (lookup_lt_is_Some_2 a i Hia) as [x ->]. reflexivity.
  - rewrite lookup_seqZ_ge by lia. rewrite lookup_take_ge by lia. reflexivity.
Qed.

(** X1. On a ready framer a non-null scan code whose length does not
    exceed its [data] array is always sent: the call returns [PS2_OK], the
    framer is ready again afterwards (it never ends in [PS2_ERROR]), and the
    bits a receiver samples are the eleven-bit frames of [data[0]], ...,
    [data[length-1]], one after the other and nothing else. *)
Theorem ps2_send_scancode_frames sc :
  0 <= sc_length sc <= Z.of_nat (length (data sc)) ->
  let r := ps2_send_scancode PS2_READY (Some sc) in
  ps2_ret r = PS2_OK /\
  ps2_status_after r = PS2_READY /\
  sent_bytes sc = scancode_bytes sc /\
  sample_falling_edges lines_idle (ps2_trace r) = concat (map frame_bits (scancode_bytes sc)) /\
  length (sample_falling_edges lines_idle (ps2_trace r))
  = (11 * Z.to_nat (sc_length sc))%nat.
Proof.
  intros Hlen. cbn zeta.
  rewrite ps2_send_scancode_ready. cbn [ps2_ret ps2_status_after ps2_trace].
  split; [reflexivity|]. split; [reflexivity|].
  assert (sent_bytes sc = scancode_bytes sc) as Hsent
    by (unfold sent_bytes; apply take_as_lookups, Hlen).
  split; [exact Hsent|].
  rewrite sample_bytes by reflexivity. rewrite Hsent. split; [reflexivity|].
  assert (length (scancode_bytes sc) = Z.to_nat (sc_length sc)) as <-
    by (unfold scancode_bytes; rewrite length_take; lia).
  clear Hsent. induction (scancode_bytes sc) as [|b bs IH]; [reflexivity|].
  cbn [map concat]. rewrite length_app, IH.
  unfold frame_bits, data_bits_lsb_first. rewrite !length_app, length_map, length_seqZ.
  cbn. lia.
Qed.

Lemma ps2_send_scancode_frames_witness :
  sample_falling_edges lines_idle
    (ps2_trace (ps2_send_scancode PS2_READY (Some (mkScanCode [0xF0; 0x1C; 0; 0] 2))))
  = concat (map frame_bits [0xF0; 0x1C]).
Proof.
  apply (ps2_send_scancode_frames (mkScanCode [0xF0; 0x1C; 0; 0] 2)).
  cbn. lia.
Defined.

Lemma frame_bits_shape (b : Z) :
  exists x0 x1 x2 x3 x4 x5 x6 x7 : bool,
    data_bits_lsb_first b = map Z.b2z [x0; x1; x2; x3; x4; x5; x6; x7] /\
    ps2_parity b = Z.b2z (negb (fold_right xorb false [x0; x1; x2; x3; x4; x5; x6; x7])).
Proof.
  exists (Z.testbit b 0), (Z.testbit b 1), (Z.testbit b 2), (Z.testbit b 3),
    (Z.testbit b 4), (Z.testbit b 5), (Z.testbit b 6), (Z.testbit b 7).
  split; [reflexivity|]. rewrite ps2_parity_bits. reflexivity.
Qed.

Lemma decode_frame_app (b : Z) (rest : list Z) :
  0 <= b < 256 ->
  decode_frames (frame_bits b ++ rest) = cons b <$> decode_frames rest.
Proof.
  intros Hb. pose proof (byte_bits_value b Hb) as Hval.
  destruct (frame_bits_shape b) as (x0 & x1 & x2 & x3 & x4 & x5 & x6 & x7 & Hbits & Hpar).
  unfold frame_bits. rewrite Hpar. rewrite Hbits in Hval |- *.
  cbn [map app] in Hval |- *. cbn [decode_frames]. rewrite Hval.
  replace (Z.odd _) with true.
  - cbn. destruct (decode_frames rest); reflexivity.
  - symmetry. clear. destruct x0, x1, x2, x3, x4, x5, x6, x7; reflexivity.
Qed.

Lemma decode_frames_bytes (bs : list Z) :
  Forall (fun b => 0 <= b < 256) bs ->
  decode_frames (concat (map frame_bits bs)) = Some bs.
Proof.
  induction 1 as [|b bs Hb _ IH]; [reflexivity|].
  cbn [map concat]. rewrite decode_frame_app by exact Hb. rewrite IH. reflexivity.
Qed.

(** X2. Sending a scan code and decoding the sampled bits frame by frame
    gives back the bytes of the scan code: for a scan code whose bytes are
    in [0, 256) and whose length does not exceed its array, the receiver
    accepts every frame (start, parity and stop bits are right) and
    recovers [data[0 .. length-1]]. *)
Theorem ps2_send_scancode_round_trip sc :
  Forall (fun b => 0 <= b < 256) (data sc) ->
  0 <= sc_length sc <= Z.of_nat (length (data sc)) ->
  decode_frames (sample_falling_edges lines_idle
                   (ps2_trace (ps2_send_scancode PS2_READY (Some sc))))
  = Some (scancode_bytes sc).
Proof.
  intros Hbytes Hlen.
  rewrite ps2_send_scancode_ready. cbn [ps2_trace].
  rewrite sample_bytes by reflexivity.
  unfold sent_bytes. rewrite take_as_lookups by exact Hlen.
  apply decode_frames_bytes.
  unfold scancode_bytes. apply Forall_take, Hbytes.
Qed.

Lemma ps2_send_scancode_round_trip_witness :
  decode_frames (sample_falling_edges lines_idle
                   (ps2_trace (ps2_send_scancode PS2_READY
                                 (Some (mkScanCode [0xE0; 0xF0; 0x11; 0] 3)))))
  = Some [0xE0; 0xF0; 0x11].
Proof.
  apply (ps2_send_scancode_round_trip (mkScanCode [0xE0; 0xF0; 0x11; 0] 3)).
  - repeat constructor; lia.
  - cbn. lia.
Defined.

End FramerScancodes.

(** ** Line discipline and timing *)

Section BusDiscipline.

Implicit Types (l : ps2_lines) (tr : list bus_event) (sc : PS2_ScanCode_t).

Lemma steady_send_bit l (v : Z) tr :
  clk_level l = GPIO_PIN_SET ->
  data_steady_while_clock_low l (ps2_send_bit v ++ tr)
  = data_steady_while_clock_low
      (mkLines GPIO_PIN_SET (if v =? 0 then GPIO_PIN_RESET else GPIO_PIN_SET)) tr.
Proof.
  intros Hclk. destruct l as [c d]. cbn in Hclk. subst c. reflexivity.
Qed.

Lemma lines_after_send_bit l (v : Z) tr :
  lines_after l (ps2_send_bit v ++ tr)
  = lines_after (mkLines GPIO_PIN_SET (if v =? 0 then GPIO_PIN_RESET else GPIO_PIN_SET)) tr.
Proof. reflexivity. Qed.

Lemma busy_cycles_app tr1 tr2 : busy_cycles (tr1 ++ tr2) = busy_cycles tr1 + busy_cycles tr2.
Proof.
  unfold busy_cycles. rewrite map_app.
  unfold sumZ.
  induction (map _ tr1) as [|x xs IH]; cbn [app fold_right]; [reflexivity|].
  rewrite IH. lia.
Qed.

Lemma send_bits_lines (vs : list Z) : forall l tr,
  clk_level l = GPIO_PIN_SET ->
  exists l', clk_level l' = GPIO_PIN_SET /\
    data_steady_while_clock_low l (send_bits vs ++ tr) = data_steady_while_clock_low l' tr /\
    lines_after l (send_bits vs ++ tr) = lines_after l' tr.
Proof.
  unfold send_bits. induction vs as [|v vs IH]; intros l tr Hclk.
  - exists l. auto.
  - cbn [map concat]. rewrite <- app_assoc.
    rewrite steady_send_bit by exact Hclk. rewrite lines_after_send_bit.
    apply IH. reflexivity.
Qed.

Lemma busy_cycles_send_bits (vs : list Z) :
  busy_cycles (send_bits vs) = 1722 * Z.of_nat (length vs).
Proof.
  unfold send_bits. induction vs as [|v vs IH]; [reflexivity|].
  cbn [map concat length]. rewrite busy_cycles_app, IH.
  change (busy_cycles (ps2_send_bit v)) with 1722. lia.
Qed.

Lemma send_byte_lines (b : Z) l tr :
  clk_level l = GPIO_PIN_SET ->
  data_steady_while_clock_low l (snd (ps2_send_byte b) ++ tr)
    = data_steady_while_clock_low lines_idle tr /\
  lines_after l (snd (ps2_send_byte b) ++ tr) = lines_after lines_idle tr.
Proof.
  intros Hclk. rewrite ps2_send_byte_bits. unfold byte_bit_values.
  set (front := ([0] ++ map (fun bit_count => Z.land (Z.shiftr b bit_count) 1) (seqZ 0 8))
                ++ [ps2_parity b]).
  replace ([0] ++ map (fun bit_count => Z.land (Z.shiftr b bit_count) 1) (seqZ 0 8)
           ++ [ps2_parity b; 1]) with (front ++ [1])
    by (unfold front; rewrite <- !app_assoc; reflexivity).
  assert (send_bits (front ++ [1]) = send_bits front ++ ps2_send_bit 1) as ->.
  { unfold send_bits. rewrite map_app, concat_app. cbn [map concat].
    rewrite app_nil_r. reflexivity. }
  rewrite <- app_assoc.
  destruct (send_bits_lines front l (ps2_send_bit 1 ++ tr) Hclk) as (l' & Hl' & -> & ->).
  rewrite steady_send_bit by exact Hl'. rewrite lines_after_send_bit. split; reflexivity.
Qed.

Lemma busy_cycles_send_byte (b : Z) : busy_cycles (snd (ps2_send_byte b)) = 18942.
Proof.
  rewrite ps2_send_byte_bits, busy_cycles_send_bits. unfold byte_bit_values.
  rewrite !length_app, length_map, length_seqZ. reflexivity.
Qed.

Lemma send_bytes_lines (bs : list Z) : forall l,
  clk_level l = GPIO_PIN_SET ->
  let tr := concat (map (fun b => snd (ps2_send_byte b)) bs) in
  data_steady_while_clock_low l tr = true /\
  lines_after l tr = (if bs is [] then l else lines_idle) /\
  busy_cycles tr = 18942 * Z.of_nat (length bs).
Proof.
  induction bs as [|b bs IH]; intros l Hclk; [repeat split|].
  cbn zeta. cbn [map concat length].
  destruct (send_byte_lines b l (concat (map (fun b => snd (ps2_send_byte b)) bs)) Hclk)
    as [-> ->].
  destruct (IH lines_idle eq_refl) as (Hs & Ha & Hc). cbn zeta in Hs, Ha, Hc.
  split; [exact Hs|]. split.
  - rewrite Ha. destruct bs; reflexivity.
  - rewrite busy_cycles_app, busy_cycles_send_byte, Hc. lia.
Qed.

(** X3. While a scan code is sent from a bus whose clock line is high, the
    data line is never moved while the clock line is low (each bit is set up
    before its falling edge); after a non-empty scan code both lines are back
    high, the idle state; and the busy-wait loop runs 18942 iterations per
    byte (eleven bit cells of two half periods of 861 iterations). *)
Theorem ps2_send_scancode_line_discipline sc l :
  clk_level l = GPIO_PIN_SET ->
  let tr := ps2_trace (ps2_send_scancode PS2_READY (Some sc)) in
  data_steady_while_clock_low l tr = true /\
  (0 < sc_length sc -> lines_after l tr = lines_idle) /\
  (sc_length sc <= 0 -> tr = []) /\
  busy_cycles tr = 18942 * Z.max 0 (sc_length sc).
Proof.
  intros Hclk. cbn zeta. rewrite ps2_send_scancode_ready. cbn [ps2_trace].
  destruct (send_bytes_lines (sent_bytes sc) l Hclk) as (Hs & Ha & Hc). cbn zeta in Hs, Ha, Hc.
  split; [exact Hs|]. split; [|split].
  - intros Hpos. rewrite Ha. unfold sent_bytes.
    rewrite (seqZ_cons 0 (sc_length sc)) by exact Hpos. reflexivity.
  - intros Hle. unfold sent_bytes. rewrite seqZ_nil by exact Hle. reflexivity.
  - rewrite Hc. unfold sent_bytes. rewrite length_map, length_seqZ. lia.
Qed.

Lemma ps2_send_scancode_line_discipline_witness :
  let tr := ps2_trace (ps2_send_scancode PS2_READY (Some (mkScanCode [0xF0; 0x1C; 0; 0] 2))) in
  data_steady_while_clock_low lines_idle tr = true /\
  lines_after lines_idle tr = lines_idle /\
  busy_cycles tr = 37884.
Proof.
  destruct (ps2_send_scancode_line_discipline (mkScanCode [0xF0; 0x1C; 0; 0] 2) lines_idle eq_refl)
    as (Hs & Ha & _ & Hc).
  split; [exact Hs|]. split; [apply Ha; reflexivity | exact Hc].
Defined.

End BusDiscipline.

(** ** Building and copying scan codes *)

Section ScanCodes.

Implicit Types (sc src dest : PS2_ScanCode_t).

Lemma copy_data_lookup (s d : list Z) (n j : nat) :
  copy_data s d (Z.of_nat n) !! j
  = if decide (j < n /\ j < length d)%nat then Some (byte_at s (Z.of_nat j)) else d !! j.
Proof.
  unfold copy_data. induction n as [|n IH].
  - cbn. rewrite decide_False by lia. reflexivity.
  - rewrite seqZ_S, fold_left_app. cbn [fold_left].
    rewrite Z.add_0_l, Nat2Z.id.
    rewrite list_lookup_insert.
    assert (length (fold_left (fun (d0 : list Z) (i : Z) => <[Z.to_nat i:=byte_at s i]> d0)
                      (seqZ 0 (Z.of_nat n)) d) = length d) as Hlen.
    { clear. generalize (seqZ 0 (Z.of_nat n)). intros idx. revert d.
      induction idx as [|i idx IH]; intros d; [reflexivity|].
      cbn [fold_left]. rewrite IH, length_insert. reflexivity. }
    rewrite Hlen, IH.
    destruct (decide (n = j /\ (n < length d)%nat)) as [[-> Hn]|Hne].
    + rewrite decide_True by lia. reflexivity.
    + destruct (decide ((j < n)%nat /\ (j < length d)%nat)) as [Hj|Hj].
      * rewrite decide_True by lia. reflexivity.
      * rewrite decide_False by lia. reflexivity.
Qed.

Lemma copy_data_length (s d : list Z) (len : Z) : length (copy_data s d len) = length d.
Proof.
  unfold copy_data. generalize (seqZ 0 len). intros idx. revert d.
  induction idx as [|i idx IH]; intros d; [reflexivity|].
  cbn [fold_left]. rewrite IH, length_insert. reflexivity.
Qed.

(** The copy loop moves the first [len] bytes and leaves the rest of the
    destination alone. *)
Lemma copy_data_take_drop (s d : list Z) (len : Z) :
  (Z.to_nat len <= length s)%nat -> (Z.to_nat len <= length d)%nat ->
  take (Z.to_nat len) (copy_data s d len) = take (Z.to_nat len) s /\
  drop (Z.to_nat len) (copy_data s d len) = drop (Z.to_nat len) d.
Proof.
  intros Hs Hd.
  destruct (Z.le_gt_cases len 0) as [Hneg|Hpos].
  { unfold copy_data. rewrite seqZ_nil by exact Hneg.
    replace (Z.to_nat len) with 0%nat by lia. split; reflexivity. }
  replace (copy_data s d len) with (copy_data s d (Z.of_nat (Z.to_nat len)))
    by (f_equal; lia).
  set (n := Z.to_nat len) in *. split; apply list_eq; intros j.
  - rewrite !lookup_take. case_decide as Hj; [|reflexivity].
    rewrite copy_data_lookup, decide_True by lia.
    unfold byte_at. rewrite Nat2Z.id.
    assert (j < length s)%nat as Hjs by lia.
    destruct (lookup_lt_is_Some_2 s j Hjs) as [x ->]. reflexivity.
  - rewrite !lookup_drop, copy_data_lookup, decide_False by lia. reflexivity.
Qed.

(** A length is a [uint8_t]: different from 0 and at most 4 means 1 to 4. *)
Lemma validate_ok_iff (p : option PS2_ScanCode_t) :
  ps2_validate_scancode p = PS2_PROTOCOL_OK <->
  exists sc, p = Some sc /\ sc_length sc <> 0 /\ sc_length sc <= PS2_MAX_SCANCODE_LENGTH.
Proof.
  unfold ps2_validate_scancode, PS2_MAX_SCANCODE_LENGTH. destruct p as [sc|].
  - destruct (Z.eqb_spec (sc_length sc) 0), (Z.gtb_spec (sc_length sc) 4); cbn; split;
      try discriminate;
      try (intros (sc' & [= <-] & Hr); (lia || reflexivity));
      try (intros _; exists sc; split; [reflexivity | lia]).
  - split; [discriminate | intros (sc & Hsc & _); discriminate].
Qed.

(** X4. [ps2_create_scancode] accepts exactly a non-null scan code, a
    non-null byte array and a length from 1 to 4 (a length is a [uint8_t]:
    not 0 and at most 4).  When it refuses, the scan code is left as it was;
    when it accepts (and both arrays hold at least [len] bytes), the scan
    code's bytes are the first [len] bytes given, its array size is
    unchanged, and it passes [ps2_validate_scancode]. *)
Theorem ps2_create_scancode_spec (scancode : option PS2_ScanCode_t)
    (bytes : option (list Z)) (len : Z) :
  let r := ps2_create_scancode scancode bytes len in
  (fst r = PS2_PROTOCOL_OK <->
   is_Some scancode /\ is_Some bytes /\ len <> 0 /\ len <= PS2_MAX_SCANCODE_LENGTH) /\
  (fst r = PS2_PROTOCOL_ERROR -> snd r = scancode) /\
  (forall sc d, scancode = Some sc -> bytes = Some d -> fst r = PS2_PROTOCOL_OK ->
     (Z.to_nat len <= length d)%nat -> (Z.to_nat len <= length (data sc))%nat ->
     exists sc', snd r = Some sc' /\
       sc_length sc' = len /\
       scancode_bytes sc' = take (Z.to_nat len) d /\
       length (data sc') = length (data sc) /\
       ps2_validate_scancode (Some sc') = PS2_PROTOCOL_OK).
Proof.
  cbn zeta. unfold ps2_create_scancode, PS2_MAX_SCANCODE_LENGTH.
  destruct scancode as [sc|]; [|split; [split; [discriminate | intros ([? H] & _); discriminate H]
                                       |split; [reflexivity | intros ? ? H; discriminate H]]].
  destruct bytes as [d|]; [|split; [split; [discriminate | intros (_ & [? H] & _); discriminate H]
                                   |split; [reflexivity | intros ? ? _ H; discriminate H]]].
  destruct (Z.eqb_spec len 0) as [H0|H0]; cbn [orb fst snd].
  { split; [split; [discriminate | intros (_ & _ & Hr & _); lia]|].
    split; [reflexivity | intros ? ? _ _ Hok; discriminate Hok]. }
  destruct (Z.gtb_spec len 4) as [H4|H4]; cbn [fst snd].
  { split; [split; [discriminate | intros (_ & _ & _ & Hr); lia]|].
    split; [reflexivity | intros ? ? _ _ Hok; discriminate Hok]. }
  split; [split; [intros _; repeat split; eauto | reflexivity]|].
  split; [discriminate|].
  intros sc0 d0 [= <-] [= <-] _ Hd Hsc.
  eexists. split; [reflexivity|]. cbn [sc_length data].
  destruct (copy_data_take_drop d (data sc) len Hd Hsc) as [Htake _].
  split; [reflexivity|]. split; [exact Htake|]. split; [apply copy_data_length|].
  apply validate_ok_iff. eexists. split; [reflexivity|].
  unfold PS2_MAX_SCANCODE_LENGTH. cbn. lia.
Qed.

(** X5. [ps2_copy_scancode] succeeds exactly when both pointers are
    non-null and the source length is from 1 to 4 (not 0 and at most 4);
    otherwise the destination is untouched.  On success (with arrays of four
    bytes) the destination has the source's length and bytes, and whatever
    it held after those bytes is still there. *)
Theorem ps2_copy_scancode_spec (dest src : option PS2_ScanCode_t) :
  let r := ps2_copy_scancode dest src in
  (fst r = PS2_PROTOCOL_OK <->
   is_Some dest /\
   exists s, src = Some s /\ sc_length s <> 0 /\ sc_length s <= PS2_MAX_SCANCODE_LENGTH) /\
  (fst r = PS2_PROTOCOL_ERROR -> snd r = dest) /\
  (forall d s, dest = Some d -> src = Some s -> fst r = PS2_PROTOCOL_OK ->
     scancode_wf d -> scancode_wf s ->
     exists d', snd r = Some d' /\
       sc_length d' = sc_length s /\
       scancode_bytes d' = scancode_bytes s /\
       drop (Z.to_nat (sc_length s)) (data d') = drop (Z.to_nat (sc_length s)) (data d) /\
       scancode_wf d').
Proof.
  cbn zeta. unfold ps2_copy_scancode.
  destruct dest as [d|].
  2:{ split; [split; [destruct src; discriminate | intros ([? H] & _); discriminate H]|].
      split; [destruct src; reflexivity | intros ? ? H; discriminate H]. }
  destruct src as [s|].
  2:{ split; [split; [discriminate | intros (_ & ? & H & _); discriminate H]|].
      split; [reflexivity | intros ? ? _ H; discriminate H]. }
  pose proof (validate_ok_iff (Some s)) as Hv.
  destruct (ps2_validate_scancode (Some s)); cbn [fst snd].
  - destruct (proj1 Hv eq_refl) as (s' & [= <-] & Hr).
    split; [split; [intros _; split; eauto | reflexivity]|].
    split; [discriminate|].
    intros d0 s0 [= <-] [= <-] _ Hd Hs. unfold scancode_wf, PS2_MAX_SCANCODE_LENGTH in *.
    eexists. split; [reflexivity|]. cbn [sc_length data].
    destruct (copy_data_take_drop (data s) (data d) (sc_length s)) as [Htake Hdrop]; try lia.
    split; [reflexivity|]. split; [exact Htake|]. split; [exact Hdrop|].
    rewrite copy_data_length. exact Hd.
  - split; [split; [discriminate|]|split; [reflexivity | intros ? ? _ _ Hok; discriminate Hok]].
    intros (_ & s' & [= <-] & Hr).
    assert (PS2_PROTOCOL_ERROR = PS2_PROTOCOL_OK) as Habs by (apply Hv; eauto).
    discriminate Habs.
Qed.

(** X6. On a four-byte scan code, the four constructors produce the
    one-byte make code, the break code with prefix 0xF0, the extended make
    code with prefix 0xE0 and the extended break code 0xE0 0xF0; every result
    passes [ps2_validate_scancode], and a null pointer is refused. *)
Theorem ps2_create_codes_spec sc (key_code : Z) :
  scancode_wf sc ->
  (scancode_bytes <$> snd (ps2_create_make_code (Some sc) key_code) = Some [key_code]) /\
  (scancode_bytes <$> snd (ps2_create_break_code (Some sc) key_code)
   = Some [PS2_BREAK_CODE_PREFIX; key_code]) /\
  (scancode_bytes <$> snd (ps2_create_extended_make_code (Some sc) key_code)
   = Some [PS2_EXTENDED_CODE_PREFIX; key_code]) /\
  (scancode_bytes <$> snd (ps2_create_extended_break_code (Some sc) key_code)
   = Some [PS2_EXTENDED_CODE_PREFIX; PS2_BREAK_CODE_PREFIX; key_code]) /\
  Forall (fun create : option PS2_ScanCode_t -> Z -> PS2_ProtocolStatus_t * option PS2_ScanCode_t =>
            fst (create (Some sc) key_code) = PS2_PROTOCOL_OK /\
            ps2_validate_scancode (snd (create (Some sc) key_code)) = PS2_PROTOCOL_OK /\
            create None key_code = (PS2_PROTOCOL_ERROR, None))
         [ps2_create_make_code; ps2_create_break_code;
          ps2_create_extended_make_code; ps2_create_extended_break_code].
Proof.
  intros Hwf. destruct sc as [[|a [|b [|c [|d [|]]]]] len]; try discriminate Hwf.
  repeat split; repeat constructor.
Qed.

Lemma ps2_create_codes_spec_witness :
  scancode_bytes <$> snd (ps2_create_extended_break_code
                            (Some (mkScanCode [0; 0; 0; 0] 0)) 0x11)
  = Some [0xE0; 0xF0; 0x11].
Proof.
  apply (ps2_create_codes_spec (mkScanCode [0; 0; 0; 0] 0) 0x11). reflexivity.
Defined.

End ScanCodes.

(** ** The key tables *)

Section KeyTables.

(** X7. [ps2_get_common_key_scancode] knows a code (a non-zero byte)
    exactly for the keys [ps2_is_extended_key] does not mark as extended: the
    right-hand Ctrl and Alt, and the navigation keys get 0x00.  Two different
    keys never share a non-zero code, and no code collides with the prefixes
    0xE0 and 0xF0. *)
Theorem common_key_scancodes (k1 k2 : PS2_CommonKey_t) :
  (ps2_get_common_key_scancode k1 <> 0 <-> ps2_is_extended_key k1 = 0) /\
  (ps2_is_extended_key k1 = 0 \/ ps2_is_extended_key k1 = 1) /\
  0 <= ps2_get_common_key_scancode k1 < 256 /\
  ps2_get_common_key_scancode k1 <> PS2_EXTENDED_CODE_PREFIX /\
  ps2_get_common_key_scancode k1 <> PS2_BREAK_CODE_PREFIX /\
  (ps2_get_common_key_scancode k1 = ps2_get_common_key_scancode k2 ->
   ps2_get_common_key_scancode k1 <> 0 -> k1 = k2).
Proof.
  split; [|split; [|split; [|split; [|split]]]].
  - destruct k1; cbn; split; intros H; try reflexivity; try discriminate;
      try (exfalso; apply H; reflexivity).
  - destruct k1; cbn; auto.
  - destruct k1; cbn; lia.
  - destruct k1; cbn; discriminate.
  - destruct k1; cbn; discriminate.
  - destruct k1; cbn [ps2_get_common_key_scancode]; intros Heq Hne;
      try (exfalso; apply Hne; reflexivity);
      destruct k2; cbn [ps2_get_common_key_scancode] in Heq;
      first [reflexivity | discriminate Heq].
Qed.

Lemma find_in_table_entry (table : list KeyMapping_t) (key code ext : Z) :
  find_in_table table key = Some (code, ext) ->
  exists e, e ∈ table /\ usb_key e = key /\ ps2_key e = code /\ is_extended e = ext /\ key <> 0.
Proof.
  induction table as [|e table IH]; [discriminate|].
  cbn [find_in_table].
  destruct (Z.eqb_spec (usb_key e) 0) as [|Hnz]; [discriminate|].
  destruct (Z.eqb_spec (usb_key e) key) as [Hkey|Hkey].
  - intros [= <- <-]. exists e. repeat split; [left | exact Hkey | congruence].
  - intros Hfind. destruct (IH Hfind) as (e' & Hin & Hrest).
    exists e'. split; [right; exact Hin | exact Hrest].
Qed.

(** X8. The key map behind [find_ps2_scancode].  A key that is found is a
    byte from 0x04 to 0x52 (never the "no key" code 0 nor the rollover code
    1); its scan code is a non-zero byte different from the prefixes 0xE0 and
    0xF0, and its extended flag is 0 or 1.  Different keys never get the same
    scan code with the same flag, and every entry in front of the end marker
    is found under its own key (no entry shadows another). *)
Theorem find_ps2_scancode_table (key : Z) :
  (forall code ext, find_ps2_scancode key = Some (code, ext) ->
     0x04 <= key <= 0x52 /\
     0 < code < 256 /\ code <> PS2_EXTENDED_CODE_PREFIX /\ code <> PS2_BREAK_CODE_PREFIX /\
     (ext = 0 \/ ext = 1) /\
     forall key', find_ps2_scancode key' = Some (code, ext) -> key' = key) /\
  (forall e, e ∈ key_mapping_table -> usb_key e <> 0 ->
     find_ps2_scancode (usb_key e) = Some (ps2_key e, is_extended e)) /\
  (key = 0 \/ key = 1 -> find_ps2_scancode key = None).
Proof.
  assert (Forall (fun e =>
            usb_key e <> 0 ->
            (0x04 <= usb_key e <= 0x52 /\
             0 < ps2_key e < 256 /\ ps2_key e <> PS2_EXTENDED_CODE_PREFIX /\
             ps2_key e <> PS2_BREAK_CODE_PREFIX /\
             (is_extended e = 0 \/ is_extended e = 1)) /\
            find_ps2_scancode (usb_key e) = Some (ps2_key e, is_extended e) /\
            Forall (fun e' => usb_key e' <> 0 -> ps2_key e' = ps2_key e ->
                              is_extended e' = is_extended e -> usb_key e' = usb_key e)
                   key_mapping_table) key_mapping_table) as Htable.
  { apply (bool_decide_unpack _). vm_compute. exact I. }
  rewrite Forall_forall in Htable.
  split; [|split].
  - intros code ext Hfind.
    destruct (find_in_table_entry _ _ _ _ Hfind) as (e & Hin & <- & <- & <- & Hnz).
    destruct (Htable e Hin Hnz) as ((Hk & Hc & He0 & Hf0 & Hext) & _ & Hinj).
    repeat split; try assumption; try lia.
    intros key' Hfind'.
    destruct (find_in_table_entry _ _ _ _ Hfind') as (e' & Hin' & <- & Hc' & He' & Hnz').
    rewrite Forall_forall in Hinj. apply Hinj; assumption.
  - intros e Hin Hnz. apply (Htable e Hin Hnz).
  - intros [-> | ->]; reflexivity.
Qed.

End KeyTables.

(** ** Parsing reports *)

Section Parsing.

Implicit Types (r : list Z) (d : USB_HID_KeyboardData_t).

Lemma parse_keys_fold r (idx : list Z) : forall (m : Z) (kept : list Z),
  (length kept + length idx <= 6)%nat ->
  let found := filter (fun k => k <> 0 /\ k <> 1)
                      (map (fun i => byte_at r (KEYBOARD_KEY_OFFSET + i)) idx) in
  fold_left (parse_key r) idx
    (mkKeyboardData m 0 (kept ++ replicate (6 - length kept) 0) (Z.of_nat (length kept)))
  = mkKeyboardData m 0
      ((kept ++ found) ++ replicate (6 - length (kept ++ found)) 0)
      (Z.of_nat (length (kept ++ found))).
Proof.
  induction idx as [|i idx IH]; intros m kept Hroom; cbn zeta.
  - cbn. rewrite app_nil_r. reflexivity.
  - cbn [fold_left map length] in *.
    unfold parse_key at 2. cbn [modifier reserved keys key_count].
    set (k := byte_at r (KEYBOARD_KEY_OFFSET + i)).
    rewrite filter_cons.
    destruct (Z.eqb_spec k 0) as [H0|H0]; cbn [negb andb].
    { rewrite decide_False by tauto. apply IH. lia. }
    destruct (Z.eqb_spec k 1) as [H1|H1]; cbn [negb andb].
    { rewrite decide_False by tauto. apply IH. lia. }
    rewrite decide_True by tauto.
    rewrite Nat2Z.id, u8_small by lia.
    replace (<[length kept:=k]> (kept ++ replicate (6 - length kept) 0))
      with ((kept ++ [k]) ++ replicate (6 - length (kept ++ [k])) 0).
    2:{ rewrite (insert_app_r_alt kept _ (length kept) k) by lia.
        rewrite Nat.sub_diag, length_app. cbn [length].
        replace (6 - length kept)%nat with (S (6 - (length kept + 1)))%nat by lia.
        cbn [replicate]. rewrite <- app_assoc. reflexivity. }
    replace (Z.of_nat (length kept) + 1) with (Z.of_nat (length (kept ++ [k])))
      by (rewrite length_app; cbn [length]; lia).
    specialize (IH m (kept ++ [k])). cbn zeta in IH.
    rewrite IH by (rewrite length_app; cbn [length]; lia).
    rewrite <- !app_assoc. reflexivity.
Qed.

Lemma report_keys_length r : (length (report_keys r) <= 6)%nat.
Proof.
  unfold report_keys. etransitivity; [apply length_filter|].
  rewrite length_map, length_seqZ. reflexivity.
Qed.

Lemma parse_report_shape r :
  keyboard_parse_hid_report r
  = mkKeyboardData (byte_at r KEYBOARD_MODIFIER_OFFSET) 0
      (report_keys r ++ replicate (6 - length (report_keys r)) 0)
      (Z.of_nat (length (report_keys r))) /\
  0 <= key_count (keyboard_parse_hid_report r) <= USB_HID_MAX_KEYS /\
  take (Z.to_nat (key_count (keyboard_parse_hid_report r))) (keys (keyboard_parse_hid_report r))
  = report_keys r /\
  Forall (fun k => k <> 0 /\ k <> 1) (report_keys r).
Proof.
  assert (keyboard_parse_hid_report r
          = mkKeyboardData (byte_at r KEYBOARD_MODIFIER_OFFSET) 0
              (report_keys r ++ replicate (6 - length (report_keys r)) 0)
              (Z.of_nat (length (report_keys r)))) as Heq.
  { unfold keyboard_parse_hid_report, report_keys.
    apply (parse_keys_fold r (seqZ 0 KEYBOARD_MAX_KEYS) _ []). reflexivity. }
  pose proof (report_keys_length r) as Hlen.
  split; [exact Heq|]. rewrite Heq. cbn [key_count keys].
  split; [unfold USB_HID_MAX_KEYS; lia|]. split.
  - rewrite Nat2Z.id, take_app_length. reflexivity.
  - unfold report_keys. apply Forall_forall. intros k Hk.
    apply list_elem_of_filter in Hk. tauto.
Qed.

(** X9. What a report parses to, for any report: the modifier byte is byte
    0, byte 1 is ignored, and the key array holds the key bytes of positions
    2 to 7 that are neither 0 (no key) nor 1 (rollover), in report order and
    packed to the front, followed by zeros; [key_count] is their number, at
    most 6. *)
Theorem keyboard_parse_hid_report_spec r :
  keyboard_parse_hid_report r
  = mkKeyboardData (byte_at r KEYBOARD_MODIFIER_OFFSET) 0
      (report_keys r ++ replicate (6 - length (report_keys r)) 0)
      (Z.of_nat (length (report_keys r))) /\
  0 <= key_count (keyboard_parse_hid_report r) <= USB_HID_MAX_KEYS /\
  take (Z.to_nat (key_count (keyboard_parse_hid_report r))) (keys (keyboard_parse_hid_report r))
  = report_keys r /\
  Forall (fun k => k <> 0 /\ k <> 1) (report_keys r).
Proof. apply parse_report_shape. Qed.

Lemma is_key_pressed_take d (key_code : Z) :
  0 <= key_count d <= Z.of_nat (length (keys d)) ->
  keyboard_is_key_pressed (Some d) key_code
  = if decide (key_code ∈ take (Z.to_nat (key_count d)) (keys d)) then 1 else 0.
Proof.
  intros Hcount. unfold keyboard_is_key_pressed.
  destruct (existsb _ _) eqn:Hex.
  - apply existsb_exists in Hex as (i & Hi & Heq).
    apply list_elem_of_In, elem_of_seqZ in Hi. apply Z.eqb_eq in Heq.
    rewrite decide_True; [reflexivity|].
    apply elem_of_take. exists (Z.to_nat i). split; [|lia].
    unfold byte_at in Heq.
    assert (Z.to_nat i < length (keys d))%nat as Hlt by lia.
    destruct (lookup_lt_is_Some_2 _ _ Hlt) as [x Hx]. rewrite Hx in Heq |- *.
    cbn in Heq. congruence.
  - rewrite decide_False; [reflexivity|].
    intros Hin. apply elem_of_take in Hin as (i & Hi & Hlt).
    assert (existsb (fun i => byte_at (keys d) i =? key_code) (seqZ 0 (key_count d)) = true)
      as Habs; [|congruence].
    apply existsb_exists. exists (Z.of_nat i). split.
    + apply list_elem_of_In, elem_of_seqZ. lia.
    + unfold byte_at. rewrite Nat2Z.id, Hi. apply Z.eqb_refl.
Qed.

(** X10. On a parsed report, [keyboard_is_key_pressed] answers 1 exactly
    for the key bytes of positions 2 to 7 other than 0 and 1 (so never for 0
    or 1 themselves), and [keyboard_is_modifier_pressed] answers 1 exactly
    when byte 0 has a bit of the mask set; both answer 0 for a null
    snapshot. *)
Theorem parsed_report_queries r (key_code modifier_mask : Z) :
  let d := keyboard_parse_hid_report r in
  (keyboard_is_key_pressed (Some d) key_code = 1 <-> key_code ∈ report_keys r) /\
  (keyboard_is_key_pressed (Some d) key_code = 0 <-> key_code ∉ report_keys r) /\
  keyboard_is_key_pressed (Some d) 0 = 0 /\
  keyboard_is_key_pressed (Some d) 1 = 0 /\
  (keyboard_is_modifier_pressed (Some d) modifier_mask = 1 <->
   Z.land (byte_at r KEYBOARD_MODIFIER_OFFSET) modifier_mask <> 0) /\
  keyboard_is_key_pressed None key_code = 0 /\
  keyboard_is_modifier_pressed None modifier_mask = 0.
Proof.
  cbn zeta.
  destruct (parse_report_shape r) as (Heq & Hcount & Htake & Hreal).
  assert (forall k, keyboard_is_key_pressed (Some (keyboard_parse_hid_report r)) k
                    = if decide (k ∈ report_keys r) then 1 else 0) as Hq.
  { intros k. rewrite is_key_pressed_take, Htake; [reflexivity|].
    pose proof (keyboard_parse_hid_report_wf r) as Hwf. unfold snapshot_wf in Hwf.
    rewrite Hwf. unfold USB_HID_MAX_KEYS in Hcount. lia. }
  rewrite Forall_forall in Hreal.
  split; [|split; [|split; [|split; [|split; [|split]]]]]; try reflexivity.
  - rewrite Hq. destruct (decide (key_code ∈ report_keys r)); split; intros H;
      first [assumption | reflexivity | discriminate H | contradiction].
  - rewrite Hq. destruct (decide (key_code ∈ report_keys r)); split; intros H;
      first [assumption | reflexivity | discriminate H | contradiction].
  - rewrite Hq. rewrite decide_False; [reflexivity|]. intros Hin. apply Hreal in Hin. tauto.
  - rewrite Hq. rewrite decide_False; [reflexivity|]. intros Hin. apply Hreal in Hin. tauto.
  - unfold keyboard_is_modifier_pressed. rewrite Heq. cbn [modifier].
    destruct (Z.eqb_spec (Z.land (byte_at r KEYBOARD_MODIFIER_OFFSET) modifier_mask) 0);
      split; intros H; first [assumption | reflexivity | discriminate H | contradiction].
Qed.

End Parsing.

(** ** The capture queue as a FIFO *)

Section QueueFifo.

Implicit Types (st : handler_state) (d : USB_HID_KeyboardData_t) (r : list Z).

Lemma queue_contents_length st : length (queue_contents st) = Z.to_nat (buffer_count st).
Proof. unfold queue_contents. rewrite length_map, length_seqZ. reflexivity. Qed.

Lemma init_queue_wf st :
  length (keyboard_buffer st) = 16%nat -> queue_wf (snd (keyboard_handler_init st)).
Proof. intros Hlen. unfold queue_wf, KEYBOARD_BUFFER_SIZE. cbn. repeat split; (assumption || lia). Qed.

Lemma clear_queue_wf st :
  length (keyboard_buffer st) = 16%nat -> queue_wf (keyboard_handler_clear_buffer st).
Proof. intros Hlen. unfold queue_wf, KEYBOARD_BUFFER_SIZE. cbn. repeat split; (assumption || lia). Qed.

Lemma run_op_queue_wf st (op : queue_op) : queue_wf st -> queue_wf (run_op st op).
Proof.
  intros Hwf. destruct op as [|r n|d| |d|d]; cbn [run_op].
  - apply init_queue_wf, Hwf.
  - unfold keyboard_handler_process_report.
    destruct r as [r|]; [|exact Hwf].
    destruct (negb (n =? KEYBOARD_REPORT_SIZE)); [exact Hwf|].
    destruct (negb (memcmp _ _ =? 0)); [|exact Hwf].
    destruct (keyboard_buffer_is_full st) eqn:Hfull; cbn [negb snd]; [exact Hwf|].
    apply (keyboard_buffer_put_wf st (keyboard_parse_hid_report r)) in Hwf. exact Hwf.
  - unfold keyboard_handler_get_data.
    destruct d as [d|]; [|exact Hwf].
    destruct (keyboard_buffer_is_empty st); [exact Hwf|].
    pose proof (keyboard_buffer_get_wf st d Hwf) as Hwf'.
    destruct (keyboard_buffer_get st d) as [d' st']. exact Hwf'.
  - apply clear_queue_wf, Hwf.
  - apply keyboard_buffer_put_wf, Hwf.
  - apply keyboard_buffer_get_wf, Hwf.
Qed.

(** X11. The three cursors of the ring buffer stay consistent under every
    operation, in any order: the array keeps its sixteen slots, the tail is
    an index into it, and the head is always [buffer_count] slots after the
    tail, modulo 16.  So the queue holds exactly [buffer_count] snapshots, it
    is empty exactly when [keyboard_buffer_is_empty] says so and holds sixteen
    exactly when [keyboard_buffer_is_full] says so. *)
Theorem capture_queue_cursors_consistent st (ops : list queue_op) :
  queue_wf st ->
  let st' := run_ops st ops in
  queue_wf st' /\
  0 <= buffer_head st' < KEYBOARD_BUFFER_SIZE /\
  Z.of_nat (length (queue_contents st')) = buffer_count st' /\
  (keyboard_buffer_is_empty st' = true <-> queue_contents st' = []) /\
  (keyboard_buffer_is_full st' = true <-> length (queue_contents st') = 16%nat).
Proof.
  intros Hwf. cbn zeta.
  assert (queue_wf (run_ops st ops)) as Hwf'.
  { clear -Hwf. unfold run_ops. revert st Hwf.
    induction ops as [|op ops IH]; intros st Hwf; [exact Hwf|].
    cbn [fold_left]. apply IH, run_op_queue_wf, Hwf. }
  generalize dependent (run_ops st ops). clear st Hwf. intros st Hwf.
  pose proof (queue_contents_length st) as Hlen.
  destruct Hwf as (Hbuf & Htail & Hcount & Hhead).
  unfold keyboard_buffer_is_empty, keyboard_buffer_is_full, KEYBOARD_BUFFER_SIZE in *.
  split; [unfold queue_wf, KEYBOARD_BUFFER_SIZE; auto|].
  split; [rewrite Hhead; apply Z.mod_pos_bound; lia|].
  split; [lia|]. split.
  - rewrite Z.eqb_eq. split.
    + intros H0. apply queue_contents_empty, H0.
    + intros Hnil. rewrite Hnil in Hlen. cbn in Hlen. lia.
  - split; [intros Hfull; lia | intros H16; lia].
Qed.

Lemma handler_at_reset_wf : queue_wf handler_at_reset.
Proof. unfold queue_wf, KEYBOARD_BUFFER_SIZE. cbn. repeat split; lia. Qed.

Lemma capture_queue_cursors_consistent_witness :
  queue_wf (run_ops handler_at_reset
              [OpProcessReport (Some [0; 0; 4; 0; 0; 0; 0; 0]) 8;
               OpProcessReport (Some [2; 0; 4; 0; 0; 0; 0; 0]) 8;
               OpGetData (Some keyboard_data_zero)]).
Proof.
  apply (capture_queue_cursors_consistent handler_at_reset
           [OpProcessReport (Some [0; 0; 4; 0; 0; 0; 0; 0]) 8;
            OpProcessReport (Some [2; 0; 4; 0; 0; 0; 0; 0]) 8;
            OpGetData (Some keyboard_data_zero)] handler_at_reset_wf).
Defined.

Lemma get_data_facts st d :
  queue_wf st ->
  keyboard_handler_get_data st None = (KEYBOARD_NO_DATA, None, st) /\
  match queue_contents st with
  | [] => keyboard_handler_get_data st (Some d) = (KEYBOARD_NO_DATA, Some d, st)
  | oldest :: others =>
      exists st',
        keyboard_handler_get_data st (Some d) = (KEYBOARD_DATA_AVAILABLE, Some oldest, st') /\
        queue_contents st' = others /\
        last_keyboard_state st' = last_keyboard_state st /\
        buffer_count st' = buffer_count st - 1 /\
        queue_wf st'
  end.
Proof.
  intros Hwf. split; [reflexivity|].
  destruct (queue_contents st) as [|oldest others] eqn:Hq.
  - unfold keyboard_handler_get_data.
    pose proof (queue_contents_length st) as Hlen. rewrite Hq in Hlen. cbn in Hlen.
    destruct Hwf as (_ & _ & Hcount & _).
    unfold keyboard_buffer_is_empty.
    replace (buffer_count st) with 0 by lia. reflexivity.
  - destruct (keyboard_buffer_get_contents st d oldest others Hwf Hq) as (Hget & Hq' & Hcount').
    pose proof (keyboard_buffer_get_wf st d Hwf) as Hwf'.
    unfold keyboard_handler_get_data.
    assert (keyboard_buffer_is_empty st = false) as Hne.
    { unfold keyboard_buffer_is_empty. apply Z.eqb_neq. intros H0.
      rewrite (queue_contents_empty st H0) in Hq. discriminate. }
    rewrite Hne.
    assert (last_keyboard_state (snd (keyboard_buffer_get st d)) = last_keyboard_state st)
      as Hlast.
    { unfold keyboard_buffer_get. rewrite Hne. reflexivity. }
    destruct (keyboard_buffer_get st d) as [d' st1]. cbn [fst snd] in *. subst d'.
    exists st1. split; [reflexivity|]. split; [exact Hq'|]. split; [exact Hlast|].
    split; [exact Hcount' | exact Hwf'].
Qed.

(** X12. [keyboard_handler_get_data] is the FIFO's dequeue.  On an empty
    queue, or with a null destination, it answers [KEYBOARD_NO_DATA] and
    changes nothing, the caller's snapshot included.  Otherwise it answers
    [KEYBOARD_DATA_AVAILABLE], hands out the oldest snapshot and leaves the
    others queued in the same order; the snapshot captured last is not
    affected. *)
Theorem keyboard_handler_get_data_fifo st d :
  queue_wf st ->
  keyboard_handler_get_data st None = (KEYBOARD_NO_DATA, None, st) /\
  match queue_contents st with
  | [] => keyboard_handler_get_data st (Some d) = (KEYBOARD_NO_DATA, Some d, st)
  | oldest :: others =>
      exists st',
        keyboard_handler_get_data st (Some d) = (KEYBOARD_DATA_AVAILABLE, Some oldest, st') /\
        queue_contents st' = others /\
        last_keyboard_state st' = last_keyboard_state st /\
        buffer_count st' = buffer_count st - 1 /\
        queue_wf st'
  end.
Proof. apply get_data_facts. Qed.

Lemma keyboard_handler_get_data_fifo_witness :
  keyboard_handler_get_data handler_at_reset (Some keyboard_data_zero)
  = (KEYBOARD_NO_DATA, Some keyboard_data_zero, handler_at_reset).
Proof.
  apply (keyboard_handler_get_data_fifo handler_at_reset keyboard_data_zero handler_at_reset_wf).
Defined.

(** X13. [keyboard_handler_process_report] in full.  It answers
    [KEYBOARD_HANDLER_ERROR] exactly for a null report or a size other than
    8, and whenever it does not answer OK the handler is unchanged.  For an
    8-byte report: if it parses to the snapshot captured last, nothing
    happens (OK); otherwise, if fewer than sixteen snapshots are queued, the
    parsed snapshot is appended behind the queued ones and becomes the
    snapshot captured last (OK); otherwise the answer is
    [KEYBOARD_HANDLER_BUFFER_FULL]. *)
Theorem keyboard_handler_process_report_spec st (report : option (list Z)) (report_size : Z) :
  queue_wf st -> snapshot_wf (last_keyboard_state st) ->
  let ret := fst (keyboard_handler_process_report st report report_size) in
  let st' := snd (keyboard_handler_process_report st report report_size) in
  (ret = KEYBOARD_HANDLER_ERROR <-> report = None \/ report_size <> KEYBOARD_REPORT_SIZE) /\
  (ret <> KEYBOARD_HANDLER_OK -> st' = st) /\
  (forall r, report = Some r -> report_size = KEYBOARD_REPORT_SIZE ->
     if decide (keyboard_parse_hid_report r = last_keyboard_state st)
     then ret = KEYBOARD_HANDLER_OK /\ st' = st
     else if decide (buffer_count st < KEYBOARD_BUFFER_SIZE)
     then ret = KEYBOARD_HANDLER_OK /\
          queue_contents st' = queue_contents st ++ [keyboard_parse_hid_report r] /\
          last_keyboard_state st' = keyboard_parse_hid_report r /\
          queue_wf st'
     else ret = KEYBOARD_HANDLER_BUFFER_FULL /\ st' = st).
Proof.
  intros Hwf Hlast. cbn zeta.
  destruct report as [r|].
  2:{ cbn. split; [split; auto|]. split; [reflexivity|]. intros r Hr. discriminate Hr. }
  destruct (Z.eq_dec report_size KEYBOARD_REPORT_SIZE) as [->|Hsize].
  2:{ unfold keyboard_handler_process_report.
      destruct (Z.eqb_spec report_size KEYBOARD_REPORT_SIZE) as [|_]; [contradiction|].
      cbn. split; [split; auto|]. split; [reflexivity|]. intros r' _ Hs. contradiction. }
  assert (forall P : Prop, (Some r = None \/ KEYBOARD_REPORT_SIZE <> KEYBOARD_REPORT_SIZE) -> P)
    as Hnever by (intros P [H|H]; [discriminate H | contradiction]).
  destruct (decide (keyboard_parse_hid_report r = last_keyboard_state st)) as [Hsame|Hnew].
  - assert (keyboard_handler_process_report st (Some r) KEYBOARD_REPORT_SIZE
            = (KEYBOARD_HANDLER_OK, st)) as ->.
    { unfold keyboard_handler_process_report.
      rewrite Z.eqb_refl. cbn [negb]. rewrite Hsame, memcmp_same. reflexivity. }
    cbn [fst snd]. split; [split; [discriminate | apply Hnever]|].
    split; [reflexivity|]. intros r' [= <-] _. rewrite decide_True by exact Hsame. auto.
  - destruct (decide (buffer_count st < KEYBOARD_BUFFER_SIZE)) as [Hroom|Hfull].
    + destruct (process_report_new st r Hwf Hlast Hnew Hroom)
        as (st1 & -> & Hq & Hl & Hwf1 & _).
      cbn [fst snd]. split; [split; [discriminate | apply Hnever]|].
      split; [intros Hne; contradiction|].
      intros r' [= <-] _. rewrite decide_False by exact Hnew. auto.
    + rewrite (process_report_full st r Hlast Hnew) by lia.
      cbn [fst snd]. split; [split; [discriminate | apply Hnever]|].
      split; [reflexivity|].
      intros r' [= <-] _. rewrite decide_False by exact Hnew. auto.
Qed.

Lemma keyboard_handler_process_report_spec_witness :
  fst (keyboard_handler_process_report handler_at_reset (Some [0; 0; 4; 0; 0; 0; 0; 0]) 7)
  = KEYBOARD_HANDLER_ERROR.
Proof.
  apply (keyboard_handler_process_report_spec handler_at_reset
           (Some [0; 0; 4; 0; 0; 0; 0; 0]) 7 handler_at_reset_wf eq_refl).
  right. discriminate.
Defined.

(** X14. Clearing and initialising both empty the queue, but they differ in
    what they remember.  [keyboard_handler_clear_buffer] keeps the snapshot
    captured last, so a report showing that same state right after a clear is
    still taken as "no change" and is not queued.  [keyboard_handler_init]
    resets it to the all-released snapshot, so the first report showing any
    key or modifier is queued. *)
Theorem clear_keeps_last_snapshot_init_forgets st r :
  queue_wf st ->
  let cleared := keyboard_handler_clear_buffer st in
  let fresh := snd (keyboard_handler_init st) in
  queue_contents cleared = [] /\ queue_wf cleared /\
  last_keyboard_state cleared = last_keyboard_state st /\
  (keyboard_parse_hid_report r = last_keyboard_state st ->
   keyboard_handler_process_report cleared (Some r) KEYBOARD_REPORT_SIZE
   = (KEYBOARD_HANDLER_OK, cleared)) /\
  queue_contents fresh = [] /\ queue_wf fresh /\
  last_keyboard_state fresh = keyboard_data_zero /\
  (keyboard_parse_hid_report r <> keyboard_data_zero ->
   fst (keyboard_handler_process_report fresh (Some r) KEYBOARD_REPORT_SIZE)
     = KEYBOARD_HANDLER_OK /\
   queue_contents (snd (keyboard_handler_process_report fresh (Some r) KEYBOARD_REPORT_SIZE))
     = [keyboard_parse_hid_report r]).
Proof.
  intros Hwf. cbn zeta.
  pose proof (clear_queue_wf st (proj1 Hwf)) as Hc.
  pose proof (init_queue_wf st (proj1 Hwf)) as Hi.
  split; [reflexivity|]. split; [exact Hc|]. split; [reflexivity|]. split.
  { intros Hsame. unfold keyboard_handler_process_report.
    rewrite Z.eqb_refl. cbn [negb].
    change (last_keyboard_state (keyboard_handler_clear_buffer st))
      with (last_keyboard_state st).
    rewrite Hsame, memcmp_same. reflexivity. }
  split; [reflexivity|]. split; [exact Hi|]. split; [reflexivity|].
  intros Hnew.
  destruct (process_report_new (snd (keyboard_handler_init st)) r Hi eq_refl Hnew)
    as (st1 & -> & Hq & _); [cbn; unfold KEYBOARD_BUFFER_SIZE; lia|].
  split; [reflexivity | exact Hq].
Qed.

Lemma clear_keeps_last_snapshot_init_forgets_witness :
  queue_contents (keyboard_handler_clear_buffer handler_at_reset) = [].
Proof.
  apply (clear_keeps_last_snapshot_init_forgets handler_at_reset [0; 0; 0; 0; 0; 0; 0; 0]
           handler_at_reset_wf).
Defined.

End QueueFifo.

(** ** What a translation call returns *)

Section TranslatorEvents.

Implicit Types (stack : list PS2_ScanCode_t) (out : PS2_ScanCode_t)
  (st : translator_state) (last current from other : USB_HID_KeyboardData_t)
  (b : translation_buffer) (evs : list (list Z)).

Lemma builds_make (extended : bool) (code : Z) :
  builds (fun p => if extended then ps2_create_extended_make_code p code
                   else ps2_create_make_code p code) (make_bytes extended code).
Proof.
  split; [destruct extended; cbn; lia|].
  intros [[|x0 [|x1 [|x2 [|x3 [|]]]]] len] Hwf; try discriminate Hwf.
  destruct extended; eexists; repeat split.
Qed.

Lemma builds_break (extended : bool) (code : Z) :
  builds (fun p => if extended then ps2_create_extended_break_code p code
                   else ps2_create_break_code p code) (break_bytes extended code).
Proof.
  split; [destruct extended; cbn; lia|].
  intros [[|x0 [|x1 [|x2 [|x3 [|]]]]] len] Hwf; try discriminate Hwf.
  destruct extended; eexists; repeat split.
Qed.

Lemma store_keeps_slot0 create (index : Z) b evs (e : list Z) :
  slot0_holds b evs -> builds create e ->
  0 <= index -> (evs = [] <-> index = 0) ->
  slot0_holds (store_scancode create index b) (evs ++ [e]).
Proof.
  intros (sc & Hsc & Hwf & Hev) [Hlen Hbuild] Hidx Hfirst.
  unfold slot0_holds, store_scancode. cbn [temp_scancodes].
  destruct evs as [|e0 evs].
  - assert (index = 0) as -> by (apply Hfirst; reflexivity).
    change (Z.to_nat 0) with 0%nat. rewrite Hsc.
    destruct (Hbuild sc Hwf) as (sc' & -> & Hwf' & Hbytes & Hl).
    exists sc'. split; [|cbn [app]; auto].
    apply list_lookup_insert_eq. apply lookup_lt_Some in Hsc. exact Hsc.
  - assert (index <> 0) as Hnz by (intros H0; apply Hfirst in H0; discriminate H0).
    exists sc. split; [|split; [exact Hwf | exact Hev]].
    destruct (temp_scancodes b !! Z.to_nat index) as [sci|]; [|exact Hsc].
    destruct (snd (create (Some sci))) as [sc'|]; [|exact Hsc].
    rewrite list_lookup_insert_ne by lia. exact Hsc.
Qed.

Lemma modifier_step_events (mask code : Z) (extended : bool) (old_modifier new_modifier : Z)
    (bc : translation_buffer * Z) evs :
  slot0_holds (fst bc) evs -> snd bc = Z.of_nat (length evs) -> (length evs <= 100)%nat ->
  let bc' := modifier_step mask code extended 0 old_modifier new_modifier bc in
  let evs' := evs ++ modifier_event old_modifier new_modifier (mask, code, extended) in
  slot0_holds (fst bc') evs' /\ snd bc' = Z.of_nat (length evs').
Proof.
  intros Hslot Hcount Hsmall. cbn zeta. unfold modifier_step, modifier_event.
  destruct (Z.land (Z.lxor old_modifier new_modifier) mask =? 0).
  { rewrite app_nil_r. auto. }
  cbn [fst snd]. split.
  - apply store_keeps_slot0; [exact Hslot | | lia |].
    + destruct (Z.land new_modifier mask =? 0); [apply builds_break | apply builds_make].
    + rewrite Hcount. destruct evs; cbn [length]; split; intros H; (reflexivity || discriminate || lia).
  - rewrite length_app. cbn [length]. rewrite u8_small by lia. lia.
Qed.

Lemma translate_modifier_keys_events old_modifier new_modifier b :
  slot0_holds b [] ->
  exists b',
    translate_modifier_keys old_modifier new_modifier 0 b 0
    = (TRANSLATOR_OK, b', Z.of_nat (length (modifier_event_list old_modifier new_modifier))) /\
    slot0_holds b' (modifier_event_list old_modifier new_modifier) /\
    (length (modifier_event_list old_modifier new_modifier) <= 6)%nat.
Proof.
  intros Hslot. unfold translate_modifier_keys, modifier_event_list, modifier_codes.
  cbn [map concat]. rewrite app_nil_r.
  set (e1 := modifier_event old_modifier new_modifier (USB_HID_MODIFIER_LEFT_CTRL, 20, false)).
  set (e2 := modifier_event old_modifier new_modifier (USB_HID_MODIFIER_LEFT_SHIFT, 18, false)).
  set (e3 := modifier_event old_modifier new_modifier (USB_HID_MODIFIER_LEFT_ALT, 17, false)).
  set (e4 := modifier_event old_modifier new_modifier (USB_HID_MODIFIER_RIGHT_SHIFT, 89, false)).
  set (e5 := modifier_event old_modifier new_modifier (USB_HID_MODIFIER_RIGHT_CTRL, 20, true)).
  set (e6 := modifier_event old_modifier new_modifier (USB_HID_MODIFIER_RIGHT_ALT, 17, true)).
  assert (forall m, (length (modifier_event old_modifier new_modifier m) <= 1)%nat) as Hle.
  { intros [[mask code] ext]. unfold modifier_event. destruct (_ =? 0); cbn; lia. }
  pose proof (Hle (USB_HID_MODIFIER_LEFT_CTRL, 20, false)) as H1. fold e1 in H1.
  pose proof (Hle (USB_HID_MODIFIER_LEFT_SHIFT, 18, false)) as H2. fold e2 in H2.
  pose proof (Hle (USB_HID_MODIFIER_LEFT_ALT, 17, false)) as H3. fold e3 in H3.
  pose proof (Hle (USB_HID_MODIFIER_RIGHT_SHIFT, 89, false)) as H4. fold e4 in H4.
  pose proof (Hle (USB_HID_MODIFIER_RIGHT_CTRL, 20, true)) as H5. fold e5 in H5.
  pose proof (Hle (USB_HID_MODIFIER_RIGHT_ALT, 17, true)) as H6. fold e6 in H6.
  destruct (modifier_step_events USB_HID_MODIFIER_LEFT_CTRL 20 false old_modifier new_modifier
              (b, 0) [] Hslot eq_refl ltac:(cbn; lia)) as [S1 C1].
  cbn zeta in S1, C1. cbn [app] in S1, C1. fold e1 in S1, C1.
  destruct (modifier_step_events USB_HID_MODIFIER_LEFT_SHIFT 18 false old_modifier new_modifier
              _ e1 S1 C1 ltac:(lia)) as [S2 C2].
  cbn zeta in S2, C2. fold e2 in S2, C2.
  destruct (modifier_step_events USB_HID_MODIFIER_LEFT_ALT 17 false old_modifier new_modifier
              _ (e1 ++ e2) S2 C2 ltac:(rewrite length_app; lia)) as [S3 C3].
  cbn zeta in S3, C3. fold e3 in S3, C3.
  destruct (modifier_step_events USB_HID_MODIFIER_RIGHT_SHIFT 89 false old_modifier new_modifier
              _ ((e1 ++ e2) ++ e3) S3 C3 ltac:(rewrite !length_app; lia)) as [S4 C4].
  cbn zeta in S4, C4. fold e4 in S4, C4.
  destruct (modifier_step_events USB_HID_MODIFIER_RIGHT_CTRL 20 true old_modifier new_modifier
              _ (((e1 ++ e2) ++ e3) ++ e4) S4 C4 ltac:(rewrite !length_app; lia)) as [S5 C5].
  cbn zeta in S5, C5. fold e5 in S5, C5.
  destruct (modifier_step_events USB_HID_MODIFIER_RIGHT_ALT 17 true old_modifier new_modifier
              _ ((((e1 ++ e2) ++ e3) ++ e4) ++ e5) S5 C5 ltac:(rewrite !length_app; lia))
    as [S6 C6].
  cbn zeta in S6, C6. fold e6 in S6, C6.
  rewrite <- !app_assoc in S6, C6.
  assert (length (e1 ++ e2 ++ e3 ++ e4 ++ e5 ++ e6) <= 6)%nat as Hsix
    by (rewrite !length_app; lia).
  eexists. split; [|split; [exact S6 | exact Hsix]].
  rewrite C6. unfold MAX_TRANSLATION_BUFFER.
  destruct (Z.gtb_spec (Z.of_nat (length (e1 ++ e2 ++ e3 ++ e4 ++ e5 ++ e6))) 8); [lia|].
  reflexivity.
Qed.

Lemma scan_keys_events create create_ext (bytes_of : bool -> Z -> list Z)
    from other (base initial_count : Z) (idx : list Z) :
  (forall code, builds (fun p => create p code) (bytes_of false code)) ->
  (forall code, builds (fun p => create_ext p code) (bytes_of true code)) ->
  0 <= base ->
  forall b (count : Z) evs b' (count' : Z),
  slot0_holds b evs -> count = Z.of_nat (length evs) -> base <= count ->
  count < MAX_TRANSLATION_BUFFER ->
  scan_keys create create_ext from other base initial_count idx b count
    = (TRANSLATOR_OK, b', count') ->
  slot0_holds b' (evs ++ key_event_list bytes_of from other idx) /\
  count' = Z.of_nat (length (evs ++ key_event_list bytes_of from other idx)) /\
  count' < MAX_TRANSLATION_BUFFER.
Proof.
  intros Hplain Hext Hbase. unfold MAX_TRANSLATION_BUFFER.
  induction idx as [|i idx IH]; intros b count evs b' count' Hslot Hcount Hle Hsmall.
  - cbn [scan_keys]. intros [= <- <-]. unfold key_event_list. cbn. rewrite app_nil_r. auto.
  - cbn [scan_keys]. unfold key_event_list. cbn [map concat].
    fold (key_event_list bytes_of from other idx). unfold key_event.
    destruct (is_key_in_array _ _ _); cbn [negb app].
    { apply IH; assumption. }
    destruct (find_ps2_scancode _) as [[code ext]|]; [|apply IH; assumption].
    rewrite u8_small by lia. unfold MAX_TRANSLATION_BUFFER.
    destruct (Z.geb_spec (count + 1) 8) as [|Hroom]; [discriminate|].
    intros Hrun. rewrite app_assoc.
    eapply (IH _ (count + 1) (evs ++ [bytes_of (negb (ext =? 0)) code]));
      [| |lia|lia|exact Hrun].
    + apply store_keeps_slot0; [exact Hslot | | lia |].
      * destruct (Z.eqb_spec ext 0); cbn [negb]; [apply Hplain | apply Hext].
      * rewrite Hcount in Hle |- *. destruct evs; cbn [length] in *;
          split; intros H; (reflexivity || discriminate || lia).
    + rewrite length_app. cbn [length]. lia.
Qed.

Lemma length_concat_map {A} (f : A -> list (list Z)) (g : A -> Z) (l : list A) :
  (forall x, Z.of_nat (length (f x)) = g x) ->
  Z.of_nat (length (concat (map f l))) = sumZ (map g l).
Proof.
  intros Hfg. induction l as [|x l IH]; [reflexivity|].
  cbn [map concat sumZ fold_right]. rewrite length_app, Nat2Z.inj_add, Hfg, IH. reflexivity.
Qed.

Lemma expected_events_length last current :
  Z.of_nat (length (modifier_event_list (modifier last) (modifier current)))
    = modifier_events (modifier last) (modifier current) /\
  Z.of_nat (length (key_event_list break_bytes last current (seqZ 0 (key_count last))))
    = key_events last current /\
  Z.of_nat (length (key_event_list make_bytes current last (seqZ 0 (key_count current))))
    = key_events current last /\
  Z.of_nat (length (expected_events last current)) = diff_events last current.
Proof.
  assert (forall bytes_of from other idx,
            Z.of_nat (length (key_event_list bytes_of from other idx))
            = count_key_events from other idx) as Hkeys.
  { intros bytes_of from other idx. unfold key_event_list, count_key_events.
    apply length_concat_map. intros i. unfold key_event, key_is_event.
    destruct (is_key_in_array _ _ _); [reflexivity|].
    destruct (find_ps2_scancode _) as [[code ext]|]; reflexivity. }
  assert (Z.of_nat (length (modifier_event_list (modifier last) (modifier current)))
          = modifier_events (modifier last) (modifier current)) as Hmod.
  { unfold modifier_event_list, modifier_events, modifier_codes, handled_modifiers.
    cbn [map concat sumZ fold_right]. unfold modifier_event.
    rewrite !length_app.
    repeat match goal with |- context [Z.land ?x ?m =? 0] =>
      destruct (Z.land x m =? 0) end; reflexivity. }
  split; [exact Hmod|]. split; [apply Hkeys|]. split; [apply Hkeys|].
  unfold expected_events, diff_events, key_events.
  rewrite !length_app, !Nat2Z.inj_add, !Hkeys, Hmod. lia.
Qed.

Lemma stack_slot0 stack : stack_wf stack -> slot0_holds (mkBuffer stack []) [].
Proof.
  intros [Hlen Hall]. destruct stack as [|s0 stack]; [discriminate Hlen|].
  apply Forall_cons in Hall as [Hs0 _]. exists s0. cbn. auto.
Qed.

Lemma copy_first_event out sc (e : list Z) :
  scancode_wf out -> scancode_wf sc ->
  scancode_bytes sc = e -> sc_length sc = Z.of_nat (length e) -> (1 <= length e <= 3)%nat ->
  exists out', snd (ps2_copy_scancode (Some out) (Some sc)) = Some out' /\
    scancode_wf out' /\
    scancode_bytes out' = e /\ sc_length out' = Z.of_nat (length e).
Proof.
  intros Hout Hsc Hbytes Hlen He. unfold ps2_copy_scancode.
  assert (ps2_validate_scancode (Some sc) = PS2_PROTOCOL_OK) as ->.
  { apply validate_ok_iff. exists sc. unfold PS2_MAX_SCANCODE_LENGTH.
    split; [reflexivity | lia]. }
  eexists. split; [reflexivity|]. cbn [sc_length data snd].
  split; [unfold scancode_wf; cbn [data]; rewrite copy_data_length; exact Hout|].
  split; [|exact Hlen].
  unfold scancode_wf in Hout, Hsc.
  destruct (copy_data_take_drop (data sc) (data out) (sc_length sc)) as [Htake _]; try lia.
  unfold scancode_bytes in *. cbn [sc_length data]. rewrite Htake. exact Hbytes.
Qed.

Lemma translate_first_event_facts stack st current out :
  translator_status st = TRANSLATOR_READY -> stack_wf stack -> scancode_wf out ->
  let r := scancode_translator_usb_to_ps2 stack st (Some current) (Some out) in
  let events := expected_events (last_usb_state st) current in
  tr_ret r = TRANSLATOR_OK ->
  exists out',
    tr_scancode r = Some out' /\ scancode_wf out' /\
    scancode_bytes out' = List.hd [] events /\
    sc_length out' = Z.of_nat (length (List.hd [] events)) /\
    (length (List.hd [] events) <= 3)%nat /\
    (events = [] <-> sc_length out' = 0) /\
    tr_state r = mkTranslator TRANSLATOR_READY current.
Proof.
  intros Hready Hstack Hout. cbn zeta.
  unfold scancode_translator_usb_to_ps2, expected_events.
  rewrite decide_True by exact Hready.
  destruct (translate_modifier_keys_events (modifier (last_usb_state st)) (modifier current)
              (mkBuffer stack []) (stack_slot0 stack Hstack)) as (b1 & -> & S1 & Hm).
  set (em := modifier_event_list (modifier (last_usb_state st)) (modifier current)) in *.
  unfold translate_regular_keys.
  destruct (scan_keys ps2_create_break_code ps2_create_extended_break_code
              (last_usb_state st) current (Z.of_nat (length em)) (Z.of_nat (length em))
              (seqZ 0 (key_count (last_usb_state st))) b1 (Z.of_nat (length em)))
    as [[s2 b2] c2] eqn:Hrel.
  destruct s2; try discriminate.
  assert (0 <= Z.of_nat (length em)) as Hbase by lia.
  assert (Z.of_nat (length em) < MAX_TRANSLATION_BUFFER) as Hsmall
    by (unfold MAX_TRANSLATION_BUFFER; lia).
  destruct (scan_keys_events ps2_create_break_code ps2_create_extended_break_code break_bytes
              (last_usb_state st) current (Z.of_nat (length em)) (Z.of_nat (length em))
              (seqZ 0 (key_count (last_usb_state st)))
              (fun code => builds_break false code) (fun code => builds_break true code)
              Hbase b1 (Z.of_nat (length em)) em b2 c2 S1 eq_refl (Z.le_refl _) Hsmall Hrel)
    as (S2 & C2 & Hc2).
  set (er := key_event_list break_bytes (last_usb_state st) current
               (seqZ 0 (key_count (last_usb_state st)))) in *.
  destruct (scan_keys ps2_create_make_code ps2_create_extended_make_code
              current (last_usb_state st) (Z.of_nat (length em)) (Z.of_nat (length em))
              (seqZ 0 (key_count current)) b2 c2) as [[s3 b3] c3] eqn:Hpress.
  destruct s3; try discriminate.
  assert (Z.of_nat (length em) <= c2) as Hle2 by (rewrite C2, length_app; lia).
  destruct (scan_keys_events ps2_create_make_code ps2_create_extended_make_code make_bytes
              current (last_usb_state st) (Z.of_nat (length em)) (Z.of_nat (length em))
              (seqZ 0 (key_count current))
              (fun code => builds_make false code) (fun code => builds_make true code)
              Hbase b2 c2 (em ++ er) b3 c3 S2 C2 Hle2 Hc2 Hpress) as (S3 & C3 & Hc3).
  set (ep := key_event_list make_bytes current (last_usb_state st)
               (seqZ 0 (key_count current))) in *.
  rewrite <- app_assoc in S3, C3.
  cbn [tr_ret tr_scancode tr_state last_usb_state]. intros _.
  destruct (em ++ er ++ ep) as [|e evs] eqn:Hev.
  - cbn [length] in C3. subst c3. cbn. rewrite Hready.
    eexists. split; [reflexivity|]. split; [exact Hout|]. cbn. repeat split; lia.
  - destruct S3 as (sc & Hsc & Hwf & Hbytes & Hlen & He).
    cbn [length] in C3.
    destruct (Z.gtb_spec c3 0) as [_|Hbad]; [|lia].
    rewrite (list_lookup_total_correct _ _ _ Hsc).
    destruct (copy_first_event out sc e Hout Hwf Hbytes Hlen He)
      as (out' & -> & Hwf' & Hb' & Hl').
    cbn [List.hd]. rewrite Hready.
    exists out'. split; [reflexivity|]. split; [exact Hwf'|]. split; [exact Hb'|].
    split; [exact Hl'|]. split; [lia|]. split; [|reflexivity].
    split; [discriminate | intros H0; lia].
Qed.

(** X15. What a successful translation call hands back, when its stores
    stay inside [temp_scancodes] and both snapshots have at most six keys.
    The difference between the last translated snapshot and the current one
    stands for a list of events: the changed modifiers in the order Left-Ctrl,
    Left-Shift, Left-Alt, Right-Shift, Right-Ctrl, Right-Alt (make when the bit
    is now set, break when it is now clear, extended for the two right-hand
    ones), then a break code for every mapped key that went away, then a make
    code for every mapped key that appeared.  The call returns the first of
    these events, and the empty sequence when there is none; the other events
    are not returned, and the current snapshot becomes the last translated one
    all the same. *)
Theorem translate_returns_first_event stack st current out :
  translator_status st = TRANSLATOR_READY -> stack_wf stack -> scancode_wf out ->
  snapshot_in_range (last_usb_state st) -> snapshot_in_range current ->
  let r := scancode_translator_usb_to_ps2 stack st (Some current) (Some out) in
  let events := expected_events (last_usb_state st) current in
  writes_in_bounds r ->
  tr_ret r = TRANSLATOR_OK ->
  scancode_bytes <$> tr_scancode r = Some (List.hd [] events) /\
  sc_length <$> tr_scancode r = Some (Z.of_nat (length (List.hd [] events))) /\
  (events = [] <-> sc_length <$> tr_scancode r = Some 0) /\
  last_usb_state (tr_state r) = current.
Proof.
  intros Hready Hstack Hout _ _ r events _ Hok.
  destruct (translate_first_event_facts stack st current out Hready Hstack Hout Hok)
    as (out' & Hsc & _ & Hbytes & Hlen & _ & Hnil & Hst).
  fold r in Hsc, Hst. fold events in Hbytes, Hlen, Hnil. clearbody r events.
  rewrite Hsc, Hst. cbn. rewrite Hbytes, Hlen.
  split; [reflexivity|]. split; [reflexivity|]. split; [|reflexivity].
  split; intros H.
  - apply Hnil in H. rewrite <- Hlen, H. reflexivity.
  - injection H as H. apply Hnil. rewrite Hlen. exact H.
Qed.

Lemma translate_returns_first_event_witness :
  let r := scancode_translator_usb_to_ps2 zero_stack translator_ready
             (Some (snapshot_of_keys 0x42 [0x4F; 0x04])) (Some (mkScanCode [0; 0; 0; 0] 0)) in
  tr_ret r = TRANSLATOR_OK /\
  tr_writes r = [0; 1; 4; 5] /\
  scancode_bytes <$> tr_scancode r
  = Some (List.hd [] (expected_events keyboard_data_zero (snapshot_of_keys 0x42 [0x4F; 0x04]))).
Proof.
  split; [reflexivity|]. split; [reflexivity|].
  apply (translate_returns_first_event zero_stack translator_ready
           (snapshot_of_keys 0x42 [0x4F; 0x04]) (mkScanCode [0; 0; 0; 0] 0)).
  - reflexivity.
  - exact zero_stack_wf.
  - reflexivity.
  - evaluate.
  - evaluate.
  - evaluate.
  - reflexivity.
Defined.

End TranslatorEvents.

(** ** Where a translation call stores, and when it fails *)

Section TranslatorStores.

Implicit Types (stack : list PS2_ScanCode_t) (out : PS2_ScanCode_t)
  (st : translator_state) (last current from other : USB_HID_KeyboardData_t)
  (b : translation_buffer).

Lemma scan_keys_writes create create_ext from other (base initial_count : Z) (idx : list Z) :
  forall b (count : Z),
  0 <= count < MAX_TRANSLATION_BUFFER ->
  writes (snd (fst (scan_keys create create_ext from other base initial_count idx b count)))
  = writes b ++ seqZ (base + count)
                     (Z.min (count_key_events from other idx) (MAX_TRANSLATION_BUFFER - count)).
Proof.
  unfold MAX_TRANSLATION_BUFFER.
  induction idx as [|i idx IH]; intros b count Hcount.
  - cbn. rewrite seqZ_nil by lia. rewrite app_nil_r. reflexivity.
  - pose proof (count_key_events_nonneg from other idx) as Hnn.
    cbn [scan_keys].
    replace (count_key_events from other (i :: idx))
      with ((if key_is_event from other i then 1 else 0) + count_key_events from other idx)
      by reflexivity.
    unfold key_is_event.
    destruct (is_key_in_array _ _ _); cbn [negb andb].
    { rewrite Z.add_0_l. apply IH, Hcount. }
    destruct (find_ps2_scancode _) as [[code ext]|];
      [|rewrite Z.add_0_l; apply IH, Hcount].
    rewrite u8_small by lia. unfold MAX_TRANSLATION_BUFFER.
    destruct (Z.geb_spec (count + 1) 8) as [Hfull|Hroom].
    + cbn [fst snd store_scancode writes].
      replace (Z.min (1 + count_key_events from other idx) (8 - count)) with 1 by lia.
      reflexivity.
    + rewrite IH by lia. cbn [store_scancode writes]. rewrite <- app_assoc. f_equal.
      rewrite (seqZ_cons (base + count)) by lia. cbn [app]. f_equal. f_equal; lia.
Qed.

Lemma translate_regular_keys_writes last current (base : Z) b (count : Z) :
  0 <= count < MAX_TRANSLATION_BUFFER ->
  writes (snd (fst (translate_regular_keys last current base b count)))
  = writes b ++ seqZ (base + count)
                     (Z.min (regular_key_events last current) (MAX_TRANSLATION_BUFFER - count)).
Proof.
  intros Hcount. unfold translate_regular_keys, regular_key_events, key_events.
  set (k1 := count_key_events last current (seqZ 0 (key_count last))).
  set (k2 := count_key_events current last (seqZ 0 (key_count current))).
  pose proof (count_key_events_nonneg last current (seqZ 0 (key_count last))) as H1.
  pose proof (count_key_events_nonneg current last (seqZ 0 (key_count current))) as H2.
  fold k1 in H1. fold k2 in H2.
  pose proof (scan_keys_writes ps2_create_break_code ps2_create_extended_break_code
                last current base count (seqZ 0 (key_count last)) b count Hcount) as Hw1.
  destruct (scan_keys_count ps2_create_break_code ps2_create_extended_break_code
              last current base count (seqZ 0 (key_count last)) b count Hcount) as [b1 Hrun1].
  rewrite Hrun1 in Hw1 |- *. fold k1 in Hw1 |- *.
  unfold MAX_TRANSLATION_BUFFER in *.
  destruct (Z.ltb_spec (count + k1) 8) as [Hroom|Hfull]; cbn [fst snd] in Hw1 |- *.
  - rewrite scan_keys_writes by (unfold MAX_TRANSLATION_BUFFER; lia).
    fold k2. rewrite Hw1, <- app_assoc. f_equal. unfold MAX_TRANSLATION_BUFFER.
    replace (Z.min k1 (8 - count)) with k1 by lia.
    replace (Z.min (k1 + k2) (8 - count)) with (k1 + Z.min k2 (8 - (count + k1))) by lia.
    rewrite (seqZ_app (base + count) k1) by lia. f_equal. f_equal. lia.
  - rewrite Hw1. f_equal. f_equal. lia.
Qed.

Lemma translate_modifier_keys_writes old_modifier new_modifier stack :
  exists b',
    translate_modifier_keys old_modifier new_modifier 0 (mkBuffer stack []) 0
    = (TRANSLATOR_OK, b', modifier_events old_modifier new_modifier) /\
    writes b' = seqZ 0 (modifier_events old_modifier new_modifier) /\
    0 <= modifier_events old_modifier new_modifier <= 6.
Proof.
  unfold translate_modifier_keys, modifier_events, modifier_step, handled_modifiers.
  cbn [map sumZ fold_right fst snd].
  destruct (Z.land (Z.lxor old_modifier new_modifier) USB_HID_MODIFIER_LEFT_CTRL =? 0),
    (Z.land (Z.lxor old_modifier new_modifier) USB_HID_MODIFIER_LEFT_SHIFT =? 0),
    (Z.land (Z.lxor old_modifier new_modifier) USB_HID_MODIFIER_LEFT_ALT =? 0),
    (Z.land (Z.lxor old_modifier new_modifier) USB_HID_MODIFIER_RIGHT_SHIFT =? 0),
    (Z.land (Z.lxor old_modifier new_modifier) USB_HID_MODIFIER_RIGHT_CTRL =? 0),
    (Z.land (Z.lxor old_modifier new_modifier) USB_HID_MODIFIER_RIGHT_ALT =? 0);
    cbn [fst snd]; eexists; (split; [reflexivity | split; [reflexivity | cbn; lia]]).
Qed.

Lemma translate_writes_ready stack st current out :
  translator_status st = TRANSLATOR_READY ->
  tr_writes (scancode_translator_usb_to_ps2 stack st (Some current) (Some out))
  = seqZ 0 (modifier_events (modifier (last_usb_state st)) (modifier current))
    ++ seqZ (2 * modifier_events (modifier (last_usb_state st)) (modifier current))
            (Z.min (regular_key_events (last_usb_state st) current)
                   (MAX_TRANSLATION_BUFFER
                    - modifier_events (modifier (last_usb_state st)) (modifier current))).
Proof.
  intros Hready. unfold scancode_translator_usb_to_ps2.
  rewrite decide_True by exact Hready.
  destruct (translate_modifier_keys_writes (modifier (last_usb_state st)) (modifier current) stack)
    as (b1 & -> & Hw1 & Hm).
  set (m := modifier_events (modifier (last_usb_state st)) (modifier current)) in *.
  pose proof (translate_regular_keys_writes (last_usb_state st) current m b1 m
                ltac:(unfold MAX_TRANSLATION_BUFFER; lia)) as Hw2.
  destruct (translate_regular_keys (last_usb_state st) current m b1 m) as [[s2 b2] c2].
  cbn [fst snd] in Hw2.
  replace (2 * m) with (m + m) by lia. rewrite <- Hw1, <- Hw2.
  destruct s2; reflexivity.
Qed.

Lemma translate_writes_facts stack st current out :
  translator_status st = TRANSLATOR_READY ->
  let r := scancode_translator_usb_to_ps2 stack st (Some current) (Some out) in
  let m := modifier_events (modifier (last_usb_state st)) (modifier current) in
  let k := regular_key_events (last_usb_state st) current in
  0 <= m <= 6 /\ 0 <= k /\
  tr_writes r = seqZ 0 m ++ seqZ (2 * m) (Z.min k (MAX_TRANSLATION_BUFFER - m)).
Proof.
  intros Hready. cbn zeta.
  destruct (translate_modifier_keys_writes (modifier (last_usb_state st)) (modifier current) stack)
    as (_ & _ & _ & Hm).
  split; [exact Hm|]. split.
  - unfold regular_key_events, key_events.
    pose proof (count_key_events_nonneg (last_usb_state st) current
                  (seqZ 0 (key_count (last_usb_state st)))).
    pose proof (count_key_events_nonneg current (last_usb_state st)
                  (seqZ 0 (key_count current))).
    lia.
  - apply translate_writes_ready, Hready.
Qed.

Lemma translate_in_bounds_facts stack st current out :
  translator_status st = TRANSLATOR_READY ->
  let r := scancode_translator_usb_to_ps2 stack st (Some current) (Some out) in
  let m := modifier_events (modifier (last_usb_state st)) (modifier current) in
  let k := regular_key_events (last_usb_state st) current in
  writes_in_bounds r <->
  k = 0 \/ 2 * m + Z.min k (MAX_TRANSLATION_BUFFER - m) <= MAX_TRANSLATION_BUFFER.
Proof.
  intros Hready. cbn zeta.
  destruct (translate_writes_facts stack st current out Hready) as (Hm & Hk & Hw).
  cbn zeta in Hm, Hk, Hw.
  set (m := modifier_events (modifier (last_usb_state st)) (modifier current)) in *.
  set (k := regular_key_events (last_usb_state st) current) in *.
  unfold writes_in_bounds. rewrite Hw. unfold MAX_TRANSLATION_BUFFER.
  rewrite Forall_app, !Forall_forall. split.
  - intros [_ Hkeys].
    destruct (Z.eq_dec k 0) as [|Hk0]; [left; assumption | right].
    specialize (Hkeys (2 * m + Z.min k (8 - m) - 1)).
    rewrite elem_of_seqZ in Hkeys. lia.
  - intros Hcond. split; intros i Hi; apply elem_of_seqZ in Hi; lia.
Qed.

(** X16. The indices of [temp_scancodes] a call on a ready translator
    stores to, in order, for snapshots of at most six keys.  With [m] changed
    modifier bits and [k] key events (releases and presses of mapped keys),
    the modifier codes go to slots 0 to [m-1], and the key codes go to the
    consecutive indices starting at [2 m], not at [m].  If every store stays
    inside the array, there are as many key stores as key events, but no more
    than [8 - m], the point where the call gives up.  If not, a modifier has
    changed, and the stores up to the first one past the array are those of
    the modifier codes, the key codes at [2 m] and up to 7, and then the store
    at index 8 (at [2 m] when that is more). *)
Theorem translate_store_indices stack st current out :
  translator_status st = TRANSLATOR_READY ->
  snapshot_in_range (last_usb_state st) -> snapshot_in_range current ->
  let r := scancode_translator_usb_to_ps2 stack st (Some current) (Some out) in
  let m := modifier_events (modifier (last_usb_state st)) (modifier current) in
  let k := regular_key_events (last_usb_state st) current in
  0 <= m <= 6 /\ 0 <= k /\
  (writes_in_bounds r ->
   tr_writes r = seqZ 0 m ++ seqZ (2 * m) (Z.min k (MAX_TRANSLATION_BUFFER - m))) /\
  (~ writes_in_bounds r ->
   0 < m /\ 0 < k /\
   exists later,
     tr_writes r
     = seqZ 0 m ++ seqZ (2 * m) (Z.max 0 (MAX_TRANSLATION_BUFFER - 2 * m))
       ++ Z.max MAX_TRANSLATION_BUFFER (2 * m) :: later).
Proof.
  intros Hready _ _. cbn zeta.
  destruct (translate_writes_facts stack st current out Hready) as (Hm & Hk & Hw).
  pose proof (translate_in_bounds_facts stack st current out Hready) as Hiff.
  cbn zeta in Hm, Hk, Hw, Hiff.
  set (m := modifier_events (modifier (last_usb_state st)) (modifier current)) in *.
  set (k := regular_key_events (last_usb_state st) current) in *.
  split; [exact Hm|]. split; [exact Hk|]. split; [intros _; exact Hw|].
  intros Hout. rewrite Hiff in Hout. unfold MAX_TRANSLATION_BUFFER in *.
  assert (0 < m) as Hm0 by lia. assert (0 < k) as Hk0 by lia.
  split; [exact Hm0|]. split; [exact Hk0|].
  exists (seqZ (Z.succ (Z.max 8 (2 * m)))
               (Z.pred (Z.min k (8 - m) - Z.max 0 (8 - 2 * m)))).
  rewrite Hw. f_equal.
  replace (Z.min k (8 - m))
    with (Z.max 0 (8 - 2 * m) + (Z.min k (8 - m) - Z.max 0 (8 - 2 * m))) at 1 by lia.
  rewrite seqZ_app by lia. f_equal.
  replace (2 * m + Z.max 0 (8 - 2 * m)) with (Z.max 8 (2 * m)) by lia.
  apply seqZ_cons. lia.
Qed.

Lemma translate_store_indices_witness :
  tr_writes (scancode_translator_usb_to_ps2 zero_stack translator_ready
               (Some (snapshot_of_keys 0x03 [0x04; 0x05; 0x06]))
               (Some (mkScanCode [0; 0; 0; 0] 0)))
  = [0; 1; 4; 5; 6].
Proof.
  apply (translate_store_indices zero_stack translator_ready
           (snapshot_of_keys 0x03 [0x04; 0x05; 0x06]) (mkScanCode [0; 0; 0; 0] 0)).
  - reflexivity.
  - evaluate.
  - evaluate.
  - evaluate.
Defined.

(** X17. When the stores of a call stay inside the eight-slot array, for
    snapshots of at most six keys.  With [m] changed modifier bits and [k]
    key events, they do exactly when there is no key event or
    [2 m + min k (8 - m)] is at most 8.  In particular a call whose snapshots
    have no changed modifier bit never stores outside the array, and neither
    does a call without key events. *)
Theorem translate_stores_in_bounds_iff stack st current out :
  translator_status st = TRANSLATOR_READY ->
  snapshot_in_range (last_usb_state st) -> snapshot_in_range current ->
  let r := scancode_translator_usb_to_ps2 stack st (Some current) (Some out) in
  let m := modifier_events (modifier (last_usb_state st)) (modifier current) in
  let k := regular_key_events (last_usb_state st) current in
  (writes_in_bounds r <->
   k = 0 \/ 2 * m + Z.min k (MAX_TRANSLATION_BUFFER - m) <= MAX_TRANSLATION_BUFFER) /\
  (m = 0 -> writes_in_bounds r) /\
  (k = 0 -> writes_in_bounds r).
Proof.
  intros Hready _ _. cbn zeta.
  destruct (translate_writes_facts stack st current out Hready) as (Hm & Hk & _).
  pose proof (translate_in_bounds_facts stack st current out Hready) as Hiff.
  cbn zeta in Hm, Hk, Hiff.
  split; [exact Hiff|]. split; intros H0; apply Hiff; unfold MAX_TRANSLATION_BUFFER; lia.
Qed.

Lemma translate_stores_in_bounds_iff_witness :
  writes_in_bounds (scancode_translator_usb_to_ps2 zero_stack translator_ready
                      (Some (snapshot_of_keys 0 [0x04; 0x05; 0x06]))
                      (Some (mkScanCode [0; 0; 0; 0] 0))).
Proof.
  assert (snapshot_in_range (last_usb_state translator_ready)) as Hlast by evaluate.
  assert (snapshot_in_range (snapshot_of_keys 0 [0x04; 0x05; 0x06])) as Hcurrent by evaluate.
  destruct (translate_stores_in_bounds_iff zero_stack translator_ready
              (snapshot_of_keys 0 [0x04; 0x05; 0x06]) (mkScanCode [0; 0; 0; 0] 0)
              eq_refl Hlast Hcurrent)
    as (_ & Hunchanged & _).
  apply Hunchanged. reflexivity.
Defined.

End TranslatorStores.

(** ** Failure and silence of the translator *)

Section TranslatorFailure.

Implicit Types (stack : list PS2_ScanCode_t) (out : PS2_ScanCode_t)
  (st : translator_state) (last current : USB_HID_KeyboardData_t).

(** X18. On a ready translator, for snapshots of at most six keys and a
    call whose stores stay inside [temp_scancodes], the call fails exactly
    when the difference between the last translated snapshot and the current
    one stands for eight events or more (changed modifier bits with a scan
    code, plus released and pressed keys that are in the key map); with seven
    events or fewer it succeeds.  Such a failure comes from key events alone:
    no modifier bit with a scan code has changed. *)
Theorem translate_fails_iff_eight_events stack st current out :
  translator_status st = TRANSLATOR_READY ->
  snapshot_in_range (last_usb_state st) -> snapshot_in_range current ->
  let r := scancode_translator_usb_to_ps2 stack st (Some current) (Some out) in
  writes_in_bounds r ->
  (tr_ret r = TRANSLATOR_ERROR <->
   MAX_TRANSLATION_BUFFER <= diff_events (last_usb_state st) current) /\
  (tr_ret r = TRANSLATOR_OK <->
   diff_events (last_usb_state st) current < MAX_TRANSLATION_BUFFER) /\
  (tr_ret r = TRANSLATOR_ERROR ->
   modifier_events (modifier (last_usb_state st)) (modifier current) = 0).
Proof.
  intros Hready _ _. cbn zeta. intros Hin.
  destruct (translate_fails_from_eight_events stack st current out Hready) as [Hge Hlt].
  destruct (translate_writes_facts stack st current out Hready) as (Hm & Hk & _).
  apply (translate_in_bounds_facts stack st current out Hready) in Hin.
  cbn zeta in Hge, Hlt, Hm, Hk, Hin.
  assert (diff_events (last_usb_state st) current
          = modifier_events (modifier (last_usb_state st)) (modifier current)
            + regular_key_events (last_usb_state st) current) as Hdiff
    by (unfold diff_events, regular_key_events; lia).
  destruct (Z.lt_ge_cases (diff_events (last_usb_state st) current) MAX_TRANSLATION_BUFFER)
    as [Hsmall|Hbig].
  - destruct (Hlt Hsmall) as [Hok _]. rewrite Hok.
    split; [|split]; [split | split |]; intros H;
      first [discriminate H | lia | reflexivity | assumption].
  - destruct (Hge Hbig) as [Herr _]. rewrite Herr.
    split; [|split]; [split | split |]; intros H;
      first [discriminate H | reflexivity | assumption
            | unfold MAX_TRANSLATION_BUFFER in *; lia].
Qed.

Lemma translate_fails_iff_eight_events_witness :
  tr_ret (scancode_translator_usb_to_ps2 zero_stack translator_ready
            (Some (snapshot_of_keys 0 [0x04; 0x05; 0x06; 0x07; 0x08; 0x09]))
            (Some (mkScanCode [0; 0; 0; 0] 0)))
  = TRANSLATOR_OK.
Proof.
  apply (translate_fails_iff_eight_events zero_stack translator_ready
           (snapshot_of_keys 0 [0x04; 0x05; 0x06; 0x07; 0x08; 0x09])
           (mkScanCode [0; 0; 0; 0] 0)).
  - reflexivity.
  - evaluate.
  - evaluate.
  - evaluate.
  - vm_compute. reflexivity.
Defined.

(** X19. For snapshots of at most six keys and a call whose stores stay
    inside [temp_scancodes]: the call returns [TRANSLATOR_OK] or
    [TRANSLATOR_ERROR] and does not change [translator_status].  A failed
    call changes nothing at all: the last translated snapshot and the
    caller's scan code are what they were.  With a null argument or a
    translator that is not ready the call fails before it stores anything. *)
Theorem translate_failure_changes_nothing stack st
    (usb_data : option USB_HID_KeyboardData_t) (ps2_scancode : option PS2_ScanCode_t) :
  snapshot_in_range (last_usb_state st) ->
  match usb_data with Some current => snapshot_in_range current | None => True end ->
  let r := scancode_translator_usb_to_ps2 stack st usb_data ps2_scancode in
  writes_in_bounds r ->
  (tr_ret r = TRANSLATOR_OK \/ tr_ret r = TRANSLATOR_ERROR) /\
  translator_status (tr_state r) = translator_status st /\
  (tr_ret r = TRANSLATOR_ERROR -> tr_state r = st /\ tr_scancode r = ps2_scancode) /\
  (usb_data = None \/ ps2_scancode = None \/ translator_status st <> TRANSLATOR_READY ->
   tr_ret r = TRANSLATOR_ERROR /\ tr_writes r = []).
Proof.
  intros _ _. cbn zeta. intros _.
  assert (tr_ret (scancode_translator_usb_to_ps2 stack st usb_data ps2_scancode) = TRANSLATOR_OK
          \/ tr_ret (scancode_translator_usb_to_ps2 stack st usb_data ps2_scancode)
             = TRANSLATOR_ERROR) as Hret.
  { unfold scancode_translator_usb_to_ps2.
    destruct usb_data, ps2_scancode; try (right; reflexivity).
    destruct (decide _); [|right; reflexivity].
    destruct (translate_modifier_keys _ _ _ _ _) as [[s1 b1] c1].
    destruct s1; try (right; reflexivity).
    destruct (translate_regular_keys _ _ _ _ _) as [[s2 b2] c2].
    destruct s2; auto. }
  split; [exact Hret|].
  assert (tr_ret (scancode_translator_usb_to_ps2 stack st usb_data ps2_scancode)
            = TRANSLATOR_ERROR ->
          tr_state (scancode_translator_usb_to_ps2 stack st usb_data ps2_scancode) = st /\
          tr_scancode (scancode_translator_usb_to_ps2 stack st usb_data ps2_scancode)
            = ps2_scancode) as Hfail.
  { intros Herr. apply translate_error_inv. rewrite Herr. discriminate. }
  split; [|split; [exact Hfail|]].
  - destruct Hret as [Hok|Herr].
    + destruct usb_data as [current|], ps2_scancode as [out|]; try discriminate Hok.
      destruct (translate_ok_inv stack st current out Hok) as [-> _].
      revert Hok. unfold scancode_translator_usb_to_ps2.
      destruct (decide (translator_status st = TRANSLATOR_READY)) as [->|]; [|discriminate].
      reflexivity.
    + destruct (Hfail Herr) as [-> _]. reflexivity.
  - unfold scancode_translator_usb_to_ps2.
    intros [-> | [-> | Hnot]]; [split; reflexivity | destruct usb_data; split; reflexivity |].
    destruct usb_data, ps2_scancode; try (split; reflexivity).
    rewrite decide_False by exact Hnot. split; reflexivity.
Qed.

Lemma translate_failure_changes_nothing_witness :
  let last := mkTranslator TRANSLATOR_READY (snapshot_of_keys 0 [0x04; 0x05]) in
  let current := snapshot_of_keys 0 [0x06; 0x07; 0x08; 0x09; 0x0A; 0x0B] in
  let out := mkScanCode [0x1C; 0; 0; 0] 1 in
  let r := scancode_translator_usb_to_ps2 zero_stack last (Some current) (Some out) in
  tr_ret r = TRANSLATOR_ERROR /\ tr_state r = last /\ tr_scancode r = Some out.
Proof.
  cbn zeta. split; [reflexivity|].
  apply (translate_failure_changes_nothing zero_stack
           (mkTranslator TRANSLATOR_READY (snapshot_of_keys 0 [0x04; 0x05]))
           (Some (snapshot_of_keys 0 [0x06; 0x07; 0x08; 0x09; 0x0A; 0x0B]))
           (Some (mkScanCode [0x1C; 0; 0; 0] 1))).
  - evaluate.
  - evaluate.
  - evaluate.
  - reflexivity.
Defined.






End TranslatorFailure.

(** ** Translating the same snapshot twice *)

Section RepeatedCall.

Implicit Types (stack : list PS2_ScanCode_t) (out : PS2_ScanCode_t)
  (st : translator_state) (current : USB_HID_KeyboardData_t).

(** The indices a call stores to depend on the two snapshots only, not on
    what the local array or the caller's scan code hold. *)
Lemma translate_writes_same_snapshots stack1 stack2 st current out1 out2 :
  tr_writes (scancode_translator_usb_to_ps2 stack2 st (Some current) (Some out2))
  = tr_writes (scancode_translator_usb_to_ps2 stack1 st (Some current) (Some out1)).
Proof.
  destruct (decide (translator_status st = TRANSLATOR_READY)) as [Hready|Hnot].
  - rewrite !translate_writes_ready by exact Hready. reflexivity.
  - unfold scancode_translator_usb_to_ps2. rewrite !decide_False by exact Hnot. reflexivity.
Qed.

(** C6 (amended). Take a call translating [current] whose stores stay
    inside [temp_scancodes], both snapshots having at most six keys.  If it
    succeeds, the stored last snapshot becomes [current] (also when no event
    was generated), and a second call with the same [current] succeeds with
    an empty sequence (length 0), stores nothing into [temp_scancodes] and
    leaves the translator as the first call left it.  If it fails (on a ready
    translator: because the difference stands for eight events or more), the
    last snapshot and the caller's scan code are left as they were, and the
    second call fails in the same way, its stores inside the array too: no
    empty sequence is produced. *)
Theorem translate_same_snapshot_twice stack1 stack2 st current out :
  snapshot_in_range (last_usb_state st) -> snapshot_in_range current ->
  let r1 := scancode_translator_usb_to_ps2 stack1 st (Some current) (Some out) in
  let r2 := scancode_translator_usb_to_ps2 stack2 (tr_state r1) (Some current) (tr_scancode r1) in
  writes_in_bounds r1 ->
  (tr_ret r1 = TRANSLATOR_OK ->
   last_usb_state (tr_state r1) = current /\
   tr_ret r2 = TRANSLATOR_OK /\
   sc_length <$> tr_scancode r2 = Some 0 /\
   scancode_bytes <$> tr_scancode r2 = Some [] /\
   tr_writes r2 = [] /\
   tr_state r2 = tr_state r1) /\
  (tr_ret r1 = TRANSLATOR_ERROR ->
   (translator_status st = TRANSLATOR_READY ->
    MAX_TRANSLATION_BUFFER <= diff_events (last_usb_state st) current) /\
   tr_state r1 = st /\ tr_scancode r1 = Some out /\
   tr_ret r2 = TRANSLATOR_ERROR /\ tr_state r2 = st /\ tr_scancode r2 = Some out /\
   writes_in_bounds r2).
Proof.
  intros _ _ r1 r2 Hin. split.
  - intros Hok. subst r2.
    destruct (translate_ok_inv stack1 st current out Hok) as (Hst & out1 & Hout).
    fold r1 in Hst, Hout. rewrite Hst, Hout.
    rewrite translate_unchanged_snapshot. cbn.
    repeat split; reflexivity.
  - intros Hfail.
    destruct (translate_error_inv stack1 st (Some current) (Some out)) as [Hst Hout].
    { fold r1. rewrite Hfail. discriminate. }
    fold r1 in Hst, Hout. subst r2. rewrite Hst, Hout.
    assert (translator_status st = TRANSLATOR_READY ->
            MAX_TRANSLATION_BUFFER <= diff_events (last_usb_state st) current) as Hevents.
    { intros Hready.
      destruct (translate_fails_from_eight_events stack1 st current out Hready) as [_ Hlt].
      destruct (Z.lt_ge_cases (diff_events (last_usb_state st) current) MAX_TRANSLATION_BUFFER)
        as [Hsmall|Hbig]; [|exact Hbig].
      destruct (Hlt Hsmall) as [Hok _]. fold r1 in Hok. rewrite Hok in Hfail.
      discriminate Hfail. }
    assert (tr_ret (scancode_translator_usb_to_ps2 stack2 st (Some current) (Some out))
            = TRANSLATOR_ERROR) as Hret2.
    { destruct (decide (translator_status st = TRANSLATOR_READY)) as [Hready|Hnot].
      - destruct (translate_fails_from_eight_events stack2 st current out Hready) as [Hge _].
        apply Hge, Hevents, Hready.
      - unfold scancode_translator_usb_to_ps2. rewrite decide_False by exact Hnot.
        reflexivity. }
    destruct (translate_error_inv stack2 st (Some current) (Some out)) as [Hst2 Hout2].
    { rewrite Hret2. discriminate. }
    split; [exact Hevents|]. split; [reflexivity|]. split; [reflexivity|].
    split; [exact Hret2|]. split; [exact Hst2|]. split; [exact Hout2|].
    unfold writes_in_bounds.
    rewrite (translate_writes_same_snapshots stack1 stack2 st current out out).
    exact Hin.
Qed.

Lemma translate_same_snapshot_twice_witness :
  (let r1 := scancode_translator_usb_to_ps2 zero_stack translator_ready
               (Some (snapshot_of_keys 0 [USB_HID_KEY_A])) (Some (mkScanCode [0; 0; 0; 0] 0)) in
   let r2 := scancode_translator_usb_to_ps2 zero_stack (tr_state r1)
               (Some (snapshot_of_keys 0 [USB_HID_KEY_A])) (tr_scancode r1) in
   tr_ret r1 = TRANSLATOR_OK /\
   sc_length <$> tr_scancode r2 = Some 0) /\
  (let st := mkTranslator TRANSLATOR_READY (snapshot_of_keys 0 [0x04; 0x05]) in
   let current := snapshot_of_keys 0 [0x06; 0x07; 0x08; 0x09; 0x0A; 0x0B] in
   let r1 := scancode_translator_usb_to_ps2 zero_stack st
               (Some current) (Some (mkScanCode [0x1C; 0; 0; 0] 1)) in
   let r2 := scancode_translator_usb_to_ps2 zero_stack (tr_state r1)
               (Some current) (tr_scancode r1) in
   tr_ret r1 = TRANSLATOR_ERROR /\
   tr_ret r2 = TRANSLATOR_ERROR /\
   tr_scancode r2 = Some (mkScanCode [0x1C; 0; 0; 0] 1)).
Proof.
  split; cbn zeta.
  - split; [reflexivity|].
    apply (translate_same_snapshot_twice zero_stack zero_stack translator_ready
             (snapshot_of_keys 0 [USB_HID_KEY_A]) (mkScanCode [0; 0; 0; 0] 0)).
    + evaluate.
    + evaluate.
    + evaluate.
    + reflexivity.
  - split; [reflexivity|].
    destruct (translate_same_snapshot_twice zero_stack zero_stack
                (mkTranslator TRANSLATOR_READY (snapshot_of_keys 0 [0x04; 0x05]))
                (snapshot_of_keys 0 [0x06; 0x07; 0x08; 0x09; 0x0A; 0x0B])
                (mkScanCode [0x1C; 0; 0; 0] 1)) as [_ Hfails].
    + evaluate.
    + evaluate.
    + evaluate.
    + destruct (Hfails eq_refl) as (_ & _ & _ & Hret2 & _ & Hout2 & _).
      split; [exact Hret2 | exact Hout2].
Defined.

End RepeatedCall.

(** ** The data path of the main loop *)

Section MainLoop.

Implicit Types (stack : list PS2_ScanCode_t) (s : converter_state)
  (oldest : USB_HID_KeyboardData_t) (others : list USB_HID_KeyboardData_t).

Lemma find_ps2_scancode_byte (key code ext : Z) :
  find_ps2_scancode key = Some (code, ext) -> 0 <= code < 256.
Proof.
  intros Hfind.
  destruct (find_in_table_entry _ _ _ _ Hfind) as (e & Hin & _ & <- & _ & _).
  assert (Forall (fun e => 0 <= ps2_key e < 256) key_mapping_table) as Htable
    by (apply (bool_decide_unpack _); vm_compute; exact I).
  rewrite Forall_forall in Htable. apply Htable, Hin.
Qed.

Lemma make_break_bytes_are_bytes (extended : bool) (code : Z) :
  0 <= code < 256 ->
  Forall (fun x => 0 <= x < 256) (make_bytes extended code) /\
  Forall (fun x => 0 <= x < 256) (break_bytes extended code).
Proof.
  intros Hcode. unfold make_bytes, break_bytes, PS2_EXTENDED_CODE_PREFIX, PS2_BREAK_CODE_PREFIX.
  destruct extended; split; repeat constructor; lia.
Qed.

Lemma key_event_list_bytes (bytes_of : bool -> Z -> list Z) from other (idx : list Z) :
  (forall ext code, 0 <= code < 256 -> Forall (fun x => 0 <= x < 256) (bytes_of ext code)) ->
  Forall (Forall (fun x => 0 <= x < 256)) (key_event_list bytes_of from other idx).
Proof.
  intros Hbytes. unfold key_event_list.
  induction idx as [|i idx IH]; [constructor|].
  cbn [map concat]. apply Forall_app. split; [|exact IH].
  unfold key_event. destruct (is_key_in_array _ _ _); [constructor|].
  destruct (find_ps2_scancode _) as [[code ext]|] eqn:Hfind; [|constructor].
  repeat constructor. apply Hbytes. eapply find_ps2_scancode_byte, Hfind.
Qed.

Lemma expected_events_bytes last current :
  Forall (Forall (fun x => 0 <= x < 256)) (expected_events last current).
Proof.
  unfold expected_events. rewrite !Forall_app. split; [|split].
  - assert (forall mask code ext, 0 <= code < 256 ->
              Forall (Forall (fun x => 0 <= x < 256))
                (modifier_event (modifier last) (modifier current) (mask, code, ext))) as Hone.
    { intros mask code ext Hc. unfold modifier_event.
      destruct (_ =? 0); [constructor|].
      constructor; [|constructor].
      destruct (_ =? 0); apply make_break_bytes_are_bytes, Hc. }
    unfold modifier_event_list, modifier_codes. cbn [map concat].
    rewrite !Forall_app.
    repeat split; first [apply Hone; lia | constructor].
  - apply key_event_list_bytes. intros ext code Hc.
    apply make_break_bytes_are_bytes, Hc.
  - apply key_event_list_bytes. intros ext code Hc.
    apply make_break_bytes_are_bytes, Hc.
Qed.

Lemma first_event_bytes last current :
  Forall (fun x => 0 <= x < 256) (List.hd [] (expected_events last current)).
Proof.
  pose proof (expected_events_bytes last current) as Hall.
  destruct (expected_events last current) as [|e evs]; [constructor|].
  apply Forall_cons in Hall as [He _]. exact He.
Qed.

(** X21. A turn of the main loop that finds the queue empty does nothing:
    no bus activity, and none of the variables of the data path changes. *)
Theorem main_loop_idle_turn stack s :
  queue_wf (cv_handler s) -> queue_contents (cv_handler s) = [] ->
  main_loop_data_path stack s = (s, []).
Proof.
  intros Hwf Hempty. unfold main_loop_data_path.
  destruct (get_data_facts (cv_handler s) (loop_usb_keyboard_data s) Hwf) as [_ Hget].
  rewrite Hempty in Hget. rewrite Hget. destruct s; reflexivity.
Qed.

Lemma main_loop_idle_turn_witness :
  main_loop_data_path zero_stack (converter_at_start keyboard_data_zero (mkScanCode [0; 0; 0; 0] 0))
  = (converter_at_start keyboard_data_zero (mkScanCode [0; 0; 0; 0] 0), []).
Proof.
  apply (main_loop_idle_turn zero_stack
           (converter_at_start keyboard_data_zero (mkScanCode [0; 0; 0; 0] 0))).
  - exact handler_at_reset_wf.
  - reflexivity.
Defined.

Lemma main_loop_turn_facts stack s oldest others :
  converter_ready s -> queue_contents (cv_handler s) = oldest :: others ->
  stack_wf stack ->
  let s' := fst (main_loop_data_path stack s) in
  let tr := snd (main_loop_data_path stack s) in
  let last := last_usb_state (cv_translator s) in
  let first_event := List.hd [] (expected_events last oldest) in
  queue_contents (cv_handler s') = others /\
  converter_ready s' /\
  loop_usb_keyboard_data s' = oldest /\
  (diff_events last oldest < MAX_TRANSLATION_BUFFER ->
   last_usb_state (cv_translator s') = oldest /\
   scancode_bytes (loop_ps2_scancode s') = first_event /\
   sample_falling_edges lines_idle tr = concat (map frame_bits first_event) /\
   decode_frames (sample_falling_edges lines_idle tr) = Some first_event) /\
  (MAX_TRANSLATION_BUFFER <= diff_events last oldest ->
   cv_translator s' = cv_translator s /\
   loop_ps2_scancode s' = loop_ps2_scancode s /\
   tr = []).
Proof.
  intros (Hwf & Hrange & Hready & Hlast & Hps2 & Hout) Hq Hstack. cbn zeta.
  rewrite Hq in Hrange. apply Forall_cons in Hrange as [Holdest Hothers].
  unfold main_loop_data_path.
  destruct (get_data_facts (cv_handler s) (loop_usb_keyboard_data s) Hwf) as [_ Hget].
  rewrite Hq in Hget. destruct Hget as (h' & -> & Hq' & _ & _ & Hwf').
  change (default (loop_usb_keyboard_data s) (Some oldest)) with oldest.
  destruct (translate_fails_from_eight_events stack (cv_translator s) oldest
              (loop_ps2_scancode s) Hready) as [Hge Hlt].
  cbn zeta in Hge, Hlt.
  destruct (Z.lt_ge_cases (diff_events (last_usb_state (cv_translator s)) oldest)
              MAX_TRANSLATION_BUFFER) as [Hsmall|Hbig].
  - destruct (Hlt Hsmall) as [Hok _].
    destruct (translate_first_event_facts stack (cv_translator s) oldest
                (loop_ps2_scancode s) Hready Hstack Hout Hok)
      as (out' & Hsc & Hwf_out & Hbytes & Hlen & Hshort & _ & Hst).
    rewrite Hok, Hsc, Hst, Hps2.
    change (default (loop_ps2_scancode s) (Some out')) with out'.
    rewrite ps2_send_scancode_ready. cbn [fst snd ps2_status_after ps2_trace].
    unfold converter_ready.
    cbn [cv_handler cv_translator cv_ps2_status loop_usb_keyboard_data loop_ps2_scancode
         translator_status last_usb_state].
    assert (sent_bytes out' = List.hd [] (expected_events (last_usb_state (cv_translator s)) oldest))
      as Hsent.
    { unfold sent_bytes. rewrite take_as_lookups; [exact Hbytes|].
      unfold scancode_wf in Hwf_out. rewrite Hwf_out, Hlen. lia. }
    rewrite Hsent, sample_bytes by reflexivity. rewrite Hq'.
    split; [reflexivity|].
    split; [repeat (split; [first [assumption | reflexivity]|]); assumption|].
    split; [reflexivity|].
    split; [|intros Habs; lia].
    intros _. split; [reflexivity|]. split; [exact Hbytes|]. split; [reflexivity|].
    apply decode_frames_bytes, first_event_bytes.
  - destruct (Hge Hbig) as (Herr & Hst & Hsc).
    rewrite Herr, Hsc, Hst.
    change (default (loop_ps2_scancode s) (Some (loop_ps2_scancode s)))
      with (loop_ps2_scancode s).
    cbn [fst snd]. unfold converter_ready.
    cbn [cv_handler cv_translator cv_ps2_status loop_usb_keyboard_data loop_ps2_scancode].
    rewrite Hq'.
    split; [reflexivity|].
    split; [repeat (split; [first [assumption | reflexivity]|]); assumption|].
    split; [reflexivity|].
    split; [intros Habs; lia|]. intros _. repeat split; reflexivity.
Qed.

(** A turn of the loop keeps the data path ready for the next one, whether
    it finds a snapshot queued or not. *)
Lemma main_loop_turn_ready stack s :
  converter_ready s -> stack_wf stack -> converter_ready (fst (main_loop_data_path stack s)).
Proof.
  intros Hs Hstack.
  destruct (queue_contents (cv_handler s)) as [|oldest others] eqn:Hq.
  - assert (main_loop_data_path stack s = (s, [])) as ->; [|exact Hs].
    destruct Hs as (Hwf & _). unfold main_loop_data_path.
    destruct (get_data_facts (cv_handler s) (loop_usb_keyboard_data s) Hwf) as [_ Hget].
    rewrite Hq in Hget. rewrite Hget. destruct s; reflexivity.
  - apply (main_loop_turn_facts stack s oldest others Hs Hq Hstack).
Qed.

Lemma main_loop_turns_ready (stacks : list (list PS2_ScanCode_t)) : forall s,
  converter_ready s -> Forall stack_wf stacks ->
  converter_ready (fst (main_loop_turns stacks s)).
Proof.
  induction stacks as [|stack stacks IH]; intros s Hs Hstacks; [exact Hs|].
  apply Forall_cons in Hstacks as [Hstack Hstacks].
  cbn [main_loop_turns].
  pose proof (main_loop_turn_ready stack s Hs Hstack) as Hs1.
  destruct (main_loop_data_path stack s) as [s1 tr]. cbn [fst] in Hs1.
  specialize (IH s1 Hs1 Hstacks).
  destruct (main_loop_turns stacks s1) as [s2 trs]. exact IH.
Qed.

(** X22. A turn of the main loop that finds snapshots queued, the data
    path being ready (queue well formed, its snapshots of at most six keys,
    translator and framer ready) and the stores of the translation call
    staying inside [temp_scancodes].  The oldest snapshot leaves the queue in
    every case.  If its difference to the last translated snapshot stands for
    fewer than eight events, the bus carries exactly the frames of the bytes
    of the first event (nothing at all when there is no event), a receiver
    decodes them to those bytes, and the snapshot becomes the last translated
    one.  If it stands for eight events or more, there is no bus activity and
    the translator keeps its last snapshot: the dequeued snapshot is dropped
    without having been translated.  The data path is ready for the next
    turn. *)
Theorem main_loop_turn stack s oldest others :
  converter_ready s -> queue_contents (cv_handler s) = oldest :: others ->
  stack_wf stack ->
  writes_in_bounds (scancode_translator_usb_to_ps2 stack (cv_translator s)
                      (Some oldest) (Some (loop_ps2_scancode s))) ->
  let s' := fst (main_loop_data_path stack s) in
  let tr := snd (main_loop_data_path stack s) in
  let last := last_usb_state (cv_translator s) in
  let first_event := List.hd [] (expected_events last oldest) in
  queue_contents (cv_handler s') = others /\
  converter_ready s' /\
  loop_usb_keyboard_data s' = oldest /\
  (diff_events last oldest < MAX_TRANSLATION_BUFFER ->
   last_usb_state (cv_translator s') = oldest /\
   scancode_bytes (loop_ps2_scancode s') = first_event /\
   sample_falling_edges lines_idle tr = concat (map frame_bits first_event) /\
   decode_frames (sample_falling_edges lines_idle tr) = Some first_event) /\
  (MAX_TRANSLATION_BUFFER <= diff_events last oldest ->
   cv_translator s' = cv_translator s /\
   loop_ps2_scancode s' = loop_ps2_scancode s /\
   tr = []).
Proof. intros Hs Hq Hstack _. apply main_loop_turn_facts; assumption. Qed.

Lemma main_loop_turn_witness :
  let s0 := converter_at_start keyboard_data_zero (mkScanCode [0; 0; 0; 0] 0) in
  let s1 := mkConverter
              (snd (keyboard_handler_process_report (cv_handler s0)
                      (Some [0x40; 0; 0; 0; 0; 0; 0; 0]) KEYBOARD_REPORT_SIZE))
              (cv_translator s0) (cv_ps2_status s0)
              (loop_usb_keyboard_data s0) (loop_ps2_scancode s0) in
  decode_frames (sample_falling_edges lines_idle (snd (main_loop_data_path zero_stack s1)))
  = Some [0xE0; 0x11].
Proof.
  cbn zeta.
  set (s1 := mkConverter _ _ _ _ _).
  assert (converter_ready s1) as Hs1
    by (unfold converter_ready, queue_wf, scancode_wf; evaluate).
  assert (writes_in_bounds (scancode_translator_usb_to_ps2 zero_stack (cv_translator s1)
                              (Some (snapshot_of_keys 0x40 []))
                              (Some (loop_ps2_scancode s1)))) as Hin by evaluate.
  destruct (main_loop_turn zero_stack s1 (snapshot_of_keys 0x40 []) []
              Hs1 eq_refl zero_stack_wf Hin)
    as (_ & _ & _ & Hsmall & _).
  apply Hsmall. vm_compute. reflexivity.
Defined.

(** X23. Draining the queue.  Run as many turns of the loop as there are
    snapshots queued, the data path being ready and the stores of every
    translation call of the run staying inside [temp_scancodes].  Turn by
    turn, a receiver on the bus decodes the first event of the difference
    between the snapshot taken from the queue and the last snapshot translated
    before it; a snapshot whose difference has eight events or more puts
    nothing on the bus and is not remembered, so the snapshot after it is
    compared with the one before it.  Afterwards the queue is empty and the
    data path ready. *)
Theorem main_loop_drains_queue (stacks : list (list PS2_ScanCode_t)) : forall s,
  converter_ready s ->
  Forall stack_wf stacks ->
  length stacks = length (queue_contents (cv_handler s)) ->
  turns_in_bounds stacks s ->
  let s' := fst (main_loop_turns stacks s) in
  let traces := snd (main_loop_turns stacks s) in
  map (fun tr => decode_frames (sample_falling_edges lines_idle tr)) traces
  = map Some (expected_turns (last_usb_state (cv_translator s)) (queue_contents (cv_handler s))) /\
  queue_contents (cv_handler s') = [] /\
  converter_ready s'.
Proof.
  induction stacks as [|stack stacks IH]; intros s Hs Hstacks Hlen Hin.
  - cbn [length] in Hlen. destruct (queue_contents (cv_handler s)) eqn:Hq; [|discriminate Hlen].
    cbn. rewrite Hq. auto.
  - apply Forall_cons in Hstacks as [Hstack Hstacks].
    destruct (queue_contents (cv_handler s)) as [|oldest others] eqn:Hq; [discriminate Hlen|].
    cbn [length] in Hlen.
    cbn [turns_in_bounds] in Hin. destruct Hin as [_ Hin].
    destruct (main_loop_turn_facts stack s oldest others Hs Hq Hstack)
      as (Hq1 & Hs1 & _ & Hsmall & Hbig).
    cbn zeta in Hq1, Hs1, Hsmall, Hbig.
    cbn [main_loop_turns expected_turns].
    destruct (main_loop_data_path stack s) as [s1 tr]. cbn [fst snd] in *.
    specialize (IH s1 Hs1 Hstacks ltac:(rewrite Hq1; lia) Hin).
    cbn zeta in IH. rewrite Hq1 in IH.
    destruct (main_loop_turns stacks s1) as [s2 trs]. cbn [fst snd map] in *.
    destruct IH as (Htr & Hrest).
    split; [|exact Hrest].
    destruct (Z.ltb_spec (diff_events (last_usb_state (cv_translator s)) oldest)
                MAX_TRANSLATION_BUFFER) as [Hlt|Hge].
    + destruct (Hsmall Hlt) as (Hlast & _ & _ & Hdec).
      cbn [map]. rewrite Hdec, Htr, Hlast. reflexivity.
    + destruct (Hbig Hge) as (Htrans & _ & ->).
      cbn [map]. rewrite Htr, Htrans. reflexivity.
Qed.

Lemma main_loop_drains_queue_witness :
  let s0 := converter_at_start keyboard_data_zero (mkScanCode [0; 0; 0; 0] 0) in
  let h := snd (process_reports (cv_handler s0)
                  [[0; 0; 4; 0; 0; 0; 0; 0]; [0; 0; 0; 0; 0; 0; 0; 0]]) in
  let s1 := mkConverter h (cv_translator s0) (cv_ps2_status s0)
              (loop_usb_keyboard_data s0) (loop_ps2_scancode s0) in
  map (fun tr => decode_frames (sample_falling_edges lines_idle tr))
      (snd (main_loop_turns [zero_stack; zero_stack] s1))
  = [Some [0x1C]; Some [0xF0; 0x1C]].
Proof.
  cbn zeta.
  set (s1 := mkConverter _ _ _ _ _).
  assert (converter_ready s1) as Hs1
    by (unfold converter_ready, queue_wf, scancode_wf; evaluate).
  assert (Forall stack_wf [zero_stack; zero_stack]) as Hstacks
    by (repeat constructor; exact zero_stack_wf).
  assert (turns_in_bounds [zero_stack; zero_stack] s1) as Hin by evaluate.
  destruct (main_loop_drains_queue [zero_stack; zero_stack] s1
              Hs1 Hstacks eq_refl Hin) as [Hbus _].
  etransitivity; [exact Hbus|]. vm_compute. reflexivity.
Defined.

End MainLoop.

(** ** Comparing snapshots *)

Section CompareStates.

Implicit Types (old_state new_state : USB_HID_KeyboardData_t).

Lemma compare_states_shape old_state new_state :
  snapshot_wf new_state -> 0 <= key_count new_state <= USB_HID_MAX_KEYS ->
  keyboard_compare_states old_state new_state
  = mkKeyboardData (Z.lxor (modifier old_state) (modifier new_state)) 0
      (take (Z.to_nat (key_count new_state)) (keys new_state)
       ++ replicate (6 - Z.to_nat (key_count new_state)) 0)
      (key_count new_state).
Proof.
  unfold snapshot_wf, USB_HID_MAX_KEYS. intros Hwf Hcount.
  unfold keyboard_compare_states. f_equal.
  change (fold_left _ _ _)
    with (copy_data (keys new_state) (replicate 6 0) (key_count new_state)).
  destruct (copy_data_take_drop (keys new_state) (replicate 6 0) (key_count new_state))
    as [Htake Hdrop]; [lia | rewrite length_replicate; lia |].
  rewrite <- (take_drop (Z.to_nat (key_count new_state))
                (copy_data (keys new_state) (replicate 6 0) (key_count new_state))).
  rewrite Htake, Hdrop, drop_replicate. reflexivity.
Qed.

(** X24. [keyboard_compare_states] reports a difference only for the
    modifiers: the modifier byte of the result has exactly the bits in which
    the two snapshots differ, but the key part is a copy of the new
    snapshot's pressed keys (its first [key_count] keys, padded with zeros)
    whatever the old snapshot held.  For a snapshot parsed from a report the
    key part is the new snapshot's key part itself. *)
Theorem keyboard_compare_states_spec old_state new_state :
  snapshot_wf new_state -> 0 <= key_count new_state <= USB_HID_MAX_KEYS ->
  keyboard_compare_states old_state new_state
  = mkKeyboardData (Z.lxor (modifier old_state) (modifier new_state)) 0
      (take (Z.to_nat (key_count new_state)) (keys new_state)
       ++ replicate (6 - Z.to_nat (key_count new_state)) 0)
      (key_count new_state) /\
  (forall i, 0 <= i ->
     Z.testbit (modifier (keyboard_compare_states old_state new_state)) i
     = xorb (Z.testbit (modifier old_state) i) (Z.testbit (modifier new_state) i)) /\
  (forall r, keyboard_compare_states old_state (keyboard_parse_hid_report r)
     = mkKeyboardData (Z.lxor (modifier old_state) (byte_at r KEYBOARD_MODIFIER_OFFSET)) 0
         (keys (keyboard_parse_hid_report r)) (key_count (keyboard_parse_hid_report r))).
Proof.
  intros Hwf Hcount. split; [apply compare_states_shape; assumption|]. split.
  - intros i Hi. cbn [keyboard_compare_states modifier]. apply Z.lxor_spec.
  - intros r. destruct (parse_report_shape r) as (Heq & Hc & Htake & _).
    rewrite compare_states_shape by (apply keyboard_parse_hid_report_wf || exact Hc).
    rewrite Htake. rewrite Heq at 1 2 3. cbn [modifier key_count keys].
    rewrite Nat2Z.id. rewrite Heq. reflexivity.
Qed.

Lemma keyboard_compare_states_spec_witness :
  keyboard_compare_states (snapshot_of_keys 0x02 [0x04]) (snapshot_of_keys 0x03 [0x05])
  = mkKeyboardData 0x01 0 [0x05; 0; 0; 0; 0; 0] 1.
Proof.
  etransitivity;
    [apply (keyboard_compare_states_spec (snapshot_of_keys 0x02 [0x04])
              (snapshot_of_keys 0x03 [0x05]));
     [reflexivity | vm_compute; split; discriminate] | reflexivity].
Defined.

End CompareStates.

(** ** The USB host status and the application state *)

Section HostStatus.

Implicit Types (st : usb_host_state) (urbs : list HCD_URBStateTypeDef).





Lemma urb_errors_cons (u : HCD_URBStateTypeDef) urbs :
  urb_errors (u :: urbs) = (if decide (u = URB_ERROR) then 1 else 0) + urb_errors urbs.
Proof.
  unfold urb_errors. rewrite filter_cons.
  destruct (decide (u = URB_ERROR)); cbn [length]; lia.
Qed.

Lemma urb_errors_nonneg urbs : 0 <= urb_errors urbs.
Proof. unfold urb_errors. lia. Qed.

(** X26. Transfer errors are counted, not forgiven.  Starting with a retry
    counter [n] (0 after a connect), a run of URB notifications without a
    stall and with at most [3 - n] errors leaves the status alone and raises
    the counter by the number of errors; completed transfers in between do
    not reset it.  The error that finds the counter at 3 sets
    [USB_HOST_ERROR] and clears the counter, and a stall sets
    [USB_HOST_ERROR] at once. *)
Theorem urb_errors_accumulate st urbs :
  0 <= retry_count st ->
  URB_STALL ∉ urbs ->
  retry_count st + urb_errors urbs <= USB_HOST_MAX_RETRY_COUNT ->
  let st' := fold_left usb_host_urb_change_callback urbs st in
  st' = mkUsbHost (usb_host_status st) (device_connected st)
          (retry_count st + urb_errors urbs) (last_check_time st) /\
  usb_host_urb_change_callback st' URB_STALL
  = mkUsbHost USB_HOST_ERROR (device_connected st)
      (retry_count st + urb_errors urbs) (last_check_time st) /\
  (retry_count st + urb_errors urbs = USB_HOST_MAX_RETRY_COUNT ->
   usb_host_urb_change_callback st' URB_ERROR
   = mkUsbHost USB_HOST_ERROR (device_connected st) 0 (last_check_time st)).
Proof.
  unfold USB_HOST_MAX_RETRY_COUNT. intros Hn Hstall Hfew. cbn zeta.
  assert (fold_left usb_host_urb_change_callback urbs st
          = mkUsbHost (usb_host_status st) (device_connected st)
              (retry_count st + urb_errors urbs) (last_check_time st)) as ->.
  { revert st Hn Hfew. induction urbs as [|u urbs IH]; intros st Hn Hfew.
    - unfold urb_errors. cbn. rewrite Z.add_0_r. destruct st; reflexivity.
    - rewrite urb_errors_cons in Hfew |- *.
      pose proof (urb_errors_nonneg urbs) as Hnn.
      apply not_elem_of_cons in Hstall as [Hu Hstall].
      cbn [fold_left]. destruct (decide (u = URB_ERROR)) as [->|Hne].
      + rewrite IH; [| exact Hstall | |];
          unfold usb_host_urb_change_callback, USB_HOST_MAX_RETRY_COUNT;
          destruct (Z.ltb_spec (retry_count st) 3); try lia;
          cbn [usb_host_status device_connected retry_count last_check_time];
          unfold u32; rewrite ?Z.mod_small by lia; try lia.
        f_equal. lia.
      + assert (usb_host_urb_change_callback st u = st) as ->
          by (destruct u; try reflexivity; contradiction).
        rewrite IH by (assumption || lia). f_equal. }
  split; [reflexivity|]. split; [reflexivity|].
  intros Hfull. unfold usb_host_urb_change_callback, USB_HOST_MAX_RETRY_COUNT.
  cbn [retry_count]. destruct (Z.ltb_spec (retry_count st + urb_errors urbs) 3); [lia|].
  reflexivity.
Qed.

Lemma urb_errors_accumulate_witness :
  fold_left usb_host_urb_change_callback [URB_ERROR; URB_DONE; URB_ERROR; URB_DONE; URB_ERROR]
    (HAL_HCD_Connect_Callback usb_host_at_reset)
  = mkUsbHost USB_HOST_DEVICE_CONNECTED 1 3 0.
Proof.
  apply (urb_errors_accumulate (HAL_HCD_Connect_Callback usb_host_at_reset)
           [URB_ERROR; URB_DONE; URB_ERROR; URB_DONE; URB_ERROR]).
  - cbn. lia.
  - intros Hin. repeat (apply elem_of_cons in Hin as [Hin|Hin]; [discriminate Hin|]).
    apply elem_of_nil in Hin. exact Hin.
  - vm_compute. discriminate.
Defined.

(** X27. [system_status_check] and the error state.  The application state
    after a check is [APP_STATE_ERROR] exactly when it was so before, or the
    USB host status is [USB_HOST_ERROR], or the framer status is [PS2_ERROR]:
    the check never leaves the error state.  Any number of turns of the main
    loop, started with the data path ready and with the stores of every
    translation call staying inside [temp_scancodes], leaves the data path
    ready, whatever is queued; so the check that follows enters the error
    state only for a USB host error. *)
Theorem status_check_error_state (app_state : AppState_t) (usb : usb_host_state)
    (ps2_status : PS2_Status_t) (stacks : list (list PS2_ScanCode_t)) (s : converter_state) :
  (system_status_check app_state usb ps2_status = APP_STATE_ERROR <->
   app_state = APP_STATE_ERROR \/ usb_host_status usb = USB_HOST_ERROR \/
   ps2_status = PS2_ERROR) /\
  (converter_ready s -> Forall stack_wf stacks -> turns_in_bounds stacks s ->
   let s' := fst (main_loop_turns stacks s) in
   converter_ready s' /\
   (system_status_check app_state usb (cv_ps2_status s') = APP_STATE_ERROR <->
    app_state = APP_STATE_ERROR \/ usb_host_status usb = USB_HOST_ERROR)).
Proof.
  assert (forall p, system_status_check app_state usb p = APP_STATE_ERROR <->
                    app_state = APP_STATE_ERROR \/ usb_host_status usb = USB_HOST_ERROR \/
                    p = PS2_ERROR) as Hcheck.
  { intros p. unfold system_status_check, usb_host_get_status, ps2_get_status,
      usb_host_device_connected.
    destruct (decide (usb_host_status usb = USB_HOST_ERROR)) as [|Hu]; [tauto|].
    destruct (decide (p = PS2_ERROR)) as [|Hp]; [tauto|].
    destruct app_state; cbn; destruct (device_connected usb =? 0); cbn;
      split; intros H; try discriminate H; try tauto;
      destruct H as [H|[H|H]]; first [discriminate H | contradiction]. }
  split; [apply Hcheck|].
  intros Hs Hstacks _. cbn zeta.
  pose proof (main_loop_turns_ready stacks s Hs Hstacks) as Hs'.
  split; [exact Hs'|].
  destruct Hs' as (_ & _ & _ & _ & Hp & _).
  rewrite Hcheck, Hp. split; [intros [H|[H|H]]; [auto | auto | discriminate H] | tauto].
Qed.

Lemma status_check_error_state_witness :
  let s0 := converter_at_start keyboard_data_zero (mkScanCode [0; 0; 0; 0] 0) in
  let h := snd (process_reports (cv_handler s0)
                  [[0x02; 0; 4; 0; 0; 0; 0; 0]; [0; 0; 0; 0; 0; 0; 0; 0]]) in
  let s1 := mkConverter h (cv_translator s0) (cv_ps2_status s0)
              (loop_usb_keyboard_data s0) (loop_ps2_scancode s0) in
  system_status_check APP_STATE_RUNNING (HAL_HCD_Connect_Callback usb_host_at_reset)
    (cv_ps2_status (fst (main_loop_turns [zero_stack; zero_stack; zero_stack] s1)))
  <> APP_STATE_ERROR.
Proof.
  cbn zeta.
  set (s1 := mkConverter _ _ _ _ _).
  assert (converter_ready s1) as Hs1
    by (unfold converter_ready, queue_wf, scancode_wf; evaluate).
  assert (Forall stack_wf [zero_stack; zero_stack; zero_stack]) as Hstacks
    by (repeat constructor; exact zero_stack_wf).
  assert (turns_in_bounds [zero_stack; zero_stack; zero_stack] s1) as Hin by evaluate.
  destruct (status_check_error_state APP_STATE_RUNNING
              (HAL_HCD_Connect_Callback usb_host_at_reset) PS2_READY
              [zero_stack; zero_stack; zero_stack] s1) as [_ Hloop].
  destruct (Hloop Hs1 Hstacks Hin) as [_ Hcheck].
  rewrite Hcheck. intros [H|H]; discriminate H.
Defined.

End HostStatus.
